(** * Vehicle-Spawncode-Setter: a shallow embedding of the build scripts

  The repository holds two revisions of one batch rewriter:
  [src/build.mjs] (four menu modes) and a later revision
  [src/unnamed/part_000] (five modes, modification kits, recursive
  metadata search).  Functions that are textually identical in both
  revisions ([loadYaml], [autoIncrementSpawnCodes], [renameVehicleFiles])
  are embedded once; the functions that differ live in the modules
  [BuildMjs] and [Part000].

  Strings are modelled as [string] (8-bit characters, ASCII text).
  JavaScript plain objects are modelled with their own properties in
  creation order *and* the properties they inherit from
  [Object.prototype], because the scripts use plain objects as
  dictionaries keyed by manifest data. *)

From Stdlib Require Import Ascii.
From stdpp Require Import gmap strings pretty list.

(* ===================================================================== *)
(** ** JavaScript strings *)
(* ===================================================================== *)

Module JsString.

Definition is_digit (c : ascii) : bool :=
  let n := nat_of_ascii c in (48 <=? n)%nat && (n <=? 57)%nat.

Definition is_upper (c : ascii) : bool :=
  let n := nat_of_ascii c in (65 <=? n)%nat && (n <=? 90)%nat.

Definition lower_char (c : ascii) : ascii :=
  if is_upper c then ascii_of_nat (nat_of_ascii c + 32) else c.

(** Text made of ASCII characters only (a string is the sequence of the
    bytes of its UTF-8 form; the characters of such a text are its bytes). *)
Fixpoint is_ascii (s : string) : bool :=
  match s with
  | "" => true
  | String c r => (nat_of_ascii c <? 128)%nat && is_ascii r
  end.

(** [s.toLowerCase()] on ASCII text ([is_ascii]): the letters [A] to [Z]
    are folded and every other character stays.  On other text the
    method also folds the capitals outside ASCII, which this function
    leaves alone; statements about identifiers in general carry the
    hypothesis [is_ascii]. *)
Fixpoint toLowerCase (s : string) : string :=
  match s with
  | "" => ""
  | String c r => String (lower_char c) (toLowerCase r)
  end.

Fixpoint all_digits (s : string) : bool :=
  match s with
  | "" => true
  | String c r => is_digit c && all_digits r
  end.

(** Does the last character of [s] exist and is it a decimal digit? *)
Fixpoint ends_with_digit (s : string) : bool :=
  match s with
  | "" => false
  | String c "" => is_digit c
  | String _ r => ends_with_digit r
  end.

Fixpoint contains_char (a : ascii) (s : string) : bool :=
  match s with
  | "" => false
  | String c r => Ascii.eqb a c || contains_char a r
  end.

Fixpoint drop (n : nat) (s : string) : string :=
  match n, s with
  | O, _ => s
  | S _, "" => ""
  | S k, String _ r => drop k r
  end.

Fixpoint take (n : nat) (s : string) : string :=
  match n, s with
  | O, _ => ""
  | S _, "" => ""
  | S k, String c r => String c (take k r)
  end.

(** [s.startsWith(p)] *)
Fixpoint starts_with (p s : string) : bool :=
  match p, s with
  | "", _ => true
  | String _ _, "" => false
  | String a p', String b s' => Ascii.eqb a b && starts_with p' s'
  end.

(** [s.includes(p)] *)
Fixpoint includes (p s : string) : bool :=
  starts_with p s ||
  match s with
  | "" => false
  | String _ r => includes p r
  end.

(** [s.indexOf(p)], [None] standing for [-1]. *)
Fixpoint indexOf (p s : string) : option nat :=
  if starts_with p s then Some O
  else match s with
       | "" => None
       | String _ r => S <$> indexOf p r
       end.

(** [code.replace(/#$/, "")]: the pattern can only match a ['#'] that is
    the last character of the input, and the replacement is empty. *)
Fixpoint stripPlaceholder (s : string) : string :=
  match s with
  | "" => ""
  | String c "" => if Ascii.eqb c "#" then "" else s
  | String c r => String c (stripPlaceholder r)
  end.

(** [GetSubstitution] of ECMAScript for a string search value: there are
    no captures, so of the dollar patterns only [$$], [$&], [$`] and
    [$'] are expanded; [$n] and [$<] stay as they are. *)
Fixpoint getSubstitution (matched before after tpl : string) : string :=
  match tpl with
  | "" => ""
  | String c r =>
      if Ascii.eqb c "$" then
        match r with
        | String d r' =>
            if Ascii.eqb d "$" then
              String "$" (getSubstitution matched before after r')
            else if Ascii.eqb d "&" then
              matched +:+ getSubstitution matched before after r'
            else if Ascii.eqb d "`" then
              before +:+ getSubstitution matched before after r'
            else if Ascii.eqb d "'" then
              after +:+ getSubstitution matched before after r'
            else String c (getSubstitution matched before after r)
        | "" => String c ""
        end
      else String c (getSubstitution matched before after r)
  end.

(** [str.replaceAll(search, repl)] with a string [search]: matches are
    found left to right without overlap (the scan resumes
    [max 1 (length search)] characters after the start of a match).
    [seen] is the reversed text before the cursor and [skip] the number
    of characters of the current match still to be consumed. *)
Fixpoint replaceAll_go (search repl seen : string) (skip : nat)
    (s : string) {struct s} : string :=
  match skip with
  | S k =>
      match s with
      | "" => ""
      | String c r => replaceAll_go search repl (String c seen) k r
      end
  | O =>
      if starts_with search s then
        let sub :=
          getSubstitution search (String.rev seen)
            (drop (String.length search) s) repl in
        match s with
        | "" => sub
        | String c r =>
            match search with
            | "" => sub +:+ String c (replaceAll_go search repl (String c seen) O r)
            | String _ p =>
                sub +:+ replaceAll_go search repl (String c seen) (String.length p) r
            end
        end
      else
        match s with
        | "" => ""
        | String c r => String c (replaceAll_go search repl (String c seen) O r)
        end
  end.

Definition replaceAll (s search repl : string) : string :=
  replaceAll_go search repl "" O s.

(** The template literal [`"${x}"`]. *)
Definition dquote : ascii := "034"%char.
Definition quoted (x : string) : string := String dquote (x +:+ String dquote "").

End JsString.

(* ===================================================================== *)
(** ** JavaScript plain objects used as dictionaries *)
(* ===================================================================== *)

Module JsObject.

(** The property names a plain object ([{}], or a mapping built by the
    YAML loader) inherits from [Object.prototype] under Node.js. *)
Definition prototype_names : list string :=
  [ "constructor"; "__defineGetter__"; "__defineSetter__"; "hasOwnProperty";
    "__lookupGetter__"; "__lookupSetter__"; "isPrototypeOf";
    "propertyIsEnumerable"; "toString"; "valueOf"; "__proto__";
    "toLocaleString" ].

Definition inherited (k : string) : bool := bool_decide (k ∈ prototype_names).

(** What the expression [o[k]] finds. *)
Inductive got (V : Type) : Type :=
| Own (v : V)
| Inherited (k : string)
| Missing.
Arguments Own {V} v.
Arguments Inherited {V} k.
Arguments Missing {V}.

Definition resolve {V : Type} (own : option V) (k : string) : got V :=
  match own with
  | Some v => Own v
  | None => if inherited k then Inherited k else Missing
  end.

(** [String(o[k])] when [o[k]] is an inherited built-in: the accessor
    [__proto__] yields [Object.prototype] itself, every other name a native
    function ([constructor] is the function [Object]). *)
Definition builtin_to_string (k : string) : string :=
  if String.eqb k "__proto__" then "[object Object]"
  else "function " +:+ (if String.eqb k "constructor" then "Object" else k)
       +:+ "() { [native code] }".

(** An object whose own properties are enumerated ([Object.entries]): the
    own enumerable properties in creation order. *)
Definition obj (V : Type) : Type := list (string * V).

Fixpoint own {V : Type} (o : obj V) (k : string) : option V :=
  match o with
  | [] => None
  | (k', v) :: r => if String.eqb k' k then Some v else own r k
  end.

Definition get {V : Type} (o : obj V) (k : string) : got V :=
  resolve (own o k) k.

Fixpoint put {V : Type} (o : obj V) (k : string) (v : V) : obj V :=
  match o with
  | [] => [(k, v)]
  | (k', v') :: r =>
      if String.eqb k' k then (k', v) :: r else (k', v') :: put r k v
  end.

(** [o[k] = v] for a primitive [v]: the inherited [__proto__] setter
    ignores primitives, every other name becomes (or stays) an own
    property. *)
Definition set {V : Type} (o : obj V) (k : string) (v : V) : obj V :=
  if String.eqb k "__proto__" then
    match own o k with Some _ => put o k v | None => o end
  else put o k v.

Definition keys {V : Type} (o : obj V) : list string := o.*1.

(** The same assignment on an object that is never enumerated and starts
    as [{}], kept as a finite map of its own properties. *)
Definition assign {V : Type} (m : gmap string V) (k : string) (v : V)
    : gmap string V :=
  if String.eqb k "__proto__" then m else <[k := v]> m.

End JsObject.

(* ===================================================================== *)
(** ** The manifest and the code generator *)
(* ===================================================================== *)

(** One entry of the manifest's [vehicles] mapping. *)
Record vehicleEntry : Type := { code : string; data : string }.

(** One entry of the manifest's [data] mapping. *)
Record template : Type := { handling : string; audio : string }.

(** The manifest [build.yaml] once loaded ([buildData]). *)
Module BuildData.
Record t : Type :=
  { data : JsObject.obj template;
    vehicles : JsObject.obj vehicleEntry }.
End BuildData.

(** A counter cell of [counters]: a JavaScript number.  Counters stay far
    below 2^53 (an object cannot have that many entries), where [++] on a
    double is exact. *)
Inductive num : Type := Num (n : N) | NaN.

Module CodeGenerator.
Import JsString JsObject.

(** [!counters[base]] is false exactly for these. *)
Definition truthy (g : got num) : bool :=
  match g with
  | Own (Num n) => negb (n =? 0)%N
  | Own NaN => false
  | Inherited _ => true
  | Missing => false
  end.

(** [`${counters[base]}`] *)
Definition show (g : got num) : string :=
  match g with
  | Own (Num n) => pretty n
  | Own NaN => "NaN"
  | Inherited k => builtin_to_string k
  | Missing => "undefined"
  end.

(** The value [counters[base]++] stores. *)
Definition incremented (g : got num) : num :=
  match g with
  | Own (Num n) => Num (n + 1)
  | _ => NaN
  end.

Definition baseKey (e : vehicleEntry) : string := stripPlaceholder (code e).

(** One iteration of the loop over [Object.entries(vehicleEntries)]. *)
Definition step (st : gmap string num * obj string)
    (e : string * vehicleEntry) : gmap string num * obj string :=
  let base := baseKey e.2 in
  let counters :=
    if truthy (resolve (st.1 !! base) base) then st.1
    else assign st.1 base (Num 1) in
  let spawnCodes :=
    set st.2 e.1 (base +:+ show (resolve (counters !! base) base)) in
  (assign counters base (incremented (resolve (counters !! base) base)),
   spawnCodes).

(** [autoIncrementSpawnCodes(vehicleEntries)]; the argument lists the
    entries as [Object.entries] yields them. *)
Definition autoIncrementSpawnCodes (vehicleEntries : obj vehicleEntry)
    : obj string :=
  (fold_left step vehicleEntries (∅, [])).2.

(** The generator as the specification words it: the code of an entry is
    its base group key followed by one plus the number of earlier entries
    of the same group. *)
Definition occurrences (b : string) (earlier : list string) : nat :=
  length (filter (λ x, x = b) earlier).

Fixpoint expected_codes (earlier : list string) (m : obj vehicleEntry)
    : obj string :=
  match m with
  | [] => []
  | (vehicle, e) :: r =>
      (vehicle, baseKey e +:+ pretty (N.of_nat (S (occurrences (baseKey e) earlier))))
        :: expected_codes (baseKey e :: earlier) r
  end.

(** The manifests on which plain-object dictionaries behave as
    dictionaries: no base group key and no vehicle identifier is a name
    inherited from [Object.prototype]. *)
Definition plain_keys (m : obj vehicleEntry) : Prop :=
  Forall (λ e, inherited (baseKey e.2) = false ∧ e.1 ≠ "__proto__") m.

(** The base group keys of the entries, in manifest order. *)
Definition bases (m : obj vehicleEntry) : list string := (λ e, baseKey e.2) <$> m.

(** The codes given to the entries of group [b], in manifest order. *)
Definition group_codes (b : string) (m : obj vehicleEntry) (codes : obj string)
    : list string :=
  (filter (λ p, baseKey p.1.2 = b) (zip m codes)).*2.*2.

End CodeGenerator.

(* ===================================================================== *)
(** ** Effects: files, console, exceptions, process exit *)
(* ===================================================================== *)

(** What a thrown value carries.  The message texts are the engine's and
    the libraries'; the model records which access or call failed. *)
Record error : Type := { err_name : string; err_message : string }.

Definition TypeError (what : string) : error :=
  {| err_name := "TypeError"; err_message := what |}.

(** [String(err)] *)
Definition err_to_string (e : error) : string :=
  err_name e +:+ ": " +:+ err_message e.

Inductive level : Type := LLog | LWarn | LError.

(** The observable effects of a run, in the order they happen. *)
Inductive event : Type :=
| Console (l : level) (msg : string)
| Rename (old new : string)
| Write (path content : string).

Record world : Type :=
  { files : gmap string string;   (* path -> content *)
    trace : list event }.

Inductive result (A : Type) : Type :=
| Ret (a : A)          (* normal completion *)
| Throw (e : error)    (* an exception propagates *)
| Exit (status : nat). (* [process.exit(status)] was called *)
Arguments Ret {A} a.
Arguments Throw {A} e.
Arguments Exit {A} status.

Module Eff.

Definition M (A : Type) : Type := world → world * result A.

Definition ret {A : Type} (a : A) : M A := λ w, (w, Ret a).

Definition bind {A B : Type} (c : M A) (k : A → M B) : M B :=
  λ w, match c w with
       | (w', Ret a) => k a w'
       | (w', Throw e) => (w', Throw e)
       | (w', Exit s) => (w', Exit s)
       end.

Definition throw {A : Type} (e : error) : M A := λ w, (w, Throw e).

(** [process.exit(status)]: nothing runs afterwards, handlers included. *)
Definition exit {A : Type} (status : nat) : M A := λ w, (w, Exit status).

(** [try { c } catch (err) { h(err) }] *)
Definition try_catch {A : Type} (c : M A) (h : error → M A) : M A :=
  λ w, match c w with
       | (w', Throw e) => h e w'
       | r => r
       end.

Definition emit (e : event) : M unit :=
  λ w, ({| files := files w; trace := trace w ++ [e] |}, Ret tt).

Definition emit_all (es : list event) : M unit :=
  λ w, ({| files := files w; trace := trace w ++ es |}, Ret tt).

Definition console (l : level) (msg : string) : M unit := emit (Console l msg).

(** [fs.existsSync(path)] *)
Definition existsSync (path : string) : M bool :=
  λ w, (w, Ret (bool_decide (is_Some (files w !! path)))).

(** [fs.readFileSync(path, "utf8")] *)
Definition readFileSync (path : string) : M string :=
  λ w, match files w !! path with
       | Some c => (w, Ret c)
       | None =>
           (w, Throw {| err_name := "Error";
                        err_message := "ENOENT: no such file or directory, open '"
                                       +:+ path +:+ "'" |})
       end.

(** [fs.writeFileSync(path, content, "utf8")] *)
Definition writeFileSync (path content : string) : M unit :=
  λ w, ({| files := <[path := content]> (files w);
           trace := trace w ++ [Write path content] |}, Ret tt).

(** [fs.renameSync(old, new)] on an existing file [old], for a [new] in
    the directory of [old] that is not itself a directory (the state holds
    files only): the content moves to [new], replacing what was there;
    renaming a file to itself changes nothing.  The renamer calls it with
    two names under the stream folder; statements about the renamer carry
    the hypotheses that make these two names such paths ([plain_names],
    [resolved], [no_directory]). *)
Definition renameSync (old new : string) : M unit :=
  λ w, match files w !! old with
       | Some c =>
           ({| files := <[new := c]> (delete old (files w));
               trace := trace w ++ [Rename old new] |}, Ret tt)
       | None =>
           (w, Throw {| err_name := "Error";
                        err_message := "ENOENT: no such file or directory, rename '"
                                       +:+ old +:+ "' -> '" +:+ new +:+ "'" |})
       end.

(** A [for ... of] loop, or [forEach] with a callback that may throw. *)
Fixpoint for_each {A : Type} (body : A → M unit) (l : list A) : M unit :=
  match l with
  | [] => ret tt
  | x :: r => bind (body x) (λ _, for_each body r)
  end.

End Eff.

Declare Scope eff_scope.
Delimit Scope eff_scope with eff.
Notation "x <- c ;; k" := (Eff.bind c (λ x, k))
  (at level 20, c at level 99, k at level 200, only parsing) : eff_scope.
Notation "c ;; k" := (Eff.bind c (λ _, k))
  (at level 100, k at level 200, only parsing, right associativity) : eff_scope.

(** [path.join(folder, name)] for a [name] that is a plain file name (no
    separators, no dot segments) under an already resolved [folder]. *)
Definition path_join (folder name : string) : string :=
  folder +:+ "/" +:+ name.

(** A name without a path separator (neither [/] nor the backslash):
    [path.join] puts such a name under a resolved folder as it is. *)
Definition plain_name (s : string) : bool :=
  negb (JsString.contains_char "/" s) && negb (JsString.contains_char "092" s).

(** A folder as [path.resolve] returns it: absolute, without empty, [.]
    or [..] segments and without a separator at its end. *)
Definition resolved (folder : string) : bool :=
  JsString.starts_with "/" folder
  && negb (JsString.includes "//" (folder +:+ "/"))
  && negb (JsString.includes "/./" (folder +:+ "/"))
  && negb (JsString.includes "/../" (folder +:+ "/")).

(* ===================================================================== *)
(** ** The file renamer (identical in both revisions) *)
(* ===================================================================== *)

Module FileRenamer.
Import JsObject Eff.
Local Open Scope eff_scope.

Definition patterns : list string := [".yft"; ".ytd"; "_hi.yft"; "+hi.ytd"].

(** The body of [patterns.forEach((ext) => ...)] for one mapping entry. *)
Definition renameOne (streamFolder vehicle spawnCode ext : string) : M unit :=
  let oldFileName := path_join streamFolder (vehicle +:+ ext) in
  let newFileName := path_join streamFolder (spawnCode +:+ ext) in
  found <- existsSync oldFileName ;;
  if found then
    renameSync oldFileName newFileName ;;
    console LLog ("Renamed " +:+ oldFileName +:+ " to " +:+ newFileName)
  else
    console LWarn ("File not found: " +:+ oldFileName).

Definition renameVehicleFiles (streamFolder : string) (spawnCodes : obj string)
    : M unit :=
  console LLog "Renaming vehicle files..." ;;
  for_each (λ e : string * string,
              for_each (renameOne streamFolder e.1 e.2) patterns)
           spawnCodes.

(** The renames a trace records. *)
Definition renames (t : list event) : list (string * string) :=
  omap (λ e, match e with Rename o n => Some (o, n) | _ => None end) t.

(** Old and new file names of a mapping. *)
Definition old_names (streamFolder : string) (spawnCodes : obj string)
    : list string :=
  e ← spawnCodes; (λ ext, path_join streamFolder (e.1 +:+ ext)) <$> patterns.

Definition new_names (streamFolder : string) (spawnCodes : obj string)
    : list string :=
  e ← spawnCodes; (λ ext, path_join streamFolder (e.2 +:+ ext)) <$> patterns.

(** Every original identifier and every new code is a plain name. *)
Definition plain_names (spawnCodes : obj string) : Prop :=
  Forall (λ e, plain_name e.1 = true ∧ plain_name e.2 = true) spawnCodes.

(** No file of the state lies below [p]: [p] is not a directory. *)
Definition no_directory (w : world) (p : string) : Prop :=
  map_Forall (λ q _, JsString.starts_with (p +:+ "/") q = false) (files w).

End FileRenamer.

(* ===================================================================== *)
(** ** Documents as the XML parser returns them *)
(* ===================================================================== *)

(** A value inside a parsed document.  The parser yields [XText] (an
    element that has only text) and [XElem] (attributes under [$], text
    under [_], child elements by name, each name holding an array).  The
    rewriters can store two more kinds of value in an array slot: a
    built-in inherited from [Object.prototype] and [undefined]; the latter
    also stands for reading past the end of an array. *)
#[warnings="-register-all"]
Inductive xml : Type :=
| XText (s : string)
| XElem (attrs : option (list (string * string))) (text : option string)
        (children : list (string * list xml))
| XBuiltin (k : string)
| XUndefined.

(** The parse result: an object with the root element's name as its only
    property. *)
Record document : Type := { rootName : string; root : xml }.

(** A step of a callback that mutates its argument in place: the argument
    as the step leaves it, what it printed, and the exception that ended
    it. *)
Definition outcome (A : Type) : Type := A * list event * option error.

Module Xml.
Import JsString JsObject.

Definition undefined_read (name : string) : error :=
  TypeError ("Cannot read properties of undefined (reading '" +:+ name +:+ "')").

(** [d.NAME] *)
Definition root_field (d : document) (name : string) : option xml :=
  if String.eqb (rootName d) name then Some (root d) else None.

(** [x.NAME] for an element name: [None] is [undefined]. *)
Definition prop (x : xml) (name : string) : option (list xml) + error :=
  match x with
  | XElem _ _ ch => inl (own ch name)
  | XUndefined => inr (undefined_read name)
  | _ => inl None
  end.

(** [arr[0]] *)
Definition elem0 (arr : list xml) : xml := default XUndefined (arr !! 0%nat).

(** [arr[0] = v] *)
Definition set_elem0 (arr : list xml) (v : xml) : list xml :=
  match arr with
  | [] => [v]
  | _ :: r => v :: r
  end.

(** The property key [ToPropertyKey] makes of a value. *)
Definition key_of (x : xml) : string :=
  match x with
  | XText s => s
  | XElem _ _ _ => "[object Object]"
  | XBuiltin k => builtin_to_string k
  | XUndefined => "undefined"
  end.

(** The statement [item.NAME[0] = rhs]: the array [item.NAME] must exist
    and the right-hand side must evaluate. *)
Definition assignment (name : string) (rhs : xml + error) (item : xml)
    : xml + error :=
  match item with
  | XElem a t ch =>
      match own ch name with
      | Some arr =>
          match rhs with
          | inl v => inl (XElem a t (put ch name (set_elem0 arr v)))
          | inr e => inr e
          end
      | None => inr (TypeError "Cannot set properties of undefined (setting '0')")
      end
  | XUndefined => inr (undefined_read name)
  | _ => inr (TypeError "Cannot set properties of undefined (setting '0')")
  end.

(** Run one more statement on an item unless an earlier one threw. *)
Definition upd (st : outcome xml) (f : xml → xml + error) : outcome xml :=
  match st with
  | (item, evs, None) =>
      match f item with
      | inl item' => (item', evs, None)
      | inr e => (item, evs, Some e)
      end
  | _ => st
  end.

Definition say (st : outcome xml) (msg : string) : outcome xml :=
  match st with
  | (item, evs, None) => (item, evs ++ [Console LLog msg], None)
  | _ => st
  end.

(** [arr.forEach((x, i) => f(i, x))] from index [i], the callback mutating
    the element it is given: elements after a throwing one are not
    visited. *)
Fixpoint forEach_from {A : Type} (f : nat → A → outcome A) (i : nat)
    (l : list A) : outcome (list A) :=
  match l with
  | [] => ([], [], None)
  | x :: r =>
      match f i x with
      | (x', evs, Some e) => (x' :: r, evs, Some e)
      | (x', evs, None) =>
          match forEach_from f (S i) r with
          | (r', evs', err) => (x' :: r', evs ++ evs', err)
          end
      end
  end.

Definition forEach {A : Type} (f : A → outcome A) (l : list A)
    : outcome (list A) :=
  forEach_from (λ _, f) 0 l.

(** [x] with its child array [name] replaced. *)
Definition with_child (x : xml) (name : string) (arr : list xml) : xml :=
  match x with
  | XElem a t ch => XElem a t (put ch name arr)
  | _ => x
  end.

(** [d.ROOT.LIST[0].Item.forEach(cb)]: every link of the chain must be
    there. *)
Definition on_items (rootN listN : string) (cb : xml → outcome xml)
    (d : document) : outcome document :=
  match root_field d rootN with
  | None => (d, [], Some (undefined_read listN))
  | Some r =>
      match prop r listN with
      | inr e => (d, [], Some e)
      | inl None => (d, [], Some (undefined_read "0"))
      | inl (Some lists) =>
          match prop (elem0 lists) "Item" with
          | inr e => (d, [], Some e)
          | inl None => (d, [], Some (undefined_read "forEach"))
          | inl (Some items) =>
              match forEach cb items with
              | (items', evs, err) =>
                  ({| rootName := rootName d;
                      root := with_child r listN
                                (set_elem0 lists
                                   (with_child (elem0 lists) "Item" items')) |},
                   evs, err)
              end
          end
      end
  end.

(** [x.NAME[0]] when the array is there. *)
Definition first_of (x : xml) (name : string) : option xml :=
  match prop x name with
  | inl (Some arr) => Some (elem0 arr)
  | _ => None
  end.


End Xml.

(** The libraries the scripts call: the YAML loader and the XML parser and
    builder. *)
Class Libraries : Type :=
  { yaml_load : string → BuildData.t + error;
    (* [None] is [null], which the parser resolves to for a text that is
       empty or blank *)
    parseString : string → option document + error;
    buildObject : document → string }.

(** A metadata file found under the metadata folder whose text the
    parser made a document of (files with [null] contents are outside
    this type; the search itself is [MetaFinder.findMetaFiles]). *)
Record metaFile : Type := { path : string; contents : document }.

(* ===================================================================== *)
(** ** Code shared by the two revisions *)
(* ===================================================================== *)

Module Shared.
Import JsString JsObject Eff.
Local Open Scope eff_scope.

(** [loadYaml(filePath)]: any failure of the read or of the parse is
    reported and ends the process with status 1. *)
Definition loadYaml `{Libraries} (filePath : string) : M BuildData.t :=
  try_catch
    (console LLog ("Loading YAML file: " +:+ filePath) ;;
     content <- readFileSync filePath ;;
     console LLog "YAML file loaded successfully." ;;
     match yaml_load content with
     | inl buildData => ret buildData
     | inr e => throw e
     end)
    (λ err,
       console LError ("Failed to load YAML: " +:+ err_message err) ;;
       exit 1).

(** [autoIncrementSpawnCodes] with the two lines it prints. *)
Definition generate (vehicleEntries : obj vehicleEntry) : M (obj string) :=
  console LLog "Auto-incrementing spawn codes..." ;;
  console LLog "Spawn codes generated successfully." ;;
  ret (CodeGenerator.autoIncrementSpawnCodes vehicleEntries).

(** [if (spawnCode)] *)
Definition truthy (g : got string) : bool :=
  match g with
  | Own s => negb (String.eqb s "")
  | Inherited _ => true
  | Missing => false
  end.

(** The value of [spawnCodes[name]] as it is stored into a document. *)
Definition as_xml (g : got string) : xml :=
  match g with
  | Own s => XText s
  | Inherited k => XBuiltin k
  | Missing => XUndefined
  end.

(** [buildData[name].data], as the key it is then used as. *)
Definition dataRef_of (buildData : obj vehicleEntry) (name : string)
    : string + error :=
  match get buildData name with
  | Own e => inl (data e)
  | Inherited _ => inl "undefined"
  | Missing => inr (Xml.undefined_read "data")
  end.

(** [vehicleData[dataRef].FIELD] *)
Definition template_field (vehicleData : obj template) (dataRef : string)
    (field : template → string) (fieldName : string) : xml + error :=
  match get vehicleData dataRef with
  | Own t => inl (XText (field t))
  | Inherited _ => inl XUndefined
  | Missing => inr (Xml.undefined_read fieldName)
  end.

(** The body of [if (spawnCode) { ... }] for an item of [vehicles.meta]. *)
Definition rewriteVehicleItem (spawnCodes : obj string)
    (vehicleData : obj template) (buildData : obj vehicleEntry)
    (originalModelName : string) (item : xml) : outcome xml :=
  match dataRef_of buildData originalModelName with
  | inr e => (item, [], Some e)
  | inl dataRef =>
      let spawnCode := as_xml (get spawnCodes originalModelName) in
      Xml.say
        (foldl Xml.upd (item, [], None)
           [ Xml.assignment "modelName" (inl spawnCode);
             Xml.assignment "txdName" (inl spawnCode);
             Xml.assignment "gameName" (inl spawnCode);
             Xml.assignment "handlingId"
               (template_field vehicleData dataRef handling "handling");
             Xml.assignment "audioNameHash"
               (template_field vehicleData dataRef audio "audio") ])
        ("Updated vehicles.meta for " +:+ originalModelName)
  end.

(** The body of [if (spawnCode) { ... }] for an item of
    [carvariations.meta]. *)
Definition rewriteVariationItem (spawnCodes : obj string)
    (originalModelName : string) (item : xml) : outcome xml :=
  Xml.say
    (Xml.upd (item, [], None)
       (Xml.assignment "modelName"
          (inl (as_xml (get spawnCodes originalModelName)))))
    ("Updated carvariations.meta for " +:+ originalModelName).

End Shared.

(* ===================================================================== *)
(** ** Revision [src/unnamed/part_000] *)
(* ===================================================================== *)

Module Part000.
Import JsString JsObject Eff Shared.
Local Open Scope eff_scope.

(** What [findMetaFiles] collects. *)
Record metaData : Type :=
  { vehicles : list metaFile;
    carvariations : list metaFile;
    carcols : list metaFile }.

(** [convertToCRLF(content)] *)
Definition convertToCRLF (content : string) : string :=
  replaceAll (replaceAll content (String "010" "") (String "013" (String "010" "")))
    "&#xD;" "".

(** Line ends of a text: every line feed comes directly after a carriage
    return ([after_cr]: the character before [s] is one). *)
Fixpoint crlf_only (after_cr : bool) (s : string) : bool :=
  match s with
  | "" => true
  | String c r =>
      (if Ascii.eqb c "010" then after_cr else true)
      && crlf_only (Ascii.eqb c "013") r
  end.

(** [item.modelName[0].toLowerCase()] *)
Definition originalModelName_of (item : xml) : string + error :=
  match Xml.prop item "modelName" with
  | inr e => inr e
  | inl None => inr (Xml.undefined_read "0")
  | inl (Some arr) =>
      match Xml.elem0 arr with
      | XText s => inl (toLowerCase s)
      | XUndefined => inr (Xml.undefined_read "toLowerCase")
      | _ => inr (TypeError "item.modelName[0].toLowerCase is not a function")
      end
  end.

(** The callback of the loop over the items of a [vehicles.meta]. *)
Definition vehicleItem (spawnCodes : obj string) (vehicleData : obj template)
    (buildData : obj vehicleEntry) (item : xml) : outcome xml :=
  match originalModelName_of item with
  | inr e => (item, [], Some e)
  | inl name =>
      if truthy (get spawnCodes name)
      then rewriteVehicleItem spawnCodes vehicleData buildData name item
      else (item, [], None)
  end.

(** The callback of the loop over the items of a [carvariations.meta]. *)
Definition variationItem (spawnCodes : obj string) (item : xml) : outcome xml :=
  match originalModelName_of item with
  | inr e => (item, [], Some e)
  | inl name =>
      if truthy (get spawnCodes name)
      then rewriteVariationItem spawnCodes name item
      else (item, [], None)
  end.

Definition vehiclesDoc (spawnCodes : obj string) (vehicleData : obj template)
    (buildData : obj vehicleEntry) : document → outcome document :=
  Xml.on_items "CVehicleModelInfo__InitDataList" "InitDatas"
    (vehicleItem spawnCodes vehicleData buildData).

Definition variationsDoc (spawnCodes : obj string)
    : document → outcome document :=
  Xml.on_items "CVehicleModelInfoVariation" "variationData"
    (variationItem spawnCodes).





(** One round of a [forEach] of [updateMetaFiles]: rewrite the document in
    place, then write it back; an exception of the rewrite is not caught. *)
Definition rewriteFile `{Libraries} (rewrite : document → outcome document)
    (f : metaFile) : M unit :=
  match rewrite (contents f) with
  | (d, evs, Some e) => emit_all evs ;; throw e
  | (d, evs, None) =>
      emit_all evs ;;
      writeFileSync (path f) (convertToCRLF (buildObject d))
  end.

(** [updateMetaFiles(vehiclesArray, carvarArray, spawnCodes, vehicleData,
    buildData)] *)
Definition updateMetaFiles `{Libraries} (vehiclesArray carvarArray : list metaFile)
    (spawnCodes : obj string) (vehicleData : obj template)
    (buildData : obj vehicleEntry) : M unit :=
  for_each (rewriteFile (vehiclesDoc spawnCodes vehicleData buildData))
    vehiclesArray ;;
  for_each (rewriteFile (variationsDoc spawnCodes)) carvarArray.

(** [item.id[0]["$"].value]: the attribute object of the first [id]
    element, the other [id] elements, and the attribute (if present). *)
Definition kit_id (ids : list xml)
    : (list (string * string) * option string) + error :=
  match Xml.elem0 ids with
  | XElem (Some a) _ _ => inl (a, own a "value")
  | XUndefined => inr (Xml.undefined_read "$")
  | _ => inr (Xml.undefined_read "value")
  end.

(** [`${v}`] and [s + v] for an attribute value that may be missing. *)
Definition shown (v : option string) : string := default "undefined" v.

(** [id[0]["$"].value = v] *)
Definition set_kit_id (ids : list xml) (v : string) : list xml :=
  match ids with
  | XElem (Some a) t ch :: r => XElem (Some (put a "value" v)) t ch :: r
  | _ => ids
  end.

(** The callback of [kit.Item?.forEach((item, itemIndex) => ...)]. *)
Definition kitItem (prefix : option string) (kitIndex itemIndex : nat)
    (item : xml) : outcome xml :=
  match Xml.prop item "kitName", Xml.prop item "id" with
  | inr e, _ | _, inr e => (item, [], Some e)
  | inl (Some _), inl (Some ids) =>
      match kit_id ids with
      | inr e => (item, [], Some e)
      | inl (a, v) =>
          let new := default "" prefix +:+ shown v in
          (Xml.with_child item "id" (set_kit_id ids new),
           [ Console LLog
               ("Modifying kit ID: " +:+ shown v +:+ " (Kit "
                +:+ pretty (kitIndex + 1)%nat +:+ ", Item "
                +:+ pretty (itemIndex + 1)%nat +:+ ")");
             Console LLog ("Updated kit ID: " +:+ new) ],
           None)
      end
  | _, _ => (item, [], None)
  end.

(** The identifier value of an item the guard of the callback lets
    through: the [value] attribute of its first [id] element. *)
Definition kit_value (item : xml) : option string :=
  match Xml.prop item "kitName", Xml.prop item "id" with
  | inl (Some _), inl (Some ids) =>
      match kit_id ids with
      | inl (_, v) => v
      | inr _ => None
      end
  | _, _ => None
  end.

(** The callback of [Kits?.forEach((kit, kitIndex) => ...)]. *)
Definition kitsElement (prefix : option string) (kitIndex : nat) (kit : xml)
    : outcome xml :=
  match Xml.prop kit "Item" with
  | inr e => (kit, [], Some e)
  | inl None => (kit, [], None)
  | inl (Some items) =>
      match Xml.forEach_from (kitItem prefix kitIndex) 0 items with
      | (items', evs, err) => (Xml.with_child kit "Item" items', evs, err)
      end
  end.

(** The [try] block of [fixModkits] on one document. *)
Definition modkitsDoc (prefix : option string) (d : document) : outcome document :=
  match Xml.root_field d "CVehicleModelInfoVarGlobal" with
  | None => (d, [], None)
  | Some r =>
      match r with
      | XElem _ _ ch =>
          match own ch "Kits" with
          | None => (d, [], None)
          | Some kits =>
              match Xml.forEach_from (kitsElement prefix) 0 kits with
              | (kits', evs, err) =>
                  ({| rootName := rootName d;
                      root := Xml.with_child r "Kits" kits' |}, evs, err)
              end
          end
      | _ => (d, [], None)
      end
  end.

(** The items the two nested loops of [fixModkits] visit, in order. *)
Definition items_in (kit : xml) : list xml :=
  match Xml.prop kit "Item" with
  | inl (Some items) => items
  | _ => []
  end.

Definition kit_items (d : document) : list xml :=
  match Xml.root_field d "CVehicleModelInfoVarGlobal" with
  | Some (XElem _ _ ch) => default [] (own ch "Kits") ≫= items_in
  | _ => []
  end.

(** The [Kits] elements of a document. *)
Definition kits (d : document) : list xml :=
  match Xml.root_field d "CVehicleModelInfoVarGlobal" with
  | Some (XElem _ _ ch) => default [] (own ch "Kits")
  | _ => []
  end.

(** An item that has [kitName] and [id] but whose first [id] element has
    no attributes (it is text, or an element without any): the read of
    its [value] fails. *)
Definition malformed (item : xml) : bool :=
  match item with
  | XElem _ _ ch =>
      match own ch "kitName", own ch "id" with
      | Some _, Some (XElem (Some _) _ _ :: _) => false
      | Some _, Some (XUndefined :: _) => false
      | Some _, Some [] => false
      | Some _, Some _ => true
      | _, _ => false
      end
  | _ => false
  end.

(** One round of the [forEach] of [fixModkits]: the document is mutated in
    place, so what the [try] block did before an exception is still there
    when the document is written after the [catch]. *)
Definition fixModkitsFile `{Libraries} (prefix : option string) (f : metaFile)
    : M unit :=
  console LLog ("Processing file: " +:+ path f) ;;
  match modkitsDoc prefix (contents f) with
  | (d, evs, err) =>
      emit_all evs ;;
      match err with
      | Some e =>
          console LLog ("Error processing file: " +:+ path f) ;;
          console LError (err_to_string e)
      | None => ret tt
      end ;;
      console LLog ("Writing updated file: " +:+ path f) ;;
      writeFileSync (path f) (convertToCRLF (buildObject d)) ;;
      console LLog ("Successfully wrote updated file: " +:+ path f)
  end.

(** [fixModkits(carcolArray, prefix)] *)
Definition fixModkits `{Libraries} (carcolArray : list metaFile)
    (prefix : option string) : M unit :=
  for_each (fixModkitsFile prefix) carcolArray.

(** The text [updateUlcFile] writes back. *)
Definition rewriteUlc (ulcContent : string) (spawnCodes : obj string) : string :=
  fold_left (λ content e, replaceAll content (quoted e.1) (quoted e.2))
    spawnCodes ulcContent.

(** [updateUlcFile(ulcFilePath, spawnCodes)] *)
Definition updateUlcFile (ulcFilePath : string) (spawnCodes : obj string)
    : M unit :=
  console LLog "Updating ULC script..." ;;
  found <- existsSync ulcFilePath ;;
  if found then
    ulcContent <- readFileSync ulcFilePath ;;
    for_each (λ e : string * string,
                console LLog ("Replaced " +:+ e.1 +:+ " with " +:+ e.2))
             spawnCodes ;;
    writeFileSync ulcFilePath (rewriteUlc ulcContent spawnCodes) ;;
    console LLog "ULC script updated successfully."
  else
    console LWarn ("ULC file not found: " +:+ ulcFilePath).

(** What a run is given from outside: the working directory, the answers
    to the two prompts, and the outcome of [findMetaFiles] (the directory
    walk and the parsing it does are not modelled). *)
Record session : Type :=
  { cwd : string;
    updateChoice : string;
    selectedPrefix : string;
    findMetaFiles : metaData + error }.

Definition buildYamlPath (s : session) : string := path_join (cwd s) "build.yaml".
Definition streamFolder (s : session) : string := path_join (cwd s) "build/stream".
Definition ulcFilePath (s : session) : string := path_join (cwd s) "build/ulc.lua".

(** [main()] *)
Definition main `{Libraries} (s : session) : M unit :=
  buildData <- loadYaml (buildYamlPath s) ;;
  metaData <- match findMetaFiles s with
              | inl m => ret m
              | inr e => throw e
              end ;;
  let vehicleData := BuildData.data buildData in
  let vehicleEntries := BuildData.vehicles buildData in
  spawnCodes <- generate vehicleEntries ;;
  (if String.eqb (updateChoice s) "Update everything" then
     FileRenamer.renameVehicleFiles (streamFolder s) spawnCodes ;;
     updateMetaFiles (vehicles metaData) (carvariations metaData) spawnCodes
       vehicleData vehicleEntries ;;
     updateUlcFile (ulcFilePath s) spawnCodes ;;
     fixModkits (carcols metaData) (Some (selectedPrefix s))
   else if String.eqb (updateChoice s) "Update only spawn codes" then
     FileRenamer.renameVehicleFiles (streamFolder s) spawnCodes
   else if String.eqb (updateChoice s) "Update only meta files" then
     updateMetaFiles (vehicles metaData) (carvariations metaData) spawnCodes
       vehicleData vehicleEntries
   else if String.eqb (updateChoice s) "Update only ULC" then
     updateUlcFile (ulcFilePath s) spawnCodes
   else if String.eqb (updateChoice s) "Update only modkits" then
     fixModkits (carcols metaData) (Some (selectedPrefix s))
   else
     console LLog "Invalid choice!") ;;
  console LLog "Processing completed successfully.".

(** [main().catch((err) => console.error(...))] and the end of the
    process: the final trace and files, and the exit status. *)
Definition run `{Libraries} (s : session) (w : world) : world * nat :=
  match main s w with
  | (w', Ret _) => (w', 0%nat)
  | (w', Throw err) =>
      ((console LError ("Error: " +:+ err_message err) w').1, 0%nat)
  | (w', Exit status) => (w', status)
  end.

End Part000.

(* ===================================================================== *)
(** ** Revision [src/build.mjs] *)
(* ===================================================================== *)

Module BuildMjs.
Import JsString JsObject Eff Shared.
Local Open Scope eff_scope.

(** The callback of the loop over the items of [vehicles.meta]: the
    identifier is looked up as it stands. *)
Definition vehicleItem (spawnCodes : obj string) (vehicleData : obj template)
    (buildData : obj vehicleEntry) (item : xml) : outcome xml :=
  match Xml.prop item "modelName" with
  | inr e => (item, [], Some e)
  | inl None => (item, [], Some (Xml.undefined_read "0"))
  | inl (Some arr) =>
      let name := Xml.key_of (Xml.elem0 arr) in
      if truthy (get spawnCodes name)
      then rewriteVehicleItem spawnCodes vehicleData buildData name item
      else (item, [], None)
  end.

(** The callback of the loop over the items of [carvariations.meta]. *)
Definition variationItem (spawnCodes : obj string) (item : xml) : outcome xml :=
  match Xml.prop item "modelName" with
  | inr e => (item, [], Some e)
  | inl None => (item, [], Some (Xml.undefined_read "0"))
  | inl (Some arr) =>
      let name := Xml.key_of (Xml.elem0 arr) in
      if truthy (get spawnCodes name)
      then rewriteVariationItem spawnCodes name item
      else (item, [], None)
  end.

(** What is done to the parsed content of one of the two metadata
    files. *)
Definition rewriteDoc (file : string) (spawnCodes : obj string)
    (vehicleData : obj template) (buildData : obj vehicleEntry)
    (d : document) : outcome document :=
  if String.eqb file "vehicles.meta" then
    Xml.on_items "CVehicleModelInfo__InitDataList" "InitDatas"
      (vehicleItem spawnCodes vehicleData buildData) d
  else if String.eqb file "carvariations.meta" then
    Xml.on_items "CVehicleModelInfoVariation" "variationData"
      (variationItem spawnCodes) d
  else (d, [], None).

(** What is thrown when the parser resolved to [null]: the read of the
    root field for the two known files, and the builder's read of the
    object's keys for any other. *)
Definition null_document (file : string) : error :=
  if String.eqb file "vehicles.meta" then
    TypeError "Cannot read properties of null (reading 'CVehicleModelInfo__InitDataList')"
  else if String.eqb file "carvariations.meta" then
    TypeError "Cannot read properties of null (reading 'CVehicleModelInfoVariation')"
  else TypeError "Cannot convert undefined or null to object".

(** One round of the loop over [metaFiles]. *)
Definition updateMetaFile `{Libraries} (metaFolder : string)
    (spawnCodes : obj string) (vehicleData : obj template)
    (buildData : obj vehicleEntry) (file : string) : M unit :=
  let filePath := path_join metaFolder file in
  found <- existsSync filePath ;;
  if found then
    content <- readFileSync filePath ;;
    match parseString content with
    | inr e => throw e
    | inl None => throw (null_document file)
    | inl (Some parsedXml) =>
        match rewriteDoc file spawnCodes vehicleData buildData parsedXml with
        | (d, evs, Some e) => emit_all evs ;; throw e
        | (d, evs, None) =>
            emit_all evs ;;
            writeFileSync filePath (buildObject d) ;;
            console LLog ("Updated " +:+ file)
        end
    end
  else
    console LWarn ("Metadata file not found: " +:+ file).

(** [updateMetaFiles(metaFolder, spawnCodes, vehicleData, buildData)] *)
Definition updateMetaFiles `{Libraries} (metaFolder : string)
    (spawnCodes : obj string) (vehicleData : obj template)
    (buildData : obj vehicleEntry) : M unit :=
  console LLog "Updating metadata files..." ;;
  for_each (updateMetaFile metaFolder spawnCodes vehicleData buildData)
    ["vehicles.meta"; "carvariations.meta"].

(** The text [updateUlcFile] writes back: the bare identifier is the
    search value. *)
Definition rewriteUlc (ulcContent : string) (spawnCodes : obj string) : string :=
  fold_left (λ content e, replaceAll content e.1 e.2) spawnCodes ulcContent.

(** [updateUlcFile(ulcFilePath, spawnCodes)] *)
Definition updateUlcFile (ulcFilePath : string) (spawnCodes : obj string)
    : M unit :=
  console LLog "Updating ULC script..." ;;
  found <- existsSync ulcFilePath ;;
  if found then
    ulcContent <- readFileSync ulcFilePath ;;
    for_each (λ e : string * string,
                console LLog ("Replaced " +:+ e.1 +:+ " with " +:+ e.2))
             spawnCodes ;;
    writeFileSync ulcFilePath (rewriteUlc ulcContent spawnCodes) ;;
    console LLog "ULC script updated successfully."
  else
    console LWarn ("ULC file not found: " +:+ ulcFilePath).

(** What a run is given from outside. *)
Record session : Type := { cwd : string; updateChoice : string }.

(** [main()] *)
Definition main `{Libraries} (s : session) : M unit :=
  buildData <- loadYaml (path_join (cwd s) "build.yaml") ;;
  let streamFolder := path_join (cwd s) "build/stream" in
  let metaFolder := path_join (cwd s) "build/meta" in
  let ulcFilePath := path_join (cwd s) "build/ulc.lua" in
  let vehicleData := BuildData.data buildData in
  let vehicleEntries := BuildData.vehicles buildData in
  spawnCodes <- generate vehicleEntries ;;
  (if String.eqb (updateChoice s) "Update everything" then
     FileRenamer.renameVehicleFiles streamFolder spawnCodes ;;
     updateMetaFiles metaFolder spawnCodes vehicleData vehicleEntries ;;
     updateUlcFile ulcFilePath spawnCodes
   else if String.eqb (updateChoice s) "Update only spawn codes" then
     FileRenamer.renameVehicleFiles streamFolder spawnCodes
   else if String.eqb (updateChoice s) "Update only meta files" then
     updateMetaFiles metaFolder spawnCodes vehicleData vehicleEntries
   else if String.eqb (updateChoice s) "Update only ULC" then
     updateUlcFile ulcFilePath spawnCodes
   else
     console LLog "Invalid choice!") ;;
  console LLog "Processing completed successfully.".

(** [main().catch((err) => console.error(...))] and the end of the
    process. *)
Definition run `{Libraries} (s : session) (w : world) : world * nat :=
  match main s w with
  | (w', Ret _) => (w', 0%nat)
  | (w', Throw err) =>
      ((console LError ("Error: " +:+ err_message err) w').1, 0%nat)
  | (w', Exit status) => (w', status)
  end.

End BuildMjs.

(* ===================================================================== *)
(** ** The search for metadata files ([src/unnamed/part_000]) *)
(* ===================================================================== *)

(** A folder as [readdirSync] and [lstatSync] show it: the entries of a
    directory in the order [readdirSync] lists them, an entry being a
    directory or anything else, which is read as a file. *)
Inductive dirent : Type :=
| File (name content : string)
| Dir (name : string) (entries : list dirent).

Module MetaFinder.

(** An element of the arrays [findMetaFiles] returns; [contents] is
    [None] for [null], which [parseXmlFile] returns for a file that is
    blank and for a file that does not parse. *)
Record found : Type := { path : string; contents : option document }.

(** The object [findMetaFiles] returns. *)
Record collected : Type :=
  { vehicles : list found;
    carvariations : list found;
    carcols : list found }.

Definition nothing : collected :=
  {| vehicles := []; carvariations := []; carcols := [] |}.

(** [[...a, ...b]] on each of the three arrays. *)
Definition merge (a b : collected) : collected :=
  {| vehicles := vehicles a ++ vehicles b;
     carvariations := carvariations a ++ carvariations b;
     carcols := carcols a ++ carcols b |}.

(** [parseXmlFile(filePath)] on a file that holds [xmlData] (a listed file
    can be read): what the parser resolved to, a document or [null], or
    [null] after a line on the error stream when the parser failed (the
    line goes on with the engine's rendering of the error, which is left
    out). *)
Definition parseXmlFile `{Libraries} (filePath xmlData : string)
    : option document * list event :=
  match parseString xmlData with
  | inl result => (result, [])
  | inr err =>
      (None, [Console LError ("Error parsing XML in file " +:+ filePath +:+ ":")])
  end.

(** The loop [for (let file of files)] with the arrays collected so far
    and the lines printed so far. *)
Definition loop (visit : dirent → collected * list event)
    : collected * list event → list dirent → collected * list event :=
  fix go acc files :=
    match files with
    | [] => acc
    | file :: rest =>
        let (c, evs) := visit file in
        go (merge acc.1 c, acc.2 ++ evs) rest
    end.

(** The body of the loop for one entry of [folder]. *)
Fixpoint visit `{Libraries} (folder : string) (file : dirent)
    : collected * list event :=
  match file with
  | Dir name entries =>
      loop (visit (path_join folder name)) (nothing, []) entries
  | File name xmlData =>
      let filePath := path_join folder name in
      if String.eqb name "vehicles.meta" then
        let (vehicleData, evs) := parseXmlFile filePath xmlData in
        ({| vehicles := [{| path := filePath; contents := vehicleData |}];
            carvariations := []; carcols := [] |}, evs)
      else if String.eqb name "carvariations.meta" then
        let (carvarData, evs) := parseXmlFile filePath xmlData in
        ({| vehicles := [];
            carvariations := [{| path := filePath; contents := carvarData |}];
            carcols := [] |}, evs)
      else if String.eqb name "carcols.meta" then
        let (carcolData, evs) := parseXmlFile filePath xmlData in
        ({| vehicles := []; carvariations := [];
            carcols := [{| path := filePath; contents := carcolData |}] |}, evs)
      else (nothing, [])
  end.

(** [findMetaFiles(folder)] on a folder with the given entries: the three
    arrays and what was printed. *)
Definition findMetaFiles `{Libraries} (folder : string) (entries : list dirent)
    : collected * list event :=
  loop (visit folder) (nothing, []) entries.

(** The files below a folder, at any depth, in the order the search meets
    them: path, name and text of each. *)
Fixpoint files_under (folder : string) (file : dirent)
    : list (string * string * string) :=
  match file with
  | Dir name entries => entries ≫= files_under (path_join folder name)
  | File name xmlData => [(path_join folder name, name, xmlData)]
  end.

(** The element the search makes of a file. *)
Definition entry_of `{Libraries} (f : string * string * string) : found :=
  {| path := f.1.1; contents := (parseXmlFile f.1.1 f.2).1 |}.

(** The arrays as [updateMetaFiles] and [fixModkits] are given them, when
    every file parsed. *)
Definition parsed (l : list found) : option (list metaFile) :=
  mapM (λ f, d ← contents f; Some (Build_metaFile (path f) d)) l.

End MetaFinder.

(* ===================================================================== *)
(** ** Vocabulary for statements about runs *)
(* ===================================================================== *)

Module Run.
Import JsString Eff.

(** Every event a computation adds to the trace satisfies [P], however
    the computation ends. *)
Definition emits {A : Type} (P : event → Prop) (c : M A) : Prop :=
  ∀ w w' r, c w = (w', r) → ∃ evs, trace w' = trace w ++ evs ∧ Forall P evs.

(** The computation ends normally or by an exception, never by
    [process.exit]. *)
Definition no_exit {A : Type} (c : M A) : Prop :=
  ∀ w w' status, c w ≠ (w', Exit status).

(** The computation always ends normally. *)
Definition returns {A : Type} (c : M A) : Prop :=
  ∀ w, ∃ w' a, c w = (w', Ret a).

(** The last line of a complete run. *)
Definition completion : event :=
  Console LLog "Processing completed successfully.".

(** [m] begins with one of [prefixes]. *)
Definition said (prefixes : list string) (m : string) : bool :=
  existsb (λ p, starts_with p m) prefixes.

Definition is_rename (e : event) : bool :=
  match e with Rename _ _ => true | _ => false end.

Definition is_write (e : event) : bool :=
  match e with Write _ _ => true | _ => false end.

(** The paths a trace records a write to, in order. *)
Definition written (t : list event) : list string :=
  omap (λ e, match e with Write p _ => Some p | _ => None end) t.

(** An event of a step that renames nothing and writes only to the given
    paths. *)
Definition only (paths : list string) (e : event) : Prop :=
  is_rename e = false ∧ ∀ p c, e = Write p c → p ∈ paths.

(** The events each step of a run can add to the trace. *)
Definition load_event (e : event) : bool :=
  match e with
  | Console LLog m =>
      said ["Loading YAML file: "; "YAML file loaded successfully."] m
  | Console LError m => said ["Failed to load YAML: "] m
  | _ => false
  end.

Definition generate_event (e : event) : bool :=
  match e with
  | Console LLog m =>
      said ["Auto-incrementing spawn codes...";
            "Spawn codes generated successfully."] m
  | _ => false
  end.

Definition rename_event (e : event) : bool :=
  match e with
  | Rename _ _ => true
  | Console LLog m => said ["Renaming vehicle files..."; "Renamed "] m
  | Console LWarn m => said ["File not found: "] m
  | _ => false
  end.

Definition meta_event (e : event) : bool :=
  match e with
  | Write _ _ => true
  | Console LLog m =>
      said ["Updated vehicles.meta for "; "Updated carvariations.meta for "] m
  | _ => false
  end.

Definition ulc_event (e : event) : bool :=
  match e with
  | Write _ _ => true
  | Console LLog m =>
      said ["Updating ULC script..."; "Replaced ";
            "ULC script updated successfully."] m
  | Console LWarn m => said ["ULC file not found: "] m
  | _ => false
  end.

Definition modkit_event (e : event) : bool :=
  match e with
  | Write _ _ => true
  | Console LLog m =>
      said ["Processing file: "; "Modifying kit ID: "; "Updated kit ID: ";
            "Error processing file: "; "Writing updated file: ";
            "Successfully wrote updated file: "] m
  | Console LError _ => true
  | _ => false
  end.

(** Any event of a run before its last line. *)
Definition main_event (e : event) : bool :=
  load_event e || generate_event e || rename_event e || meta_event e
  || ulc_event e || modkit_event e
  || match e with
     | Console LLog m => String.eqb m "Invalid choice!"
     | _ => false
     end.

(** The computation never exits; when it ends normally the completion line
    is the last thing it adds to the trace; and every other event it adds
    satisfies [P]. *)
Definition finishes (P : event → Prop) (c : M unit) : Prop :=
  ∀ w w' r, c w = (w', r) →
    match r with
    | Ret _ => ∃ evs, trace w' = (trace w ++ evs) ++ [completion] ∧ Forall P evs
    | Throw _ => ∃ evs, trace w' = trace w ++ evs ∧ Forall P evs
    | Exit _ => False
    end.

End Run.

(* ===================================================================== *)
(** ** Sample data for the examples *)
(* ===================================================================== *)

Module Sample.

(** Stand-ins for the libraries: a loader that accepts only one manifest
    text, a parser that accepts nothing, a builder that prints the root
    element's name and the number of its children. *)
Definition buildData : BuildData.t :=
  {| BuildData.data := [("sedan", {| handling := "SEDAN"; audio := "SEDAN_AUDIO" |})];
     BuildData.vehicles := [("oldcar", {| code := "ABC#"; data := "sedan" |})] |}.

Definition libraries : Libraries :=
  {| yaml_load := λ content,
       if String.eqb content "manifest" then inl buildData
       else inr {| err_name := "YAMLException"; err_message := "bad manifest" |};
     parseString := λ _,
       inr {| err_name := "Error"; err_message := "not well-formed" |};
     buildObject := λ d,
       match root d with
       | XElem _ _ ch => "<" +:+ rootName d +:+ " children=" +:+ pretty (length ch) +:+ "/>"
       | _ => "<" +:+ rootName d +:+ "/>"
       end |}.

(** A builder that writes a document out in full. *)
Fixpoint render (name : string) (x : xml) : string :=
  match x with
  | XText s => "<" +:+ name +:+ ">" +:+ s +:+ "</" +:+ name +:+ ">"
  | XElem attrs text children =>
      "<" +:+ name
      +:+ foldr (λ a r, " " +:+ a.1 +:+ "='" +:+ a.2 +:+ "'" +:+ r) ""
            (default [] attrs)
      +:+ ">" +:+ default "" text
      +:+ (fix each (l : list (string * list xml)) : string :=
             match l with
             | [] => ""
             | (n, arr) :: r =>
                 (fix all (a : list xml) : string :=
                    match a with
                    | [] => ""
                    | y :: a' => render n y +:+ all a'
                    end) arr
                 +:+ each r
             end) children
      +:+ "</" +:+ name +:+ ">"
  | XBuiltin k => "<" +:+ name +:+ ">" +:+ JsObject.builtin_to_string k
                  +:+ "</" +:+ name +:+ ">"
  | XUndefined => "<" +:+ name +:+ "/>"
  end.

Definition printer : Libraries :=
  {| yaml_load := @yaml_load libraries;
     parseString := @parseString libraries;
     buildObject := λ d, render (rootName d) (root d) |}.

(** A kit item [<Item><kitName>..</kitName><id value=".."/></Item>]. *)
Definition kit (name id : string) : xml :=
  XElem None None
    [("kitName", [XText name]); ("id", [XElem (Some [("value", id)]) None []])].

(** A kit item whose [id] element carries text instead of the [value]
    attribute: [<Item><kitName>..</kitName><id>..</id></Item>]. *)
Definition malformed_kit (name id : string) : xml :=
  XElem None None [("kitName", [XText name]); ("id", [XText id])].

(** A [carcols.meta] with one [Kits] element holding [items]. *)
Definition carcols (items : list xml) : document :=
  {| rootName := "CVehicleModelInfoVarGlobal";
     root := XElem None None [("Kits", [XElem None None [("Item", items)]])] |}.

(** An item of [vehicles.meta]. *)
Definition vehicle (name : string) : xml :=
  XElem None None
    [("modelName", [XText name]); ("txdName", [XText name]);
     ("handlingId", [XText "HANDLING"]); ("gameName", [XText name]);
     ("audioNameHash", [XText "AUDIO"])].

(** A [vehicles.meta] holding [items]. *)
Definition vehicles (items : list xml) : document :=
  {| rootName := "CVehicleModelInfo__InitDataList";
     root := XElem None None [("InitDatas", [XElem None None [("Item", items)]])] |}.


(** A [vehicles.meta] whose root element has no [InitDatas] child. *)
Definition broken_vehicles : document :=
  {| rootName := "CVehicleModelInfo__InitDataList"; root := XText "" |}.



(** A working directory with a manifest the loader accepts. *)
Definition world : world :=
  {| files := {[ "/mod/build.yaml" := "manifest" ]}; trace := [] |}.

(** A run of the later revision in mode [choice] that finds the given
    metadata files. *)
Definition session (choice : string) (found : Part000.metaData)
    : Part000.session :=
  {| Part000.cwd := "/mod";
     Part000.updateChoice := choice;
     Part000.selectedPrefix := "3";
     Part000.findMetaFiles := inl found |}.

End Sample.


(* ===================================================================== *)
(** * Properties *)
(* ===================================================================== *)

Set Warnings "-clear-no-such-hyp".

Import JsString JsObject.

(* ===================================================================== *)
(** ** Plain objects *)
(* ===================================================================== *)

Section Objects.
Context {V : Type}.
Implicit Types (o : obj V) (k : string) (v : V).

Lemma own_put_same o k v : own (put o k v) k = Some v.
Proof.
  induction o as [|[k' v'] o IH]; simpl.
  - by rewrite String.eqb_refl.
  - destruct (String.eqb k' k) eqn:E; simpl; rewrite E; auto.
Qed.

Lemma own_put_other o k k' v :
  k ≠ k' → own (put o k v) k' = own o k'.
Proof.
  intros Hne. induction o as [|[k0 v0] o IH]; simpl.
  - destruct (String.eqb_spec k k'); congruence.
  - destruct (String.eqb_spec k0 k) as [->|]; simpl.
    + destruct (String.eqb_spec k k'); congruence.
    + destruct (String.eqb_spec k0 k'); auto.
Qed.

Lemma own_None_keys o k : own o k = None ↔ k ∉ keys o.
Proof.
  unfold keys. induction o as [|[k' v'] o IH]; simpl.
  - split; [intros _; apply not_elem_of_nil | done].
  - destruct (String.eqb_spec k' k) as [->|Hne].
    + split; [done | intros H; exfalso; apply H; left].
    + rewrite IH, not_elem_of_cons. split; [done | by intros [_ ?]].
Qed.

Lemma put_fresh o k v : own o k = None → put o k v = o ++ [(k, v)].
Proof.
  induction o as [|[k' v'] o IH]; simpl; [done|].
  destruct (String.eqb k' k); [done|]. intros H. by rewrite IH.
Qed.

End Objects.

(* ===================================================================== *)
(** ** The code generator *)
(* ===================================================================== *)

Import CodeGenerator.

Lemma inherited_proto k : inherited k = false → String.eqb k "__proto__" = false.
Proof.
  intros H. destruct (String.eqb_spec k "__proto__") as [->|]; [|done].
  by vm_compute in H.
Qed.

Lemma occurrences_cons_same b earlier :
  occurrences b (b :: earlier) = S (occurrences b earlier).
Proof. unfold occurrences. by rewrite filter_cons_True. Qed.

Lemma occurrences_cons_other b b' earlier :
  b' ≠ b → occurrences b (b' :: earlier) = occurrences b earlier.
Proof. intros. unfold occurrences. by rewrite filter_cons_False. Qed.

(** One iteration on an entry with ordinary keys. *)
Lemma step_plain (counters : gmap string num) (acc : obj string)
    (earlier : list string) (e : string * vehicleEntry) :
  (∀ b, inherited b = false →
        counters !! b =
          if decide (occurrences b earlier = 0) then None
          else Some (Num (N.of_nat (S (occurrences b earlier))))) →
  inherited (baseKey e.2) = false →
  e.1 ≠ "__proto__" →
  own acc e.1 = None →
  ∃ counters',
    step (counters, acc) e =
      (counters',
       acc ++ [(e.1, baseKey e.2 +:+
                     pretty (N.of_nat (S (occurrences (baseKey e.2) earlier))))])
    ∧ ∀ b, inherited b = false →
           counters' !! b =
             if decide (occurrences b (baseKey e.2 :: earlier) = 0) then None
             else Some (Num (N.of_nat (S (occurrences b (baseKey e.2 :: earlier))))).
Proof.
  intros Hinv Hb Hv Hfresh.
  set (b := baseKey e.2) in *.
  assert (Hproto : String.eqb b "__proto__" = false) by by apply inherited_proto.
  assert (Hv' : String.eqb e.1 "__proto__" = false)
    by (by apply String.eqb_neq).
  unfold step; simpl. fold b.
  unfold assign, set, resolve. rewrite Hproto, Hv'.
  rewrite (Hinv b Hb).
  destruct (decide (occurrences b earlier = 0)) as [Hz|Hnz].
  - rewrite Hb. simpl. rewrite lookup_insert_eq. simpl.
    rewrite Hz, put_fresh by done.
    eexists; split; [reflexivity|].
    intros b' Hb'. destruct (decide (b' = b)) as [->|Hne].
    + rewrite lookup_insert_eq, occurrences_cons_same, Hz. by rewrite decide_False by lia.
    + rewrite !lookup_insert_ne by done.
      rewrite occurrences_cons_other by done. by apply Hinv.
  - simpl.
    replace (N.of_nat (S (occurrences b earlier)) =? 0)%N with false
      by (symmetry; apply N.eqb_neq; lia).
    simpl. rewrite (Hinv b Hb), decide_False by done. simpl.
    rewrite put_fresh by done.
    eexists; split; [reflexivity|].
    intros b' Hb'. destruct (decide (b' = b)) as [->|Hne].
    + rewrite lookup_insert_eq, occurrences_cons_same.
      rewrite decide_False by lia. do 2 f_equal. lia.
    + rewrite lookup_insert_ne by done.
      rewrite occurrences_cons_other by done. by apply Hinv.
Qed.

Lemma fold_step_plain (m : obj vehicleEntry) :
  ∀ (counters : gmap string num) (acc : obj string) (earlier : list string),
    (∀ b, inherited b = false →
          counters !! b =
            if decide (occurrences b earlier = 0) then None
            else Some (Num (N.of_nat (S (occurrences b earlier))))) →
    plain_keys m →
    NoDup (keys acc ++ keys m) →
    (fold_left step m (counters, acc)).2 = acc ++ expected_codes earlier m.
Proof.
  induction m as [|[vehicle e] m IH]; intros counters acc earlier Hinv Hplain Hnd.
  - simpl. by rewrite app_nil_r.
  - apply Forall_cons in Hplain as [[Hb Hv] Hplain]. simpl in Hb, Hv.
    assert (Hfresh : own acc vehicle = None).
    { apply own_None_keys. intros Hin.
      apply NoDup_app in Hnd as (_ & Hdisj & _).
      apply (Hdisj _ Hin). unfold keys. simpl. left. }
    destruct (step_plain counters acc earlier (vehicle, e) Hinv Hb Hv Hfresh)
      as (counters' & Hstep & Hinv').
    simpl in Hstep, Hinv'. cbn [fold_left]. rewrite Hstep.
    rewrite (IH counters' _ (baseKey e :: earlier) Hinv' Hplain).
    + by rewrite <- app_assoc.
    + unfold keys in *. rewrite fmap_app. simpl.
      by rewrite <- app_assoc.
Qed.

Lemma autoIncrement_expected (m : obj vehicleEntry) :
  NoDup (keys m) → plain_keys m →
  autoIncrementSpawnCodes m = expected_codes [] m.
Proof.
  intros Hnd Hplain. unfold autoIncrementSpawnCodes.
  rewrite (fold_step_plain m ∅ [] []); try done.
Qed.

Lemma expected_codes_keys earlier (m : obj vehicleEntry) :
  keys (expected_codes earlier m) = keys m.
Proof.
  revert earlier. unfold keys.
  induction m as [|[v e] m IH]; intros earlier; simpl; [done|]. by rewrite IH.
Qed.

Lemma expected_codes_length earlier (m : obj vehicleEntry) :
  length (expected_codes earlier m) = length m.
Proof.
  revert earlier. induction m as [|[v e] m IH]; intros earlier; simpl; [done|].
  by rewrite IH.
Qed.

(** Decimal numerals. *)
Lemma pretty_N_char_digit x : is_digit (pretty_N_char x) = true.
Proof. unfold pretty_N_char. by repeat case_match. Qed.

Lemma pretty_N_go_digits x : ∀ s, all_digits s = true → all_digits (pretty_N_go x s) = true.
Proof.
  induction (N.lt_wf_0 x) as [x _ IH]; intros s Hs.
  destruct (decide (x = 0)%N) as [->|Hx]; [by rewrite pretty_N_go_0|].
  rewrite pretty_N_go_step by lia.
  apply IH; [apply N.div_lt; lia|].
  simpl. by rewrite pretty_N_char_digit.
Qed.

Lemma pretty_N_digits (n : N) : all_digits (pretty n) = true.
Proof.
  unfold pretty, pretty_N. case_decide; [done|]. by apply pretty_N_go_digits.
Qed.

Lemma all_digits_app_l a b : all_digits (a +:+ b) = true → all_digits a = true.
Proof.
  induction a as [|c a IH]; simpl; [done|].
  intros [-> H]%andb_prop. simpl. auto.
Qed.

Lemma all_digits_ends a : a ≠ "" → all_digits a = true → ends_with_digit a = true.
Proof.
  induction a as [|c a IH]; [done|]. intros _. simpl.
  intros [Hc Ha]%andb_prop. destruct a as [|c' a]; [done|].
  apply IH; [done|exact Ha].
Qed.

Lemma ends_with_digit_tail c a :
  ends_with_digit (String c a) = false → ends_with_digit a = false.
Proof. destruct a; [done|]. by simpl. Qed.

(** A code splits in one way only into a base that does not end in a
    digit and a numeral. *)
Lemma code_split_unique b1 : ∀ b2 d1 d2,
  ends_with_digit b1 = false → ends_with_digit b2 = false →
  all_digits d1 = true → all_digits d2 = true →
  b1 +:+ d1 = b2 +:+ d2 → b1 = b2 ∧ d1 = d2.
Proof.
  induction b1 as [|c b1 IH]; intros b2 d1 d2 H1 H2 Hd1 Hd2 Heq.
  - destruct b2 as [|c2 b2]; [done|].
    change (d1 = String c2 b2 +:+ d2) in Heq. subst d1.
    apply (all_digits_app_l (String c2 b2)) in Hd1.
    apply all_digits_ends in Hd1; [congruence|done].
  - destruct b2 as [|c2 b2].
    + change (String c b1 +:+ d1 = d2) in Heq. subst d2.
      apply (all_digits_app_l (String c b1)) in Hd2.
      apply all_digits_ends in Hd2; [congruence|done].
    + change (String c (b1 +:+ d1) = String c2 (b2 +:+ d2)) in Heq.
      injection Heq as -> Heq.
      apply ends_with_digit_tail in H1, H2.
      destruct (IH b2 d1 d2 H1 H2 Hd1 Hd2 Heq) as [-> ->]. done.
Qed.


Lemma expected_codes_form earlier (m : obj vehicleEntry) c :
  c ∈ (expected_codes earlier m).*2 →
  ∃ b n, c = b +:+ pretty (N.of_nat n) ∧ b ∈ bases m ∧ occurrences b earlier < n.
Proof.
  revert earlier. induction m as [|[v e] m IH]; intros earlier; simpl.
  - by intros ?%elem_of_nil.
  - intros [->|Hin]%elem_of_cons.
    + exists (baseKey e), (S (occurrences (baseKey e) earlier)).
      split_and!; [done| by left | lia].
    + destruct (IH _ Hin) as (b & n & -> & Hb & Hn).
      exists b, n. split_and!; [done | by right |].
      destruct (decide (baseKey e = b)) as [Heq|Hne].
      * rewrite Heq, occurrences_cons_same in Hn. lia.
      * by rewrite occurrences_cons_other in Hn.
Qed.

Lemma expected_codes_NoDup earlier (m : obj vehicleEntry) :
  Forall (λ e, ends_with_digit (baseKey e.2) = false) m →
  NoDup (expected_codes earlier m).*2.
Proof.
  revert earlier. induction m as [|[v e] m IH]; intros earlier Hd; simpl.
  - constructor.
  - apply Forall_cons in Hd as [He Hd]. simpl in He.
    constructor; [|by apply IH].
    intros (b & n & Heq & Hb & Hn)%expected_codes_form.
    assert (Hbd : ends_with_digit b = false).
    { unfold bases in Hb. apply list_elem_of_fmap in Hb as (x & -> & Hx).
      by apply (proj1 (Forall_forall _ _) Hd x). }
    apply code_split_unique in Heq as [<- Hpp];
      [| done | done | apply pretty_N_digits..].
    apply (inj pretty) in Hpp. rewrite occurrences_cons_same in Hn. lia.
Qed.

Lemma group_codes_expected b earlier (m : obj vehicleEntry) :
  group_codes b m (expected_codes earlier m) =
    (λ i, b +:+ pretty (N.of_nat i)) <$>
      seq (S (occurrences b earlier)) (occurrences b (bases m)).
Proof.
  revert earlier. unfold group_codes, bases.
  induction m as [|[v e] m IH]; intros earlier; simpl; [done|].
  destruct (decide (baseKey e = b)) as [Heq|Hne].
  - rewrite filter_cons_True by done. simpl.
    rewrite IH, Heq, !occurrences_cons_same. done.
  - rewrite filter_cons_False by done.
    rewrite IH, !occurrences_cons_other by done. done.
Qed.

(** X1.  On a manifest whose keys are ordinary names the generator gives
    every entry its base group key followed by one plus the number of
    earlier entries of the same group; the mapping has the manifest's
    keys in the manifest's order; and the codes of every base group are,
    in manifest order, the base key followed by 1, 2, ..., count. *)
Lemma autoIncrementSpawnCodes_plain (m : obj vehicleEntry) :
  NoDup (keys m) → plain_keys m →
  autoIncrementSpawnCodes m = expected_codes [] m
  ∧ keys (autoIncrementSpawnCodes m) = keys m
  ∧ ∀ b, group_codes b m (autoIncrementSpawnCodes m) =
           (λ i, b +:+ pretty (N.of_nat i)) <$> seq 1 (occurrences b (bases m)).
Proof.
  intros Hnd Hplain. rewrite autoIncrement_expected by done.
  split_and!; [done | apply expected_codes_keys |].
  intros b. by rewrite group_codes_expected.
Qed.

(** C1 (the code departs from the claim).  A base group key that names a
    property inherited from [Object.prototype] is not counted from 1: the
    first entry of group [constructor] gets the text of the built-in
    function appended instead of [1] and the second entry gets [1]; the
    specification's mapping gives [constructor1] and [constructor2]. *)
Theorem autoIncrementSpawnCodes_inherited_base :
  autoIncrementSpawnCodes
    [ ("carA", {| code := "constructor#"; data := "sedan" |});
      ("carB", {| code := "constructor#"; data := "sedan" |}) ]
  = [ ("carA", "constructorfunction Object() { [native code] }");
      ("carB", "constructor1") ]
  ∧ expected_codes []
      [ ("carA", {| code := "constructor#"; data := "sedan" |});
        ("carB", {| code := "constructor#"; data := "sedan" |}) ]
    = [ ("carA", "constructor1"); ("carB", "constructor2") ].
Proof. split; vm_compute; reflexivity. Qed.

(** The same defect on the base key [__proto__]: the counter is never
    stored, so every entry of the group gets the same code. *)
Example autoIncrementSpawnCodes_proto_base :
  autoIncrementSpawnCodes
    [ ("carA", {| code := "__proto__"; data := "sedan" |});
      ("carB", {| code := "__proto__"; data := "sedan" |}) ]
  = [ ("carA", "__proto__[object Object]");
      ("carB", "__proto__[object Object]") ].
Proof. vm_compute. reflexivity. Qed.

(** The scenarios of the specification. *)
Example autoIncrementSpawnCodes_single :
  autoIncrementSpawnCodes [("oldcar", {| code := "ABC#"; data := "sedan" |})]
  = [("oldcar", "ABC1")].
Proof. vm_compute. reflexivity. Qed.

Example autoIncrementSpawnCodes_shared_prefix :
  autoIncrementSpawnCodes
    [ ("carA", {| code := "XYZ#"; data := "sedan" |});
      ("carB", {| code := "XYZ#"; data := "sedan" |}) ]
  = [("carA", "XYZ1"); ("carB", "XYZ2")].
Proof. vm_compute. reflexivity. Qed.

(** C2 (as stated, refuted).  Twelve entries in two base groups, [A] and
    [A1]: the eleventh entry of group [A] and the first entry of group
    [A1] both get the code [A11], so the twelve codes are not pairwise
    distinct. *)
Lemma autoIncrementSpawnCodes_cross_group_collision :
  let m : obj vehicleEntry :=
    [ ("a1", {| code := "A#"; data := "sedan" |});
      ("a2", {| code := "A#"; data := "sedan" |});
      ("a3", {| code := "A#"; data := "sedan" |});
      ("a4", {| code := "A#"; data := "sedan" |});
      ("a5", {| code := "A#"; data := "sedan" |});
      ("a6", {| code := "A#"; data := "sedan" |});
      ("a7", {| code := "A#"; data := "sedan" |});
      ("a8", {| code := "A#"; data := "sedan" |});
      ("a9", {| code := "A#"; data := "sedan" |});
      ("a10", {| code := "A#"; data := "sedan" |});
      ("a11", {| code := "A#"; data := "sedan" |});
      ("b", {| code := "A1#"; data := "sedan" |}) ] in
  NoDup (keys m) ∧ plain_keys m
  ∧ own (autoIncrementSpawnCodes m) "a11" = Some "A11"
  ∧ own (autoIncrementSpawnCodes m) "b" = Some "A11"
  ∧ ¬ NoDup (autoIncrementSpawnCodes m).*2.
Proof.
  intros m. split_and!.
  - apply (bool_decide_unpack _). vm_compute. exact I.
  - unfold plain_keys. apply (bool_decide_unpack _). vm_compute. exact I.
  - vm_compute. reflexivity.
  - vm_compute. reflexivity.
  - apply (bool_decide_unpack _). vm_compute. exact I.
Qed.

(** C2 (amended).  On a manifest with ordinary keys the generator yields
    one code per entry; the codes of each base group are the base key
    followed by 1, 2, ..., count, hence distinct within the group; and when
    no base group key ends in a decimal digit, all the codes are pairwise
    distinct, across groups too. *)
Theorem autoIncrementSpawnCodes_distinct (m : obj vehicleEntry) :
  NoDup (keys m) → plain_keys m →
  length (autoIncrementSpawnCodes m) = length m
  ∧ (∀ b, NoDup (group_codes b m (autoIncrementSpawnCodes m)))
  ∧ (Forall (λ e, ends_with_digit (baseKey e.2) = false) m →
     NoDup (autoIncrementSpawnCodes m).*2).
Proof.
  intros Hnd Hplain. rewrite autoIncrement_expected by done.
  split_and!.
  - apply expected_codes_length.
  - intros b. rewrite group_codes_expected.
    apply NoDup_fmap_2; [|apply NoDup_seq].
    intros i j Hij. apply (inj (String.app b)), (inj pretty) in Hij. lia.
  - apply expected_codes_NoDup.
Qed.

Lemma autoIncrementSpawnCodes_distinct_witness :
  let m : obj vehicleEntry :=
    [ ("carA", {| code := "XYZ#"; data := "sedan" |});
      ("oldcar", {| code := "ABC#"; data := "coupe" |});
      ("carB", {| code := "XYZ#"; data := "sedan" |}) ] in
  length (autoIncrementSpawnCodes m) = length m
  ∧ (∀ b, NoDup (group_codes b m (autoIncrementSpawnCodes m)))
  ∧ (Forall (λ e, ends_with_digit (baseKey e.2) = false) m →
     NoDup (autoIncrementSpawnCodes m).*2).
Proof.
  intros m. apply (autoIncrementSpawnCodes_distinct m).
  - apply (bool_decide_unpack _). vm_compute. exact I.
  - unfold plain_keys. apply (bool_decide_unpack _). vm_compute. exact I.
Defined.


(* ===================================================================== *)
(** ** The file renamer *)
(* ===================================================================== *)

Section Renamer.
Import Eff FileRenamer.
Implicit Types (w : world) (folder vehicle spawnCode ext : string).

(** What one attempt does: a rename and a line if the old name exists, a
    warning if not. *)
Lemma renameOne_run folder vehicle spawnCode ext w :
  renameOne folder vehicle spawnCode ext w =
    let old := path_join folder (vehicle +:+ ext) in
    let new := path_join folder (spawnCode +:+ ext) in
    match files w !! old with
    | Some c =>
        ({| files := <[new := c]> (delete old (files w));
            trace := (trace w ++ [Rename old new])
                     ++ [Console LLog ("Renamed " +:+ old +:+ " to " +:+ new)] |},
         Ret tt)
    | None =>
        ({| files := files w;
            trace := trace w ++ [Console LWarn ("File not found: " +:+ old)] |},
         Ret tt)
    end.
Proof.
  unfold renameOne, bind, existsSync, renameSync, console, emit. simpl.
  destruct (files w !! path_join folder (vehicle +:+ ext)) as [c|] eqn:E.
  - rewrite bool_decide_true by eauto. by rewrite E.
  - rewrite bool_decide_false; [done|]. by intros [? ?].
Qed.

Lemma renames_app t1 t2 : renames (t1 ++ t2) = renames t1 ++ renames t2.
Proof. unfold renames. apply omap_app. Qed.

(** The attempts for one mapping entry over a list of suffixes. *)
Lemma renameOne_loop folder vehicle spawnCode exts : ∀ w,
  ∃ w', for_each (renameOne folder vehicle spawnCode) exts w = (w', Ret tt)
  ∧ (∀ o, (∀ ext, ext ∈ exts → o ≠ path_join folder (spawnCode +:+ ext)) →
          files w !! o = None
          ∨ (∃ ext, ext ∈ exts ∧ o = path_join folder (vehicle +:+ ext)) →
          files w' !! o = None)
  ∧ ((∀ ext, ext ∈ exts → files w !! path_join folder (vehicle +:+ ext) = None) →
     files w' = files w ∧ renames (trace w') = renames (trace w)).
Proof.
  induction exts as [|ext exts IH]; intros w.
  - exists w. split_and!; [done | | done].
    intros o _ [H|(ext & Hin & _)]; [done | by apply elem_of_nil in Hin].
  - cbn [for_each]. unfold bind at 1. rewrite renameOne_run. cbv zeta.
    set (old := path_join folder (vehicle +:+ ext)).
    set (new := path_join folder (spawnCode +:+ ext)).
    destruct (files w !! old) as [c|] eqn:E.
    + destruct (IH {| files := <[new := c]> (delete old (files w));
                      trace := (trace w ++ [Rename old new])
                        ++ [Console LLog ("Renamed " +:+ old +:+ " to " +:+ new)] |})
        as (w' & -> & Habs & _).
      exists w'. split_and!; [done | |].
      * intros o Hnew Ho. apply Habs.
        { intros e He. apply Hnew. by right. }
        assert (o ≠ new) by (apply Hnew; by left).
        destruct Ho as [Ho|(e & [->|He]%elem_of_cons & ->)].
        -- left. simpl. rewrite lookup_insert_ne by done.
           destruct (decide (old = o)) as [<-|].
           ++ by rewrite lookup_delete_eq.
           ++ by rewrite lookup_delete_ne.
        -- left. simpl. rewrite lookup_insert_ne by done.
           by rewrite lookup_delete_eq.
        -- right. eauto.
      * intros Hnone. pose proof (Hnone ext ltac:(by left)) as Hn.
        fold old in Hn. congruence.
    + destruct (IH {| files := files w;
                      trace := trace w ++ [Console LWarn ("File not found: " +:+ old)] |})
        as (w' & -> & Habs & Hsame).
      exists w'. split_and!; [done | |].
      * intros o Hnew Ho. apply Habs.
        { intros e He. apply Hnew. by right. }
        destruct Ho as [Ho|(e & [->|He]%elem_of_cons & ->)]; [by left | by left | right; eauto].
      * intros Hnone. destruct Hsame as [-> ->].
        { intros e He. simpl. apply Hnone. by right. }
        simpl. split; [done|]. rewrite renames_app. simpl. by rewrite app_nil_r.
Qed.

(** The loop over the entries of the mapping. *)
Lemma renameEntries_loop folder (spawnCodes : obj string) : ∀ w,
  ∃ w',
    for_each (λ e : string * string, for_each (renameOne folder e.1 e.2) patterns)
      spawnCodes w = (w', Ret tt)
  ∧ (∀ o, o ∉ new_names folder spawnCodes →
          files w !! o = None ∨ o ∈ old_names folder spawnCodes →
          files w' !! o = None)
  ∧ ((∀ o, o ∈ old_names folder spawnCodes → files w !! o = None) →
     files w' = files w ∧ renames (trace w') = renames (trace w)).
Proof.
  induction spawnCodes as [|[v c] sc IH]; intros w.
  - exists w. split_and!; [done | | done].
    intros o _ [H|Hin]; [done | by apply elem_of_nil in Hin].
  - cbn [for_each]. unfold bind at 1.
    destruct (renameOne_loop folder v c patterns w) as (w1 & Hrun & Habs1 & Hsame1).
    cbn [fst snd]. rewrite Hrun.
    destruct (IH w1) as (w' & -> & Habs & Hsame).
    assert (Hnew : ∀ o, o ∉ new_names folder ((v, c) :: sc) →
              (∀ ext, ext ∈ patterns → o ≠ path_join folder (c +:+ ext))
              ∧ o ∉ new_names folder sc).
    { intros o Ho.
      change (o ∉ ((λ ext, path_join folder (c +:+ ext)) <$> patterns)
                  ++ new_names folder sc) in Ho.
      apply not_elem_of_app in Ho as [Ho1 Ho2]. split; [|done].
      intros ext Hext ->. apply Ho1.
      apply list_elem_of_fmap. eauto. }
    assert (Hold : ∀ o, o ∈ old_names folder ((v, c) :: sc) ↔
              (∃ ext, ext ∈ patterns ∧ o = path_join folder (v +:+ ext))
              ∨ o ∈ old_names folder sc).
    { intros o.
      change (old_names folder ((v, c) :: sc))
        with (((λ ext, path_join folder (v +:+ ext)) <$> patterns)
              ++ old_names folder sc).
      rewrite elem_of_app, list_elem_of_fmap.
      split; (intros [(ext & ? & ?)|?]; [left; by exists ext | by right]). }
    exists w'. split_and!; [done | |].
    + intros o Ho Hw. destruct (Hnew o Ho) as [Hn1 Hn2].
      apply Habs; [done|].
      destruct Hw as [Hw|[Hw|Hw]%Hold]; [left | left | by right].
      * apply Habs1; [done | by left].
      * apply Habs1; [done | by right].
    + intros Hnone.
      destruct Hsame1 as [Hf1 Hr1].
      { intros ext Hext. apply Hnone, Hold. left. eauto. }
      destruct Hsame as [Hf Hr].
      { intros o Ho. rewrite Hf1. apply Hnone, Hold. by right. }
      split; congruence.
Qed.

(** The renamer never throws, and afterwards no old name is left when no
    new name is also an old name. *)
Lemma renameVehicleFiles_run folder (spawnCodes : obj string) w :
  ∃ w', renameVehicleFiles folder spawnCodes w = (w', Ret tt)
  ∧ ((∀ n, n ∈ new_names folder spawnCodes → n ∉ old_names folder spawnCodes) →
     ∀ o, o ∈ old_names folder spawnCodes → files w' !! o = None)
  ∧ ((∀ o, o ∈ old_names folder spawnCodes → files w !! o = None) →
     files w' = files w ∧ renames (trace w') = renames (trace w)).
Proof.
  unfold renameVehicleFiles, bind at 1, console, emit.
  destruct (renameEntries_loop folder spawnCodes
              {| files := files w;
                 trace := trace w ++ [Console LLog "Renaming vehicle files..."] |})
    as (w' & -> & Habs & Hsame).
  exists w'. split_and!; [done | |].
  - intros Hdisj o Ho. apply Habs; [|by right].
    intros Hn. by apply (Hdisj o).
  - intros Hnone. destruct (Hsame Hnone) as [-> ->]. simpl.
    split; [done|]. rewrite renames_app. simpl. by rewrite app_nil_r.
Qed.

End Renamer.

(** C8 (as stated, refuted).  With the mapping [{b1: "c1", a: "b1"}]
    (the manifest [{b1: {code: "c#"}, a: {code: "b#"}}]) and the single
    file [a.yft], the first run renames [a.yft] to [b1.yft]; [b1] is an
    original identifier too, so the second run finds [b1.yft] and renames
    it once more, to [c1.yft]. *)
Lemma renameVehicleFiles_second_run_renames :
  let spawnCodes : obj string := [("b1", "c1"); ("a", "b1")] in
  let w := {| files := {[ "/build/stream/a.yft" := "model" ]}; trace := [] |} in
  let w1 := (FileRenamer.renameVehicleFiles "/build/stream" spawnCodes w).1 in
  let w2 := (FileRenamer.renameVehicleFiles "/build/stream" spawnCodes w1).1 in
  CodeGenerator.autoIncrementSpawnCodes
    [ ("b1", {| code := "c#"; data := "sedan" |});
      ("a", {| code := "b#"; data := "sedan" |}) ] = spawnCodes
  ∧ FileRenamer.renames (trace w1) = [("/build/stream/a.yft", "/build/stream/b1.yft")]
  ∧ FileRenamer.renames (trace w2) =
      [ ("/build/stream/a.yft", "/build/stream/b1.yft");
        ("/build/stream/b1.yft", "/build/stream/c1.yft") ].
Proof. split_and!; vm_compute; reflexivity. Qed.

(** C8 (amended).  The stream folder is a resolved path, the original
    identifiers and the new codes are plain names (no path separator in
    them), and none of the old and new file names is a directory.  When
    then no new file name (a new code followed by a recognized suffix) is
    also an old file name (an original identifier followed by a
    recognized suffix), a second run of the renamer on the files the first
    run left performs no rename and changes no file: after the first run
    no file with an old name exists. *)
Theorem renameVehicleFiles_idempotent (folder : string) (spawnCodes : obj string)
    (w : world) :
  resolved folder = true →
  FileRenamer.plain_names spawnCodes →
  Forall (FileRenamer.no_directory w)
    (FileRenamer.old_names folder spawnCodes
     ++ FileRenamer.new_names folder spawnCodes) →
  (∀ n, n ∈ FileRenamer.new_names folder spawnCodes →
        n ∉ FileRenamer.old_names folder spawnCodes) →
  let w1 := (FileRenamer.renameVehicleFiles folder spawnCodes w).1 in
  let w2 := (FileRenamer.renameVehicleFiles folder spawnCodes w1).1 in
  (∀ o, o ∈ FileRenamer.old_names folder spawnCodes → files w1 !! o = None)
  ∧ FileRenamer.renames (trace w2) = FileRenamer.renames (trace w1)
  ∧ files w2 = files w1.
Proof.
  intros _ _ _ Hdisj w1 w2. subst w1 w2.
  destruct (renameVehicleFiles_run folder spawnCodes w) as (w1 & -> & Habs & _).
  simpl. specialize (Habs Hdisj).
  destruct (renameVehicleFiles_run folder spawnCodes w1) as (w2 & -> & _ & Hsame).
  simpl. destruct (Hsame Habs) as [-> ->]. done.
Qed.

Lemma renameVehicleFiles_idempotent_witness :
  let spawnCodes : obj string := [("oldcar", "ABC1"); ("carA", "XYZ1")] in
  let w := {| files := {[ "/build/stream/oldcar.yft" := "model";
                          "/build/stream/carA_hi.yft" := "detail" ]};
              trace := [] |} in
  let w1 := (FileRenamer.renameVehicleFiles "/build/stream" spawnCodes w).1 in
  let w2 := (FileRenamer.renameVehicleFiles "/build/stream" spawnCodes w1).1 in
  (∀ o, o ∈ FileRenamer.old_names "/build/stream" spawnCodes → files w1 !! o = None)
  ∧ FileRenamer.renames (trace w2) = FileRenamer.renames (trace w1)
  ∧ files w2 = files w1.
Proof.
  intros spawnCodes w.
  apply (renameVehicleFiles_idempotent "/build/stream" spawnCodes w).
  - vm_compute. reflexivity.
  - apply (bool_decide_unpack _). vm_compute. exact I.
  - apply (bool_decide_unpack _). vm_compute. exact I.
  - apply Forall_forall. apply (bool_decide_unpack _). vm_compute. exact I.
Defined.


(* ===================================================================== *)
(** ** Text replacement and the script rewriter *)
(* ===================================================================== *)

Lemma app_empty_l (s : string) : "" +:+ s = s.
Proof. reflexivity. Qed.

Lemma app_cons (c : ascii) (a b : string) : String c a +:+ b = String c (a +:+ b).
Proof. reflexivity. Qed.

Lemma app_empty_r (s : string) : s +:+ "" = s.
Proof. induction s as [|c s IH]; [done|]. by rewrite app_cons, IH. Qed.

Lemma str_app_assoc (a b c : string) : (a +:+ b) +:+ c = a +:+ (b +:+ c).
Proof. induction a as [|x a IH]; [done|]. by rewrite !app_cons, IH. Qed.

Lemma starts_with_app (p s : string) : starts_with p (p +:+ s) = true.
Proof.
  induction p as [|c p IH]; [done|]. rewrite app_cons. simpl.
  by rewrite Ascii.eqb_refl, IH.
Qed.

Lemma drop_app (p s : string) : drop (String.length p) (p +:+ s) = s.
Proof. induction p as [|c p IH]; [done|]. by rewrite app_cons. Qed.

(** A replacement text without a dollar sign is inserted as it is. *)
Lemma getSubstitution_plain (matched before after tpl : string) :
  contains_char "$" tpl = false →
  getSubstitution matched before after tpl = tpl.
Proof.
  induction tpl as [|c r IH]; [done|]. cbn [contains_char getSubstitution].
  intros [Hc Hr]%orb_false_elim. rewrite Ascii.eqb_sym in Hc.
  rewrite Hc. by rewrite IH.
Qed.

(** Consuming the rest of a match. *)
Lemma replaceAll_go_skip (search repl : string) (k : nat) : ∀ s seen,
  search ≠ "" →
  ∃ seen', replaceAll_go search repl seen k s
           = replaceAll_go search repl seen' 0 (drop k s).
Proof.
  induction k as [|k IH]; intros s seen Hne.
  - exists seen. by destruct s.
  - destruct s as [|c s].
    + exists seen. simpl. destruct search; [done|]. done.
    + simpl. apply IH. done.
Qed.

(** Text that does not contain the search value is returned unchanged. *)
Lemma replaceAll_go_absent (search repl : string) : ∀ s seen,
  search ≠ "" → includes search s = false →
  replaceAll_go search repl seen 0 s = s.
Proof.
  induction s as [|c s IH]; intros seen Hne Hinc.
  - simpl. destruct search; [done|]. done.
  - simpl in Hinc. apply orb_false_elim in Hinc as [Hsw Hinc].
    cbn [replaceAll_go]. rewrite Hsw. by rewrite IH.
Qed.

Lemma replaceAll_absent (s search repl : string) :
  search ≠ "" → includes search s = false → replaceAll s search repl = s.
Proof. intros. by apply replaceAll_go_absent. Qed.

(** With a replacement text free of dollar signs the text before the
    cursor plays no role. *)
Lemma replaceAll_go_seen (search repl : string) :
  contains_char "$" repl = false →
  ∀ s k seen seen',
    replaceAll_go search repl seen k s = replaceAll_go search repl seen' k s.
Proof.
  intros Hrepl. induction s as [|c s IH]; intros k seen seen'.
  - destruct k; simpl; [|done].
    destruct (starts_with search ""); [|done].
    by rewrite !getSubstitution_plain.
  - destruct k as [|k]; cbn [replaceAll_go]; [|apply IH].
    destruct (starts_with search (String c s)).
    + rewrite !getSubstitution_plain by done.
      destruct search; f_equal; [f_equal|]; apply IH.
    + f_equal. apply IH.
Qed.

(** The first occurrence is replaced and the scan goes on behind it. *)
Lemma replaceAll_first (search repl : string) :
  contains_char "$" repl = false → search ≠ "" →
  ∀ s n, indexOf search s = Some n →
    replaceAll s search repl =
      take n s +:+ repl
      +:+ replaceAll (drop (n + String.length search) s) search repl.
Proof.
  intros Hrepl Hne. unfold replaceAll.
  induction s as [|c s IH]; intros n Hidx.
  - simpl in Hidx. destruct search; [done|]. done.
  - cbn [indexOf] in Hidx. cbn [replaceAll_go].
    destruct (starts_with search (String c s)) eqn:Hsw.
    + injection Hidx as <-. rewrite getSubstitution_plain by done.
      destruct search as [|a p]; [done|].
      rewrite app_empty_l. f_equal.
      destruct (replaceAll_go_skip (String a p) repl (String.length p) s
                  (String c "") ltac:(done)) as [seen' ->].
      simpl. apply replaceAll_go_seen. done.
    + destruct (indexOf search s) as [m|] eqn:Hm; [|done].
      simpl in Hidx. injection Hidx as <-.
      rewrite (replaceAll_go_seen _ _ Hrepl s 0 _ "").
      rewrite (IH m eq_refl). done.
Qed.

(** The search value replaced when it is the whole text. *)
Lemma replaceAll_whole (search repl : string) :
  contains_char "$" repl = false → search ≠ "" →
  replaceAll search search repl = repl.
Proof.
  intros Hrepl Hne.
  rewrite (replaceAll_first search repl Hrepl Hne search 0).
  - simpl. rewrite app_empty_l.
    replace (drop (String.length search) search) with "".
    + unfold replaceAll. simpl. destruct search; [done|]. by rewrite app_empty_r.
    + pose proof (drop_app search "") as H. by rewrite app_empty_r in H.
  - destruct search as [|c p]; [done|]. cbn [indexOf].
    pose proof (starts_with_app (String c p) "") as H.
    rewrite app_empty_r in H. by rewrite H.
Qed.

Lemma quoted_nonempty (x : string) : quoted x ≠ "".
Proof. done. Qed.

(** X15.  The later revision's rewriter returns a script unchanged when
    no original identifier occurs in it in quoted form, whatever else the
    script contains. *)
Lemma rewriteUlc_unquoted_unchanged (ulcContent : string) (spawnCodes : obj string) :
  Forall (λ e, includes (quoted e.1) ulcContent = false) spawnCodes →
  Part000.rewriteUlc ulcContent spawnCodes = ulcContent.
Proof.
  unfold Part000.rewriteUlc.
  induction spawnCodes as [|[k v] sc IH]; intros Hall; [done|].
  apply Forall_cons in Hall as [Hk Hall]. simpl in Hk. cbn [fold_left fst snd].
  rewrite replaceAll_absent by (done || apply quoted_nonempty). by apply IH.
Qed.

(** C3 (the earlier revision departs from the claim).  On a script where
    the identifier [oldcar] occurs once in quotes and once inside another
    word, the rewriter of [src/build.mjs] searches for the bare identifier
    and replaces both occurrences; the rewriter of the later revision
    searches for the quoted identifier and replaces only the quoted one. *)
Theorem updateUlcFile_unquoted_occurrence :
  let script := "spawn(" +:+ quoted "oldcar" +:+ ") -- myoldcars" in
  BuildMjs.rewriteUlc script [("oldcar", "ABC1")]
    = "spawn(" +:+ quoted "ABC1" +:+ ") -- myABC1s"
  ∧ Part000.rewriteUlc script [("oldcar", "ABC1")]
    = "spawn(" +:+ quoted "ABC1" +:+ ") -- myoldcars".
Proof. split; vm_compute; reflexivity. Qed.


(* ===================================================================== *)
(** ** The metadata rewriter: one item *)
(* ===================================================================== *)

Section Items.
Import Shared.
Implicit Types (spawnCodes : obj string) (vehicleData : obj template)
  (buildData : obj vehicleEntry) (item : xml).

(** An assignment to the first slot of an array the item has. *)
Lemma assignment_present name v a t ch arr :
  own ch name = Some arr →
  Xml.assignment name (inl v) (XElem a t ch)
  = inl (XElem a t (put ch name (Xml.set_elem0 arr v))).
Proof. intros H. simpl. by rewrite H. Qed.

Lemma first_of_assigned name v a t ch arr :
  Xml.first_of (XElem a t (put ch name (Xml.set_elem0 arr v))) name = Some v.
Proof.
  unfold Xml.first_of. simpl. rewrite own_put_same. by destruct arr.
Qed.

Lemma first_of_other name name' a t ch arr :
  name ≠ name' →
  Xml.first_of (XElem a t (put ch name arr)) name'
  = Xml.first_of (XElem a t ch) name'.
Proof. intros. unfold Xml.first_of. simpl. by rewrite own_put_other. Qed.

Lemma get_own {V : Type} (o : obj V) name (v : V) :
  own o name = Some v → get o name = Own v.
Proof. intros H. unfold get, resolve. by rewrite H. Qed.

(** An own key of the mapping with a non-empty code passes [if (spawnCode)]. *)
Lemma truthy_own spawnCodes name c :
  own spawnCodes name = Some c → c ≠ "" →
  truthy (get spawnCodes name) = true ∧ as_xml (get spawnCodes name) = XText c.
Proof.
  intros H Hc. unfold get, resolve. rewrite H. simpl. split; [|done].
  by destruct (String.eqb_spec c "").
Qed.


(** The later revision lower-cases the identifier before the lookup: an
    item of [carvariations.meta] whose identifier, lower-cased, is a key
    of the mapping gets the new code, whatever the case it is written
    in. *)
Lemma variationItem_case_insensitive spawnCodes a t ch s rest c :
  own ch "modelName" = Some (XText s :: rest) →
  own spawnCodes (toLowerCase s) = Some c → c ≠ "" →
  Part000.variationItem spawnCodes (XElem a t ch)
  = (XElem a t (put ch "modelName" (XText c :: rest)),
     [Console LLog ("Updated carvariations.meta for " +:+ toLowerCase s)],
     None).
Proof.
  intros Hm Hc Hne.
  destruct (truthy_own spawnCodes _ c Hc Hne) as [Ht Hx].
  unfold Part000.variationItem, Part000.originalModelName_of. simpl.
  rewrite Hm. simpl. rewrite Ht.
  unfold rewriteVariationItem, Xml.upd.
  rewrite (assignment_present _ _ _ _ _ _ Hm), Hx. done.
Qed.

(** X10.  The later revision lower-cases the identifier before the
    lookup.  An item of [vehicles.meta] that has the five arrays the
    rewriter assigns to, and whose identifier is ASCII text that,
    lower-cased, is a key of the mapping and of the manifest, is rewritten
    whatever the case of its letters: the three name fields get the new
    code and the handling and audio references the values of the data
    template. *)
Lemma vehicleItem_case_insensitive spawnCodes vehicleData buildData
    a t ch s rest c e tpl :
  is_ascii s = true →
  own ch "modelName" = Some (XText s :: rest) →
  is_Some (own ch "txdName") → is_Some (own ch "gameName") →
  is_Some (own ch "handlingId") → is_Some (own ch "audioNameHash") →
  own spawnCodes (toLowerCase s) = Some c → c ≠ "" →
  own buildData (toLowerCase s) = Some e →
  own vehicleData (data e) = Some tpl →
  ∃ item',
    Part000.vehicleItem spawnCodes vehicleData buildData (XElem a t ch)
    = (item', [Console LLog ("Updated vehicles.meta for " +:+ toLowerCase s)],
       None)
    ∧ Xml.first_of item' "modelName" = Some (XText c)
    ∧ Xml.first_of item' "txdName" = Some (XText c)
    ∧ Xml.first_of item' "gameName" = Some (XText c)
    ∧ Xml.first_of item' "handlingId" = Some (XText (handling tpl))
    ∧ Xml.first_of item' "audioNameHash" = Some (XText (audio tpl)).
Proof.
  intros _ Hm [txd Htxd] [game Hgame] [hid Hhid] [aud Haud] Hc Hne He Htpl.
  destruct (truthy_own spawnCodes _ c Hc Hne) as [Ht Hx].
  unfold Part000.vehicleItem, Part000.originalModelName_of. simpl.
  rewrite Hm. simpl. rewrite Ht.
  unfold rewriteVehicleItem, dataRef_of, template_field.
  rewrite (get_own _ _ _ He), (get_own _ _ _ Htpl), Hx.
  cbn [foldl]. unfold Xml.upd.
  rewrite (assignment_present _ _ _ _ _ _ Hm). cbv beta iota.
  erewrite assignment_present by (rewrite own_put_other by done; exact Htxd).
  cbv beta iota.
  erewrite assignment_present
    by (rewrite !own_put_other by done; exact Hgame).
  cbv beta iota.
  erewrite assignment_present
    by (rewrite !own_put_other by done; exact Hhid).
  cbv beta iota.
  erewrite assignment_present
    by (rewrite !own_put_other by done; exact Haud).
  cbv beta iota.
  eexists. split; [reflexivity|].
  split_and!.
  - rewrite !first_of_other by done. apply first_of_assigned.
  - rewrite !first_of_other by done. apply first_of_assigned.
  - rewrite !first_of_other by done. apply first_of_assigned.
  - rewrite !first_of_other by done. apply first_of_assigned.
  - apply first_of_assigned.
Qed.



End Items.

(** C4 (the earlier revision departs from the claim).  The mapping has the
    lower-case key [oldcar]; the item's identifier is written [OldCar].
    The callback of [src/build.mjs] looks the identifier up as it stands
    and leaves the item alone; the callback of the later revision
    lower-cases it first and rewrites the item to the new code. *)
Theorem updateMetaFiles_identifier_case :
  let spawnCodes : obj string := [("oldcar", "ABC1")] in
  let item := XElem None None [("modelName", [XText "OldCar"])] in
  BuildMjs.variationItem spawnCodes item = (item, [], None)
  ∧ Part000.variationItem spawnCodes item
    = (XElem None None [("modelName", [XText "ABC1"])],
       [Console LLog "Updated carvariations.meta for oldcar"], None).
Proof. split; vm_compute; reflexivity. Qed.

(** C9 (the code departs from the claim).  The mapping has the single key
    [oldcar]; the item's identifier is [constructor], which is not in the
    mapping.  The lookup [spawnCodes["constructor"]] finds the function
    inherited from [Object.prototype], which passes [if (spawnCode)], and
    the item's identifier is overwritten with it, in both revisions. *)
Theorem updateMetaFiles_inherited_identifier :
  let spawnCodes : obj string := [("oldcar", "ABC1")] in
  let item := XElem None None [("modelName", [XText "constructor"])] in
  own spawnCodes "constructor" = None
  ∧ Part000.variationItem spawnCodes item
    = (XElem None None [("modelName", [XBuiltin "constructor"])],
       [Console LLog "Updated carvariations.meta for constructor"], None)
  ∧ BuildMjs.variationItem spawnCodes item
    = (XElem None None [("modelName", [XBuiltin "constructor"])],
       [Console LLog "Updated carvariations.meta for constructor"], None).
Proof. split_and!; vm_compute; reflexivity. Qed.


(* ===================================================================== *)
(** ** Loops over arrays with a callback that may throw *)
(* ===================================================================== *)

Section ForEach.
Context {A : Type}.
Implicit Types (f : nat → A → outcome A) (l : list A).

(** A loop that ends normally has run the callback on every element. *)
Lemma forEach_from_normal f : ∀ l i l' evs,
  Xml.forEach_from f i l = (l', evs, None) →
  Forall2 (λ x x', ∃ j evs', f j x = (x', evs', None)) l l'.
Proof.
  induction l as [|x l IH]; intros i l' evs H; simpl in H.
  - injection H as <- _. constructor.
  - destruct (f i x) as [[x' e1] [err|]] eqn:Hx; [done|].
    destruct (Xml.forEach_from f (S i) l) as [[r' e2] err'] eqn:Hr.
    injection H as <- _ ->. constructor; eauto.
Qed.

(** A loop that a throw has ended has run the callback on the elements
    before the one that threw, and has not touched the ones after it. *)
Lemma forEach_from_thrown f : ∀ l i l' evs e,
  Xml.forEach_from f i l = (l', evs, Some e) →
  ∃ pre x post pre' x' evs',
    l = pre ++ x :: post ∧ l' = pre' ++ x' :: post
    ∧ Forall2 (λ y y', ∃ j evs'', f j y = (y', evs'', None)) pre pre'
    ∧ f (i + length pre) x = (x', evs', Some e).
Proof.
  induction l as [|x l IH]; intros i l' evs e H; simpl in H; [done|].
  destruct (f i x) as [[x' e1] [err|]] eqn:Hx.
  - injection H as <- _ ->.
    exists [], x, l, [], x', e1. simpl. rewrite Nat.add_0_r.
    split_and!; [done | done | constructor | done].
  - destruct (Xml.forEach_from f (S i) l) as [[r' e2] err'] eqn:Hr.
    injection H as <- _ ->.
    destruct (IH _ _ _ _ Hr) as (pre & y & post & pre' & y' & evs' & -> & -> & Hall & Hy).
    exists (x :: pre), y, post, (x' :: pre'), y', evs'. simpl.
    rewrite <- Nat.add_succ_comm.
    split_and!; [done | done | constructor; eauto | done].
Qed.

End ForEach.

(* ===================================================================== *)
(** ** Modification kits *)
(* ===================================================================== *)

Section Modkits.
Import Part000.
Implicit Types (prefix : option string) (item kit : xml) (d : document).

(** What the callback does to an item does not depend on the indices,
    which are only printed. *)
Lemma kitItem_indices prefix ki ii item :
  (kitItem prefix ki ii item).1.1 = (kitItem prefix 0 0 item).1.1
  ∧ (kitItem prefix ki ii item).2 = (kitItem prefix 0 0 item).2.
Proof.
  unfold kitItem.
  destruct (Xml.prop item "kitName") as [[?|]|]; destruct (Xml.prop item "id") as [[ids|]|];
    try done.
  by destruct (kit_id ids) as [[? ?]|].
Qed.

(** An item whose throw ended the loop is left as it was. *)
Lemma kitItem_thrown prefix ki ii item item' evs e :
  kitItem prefix ki ii item = (item', evs, Some e) → item' = item ∧ evs = [].
Proof.
  unfold kitItem.
  destruct (Xml.prop item "kitName") as [[?|]|]; destruct (Xml.prop item "id") as [[ids|]|];
    try (intros [= <- <- _]; done); try done.
  destruct (kit_id ids) as [[? ?]|]; [done|]. by intros [= <- <- _].
Qed.

(** X19.  The guard of the kit callback: an item without [kitName] or
    without [id] is left as it is, and nothing is printed for it. *)
Lemma kitItem_skipped prefix ki ii a t ch :
  own ch "kitName" = None ∨ own ch "id" = None →
  kitItem prefix ki ii (XElem a t ch) = (XElem a t ch, [], None).
Proof.
  unfold kitItem. simpl. intros [->| ->]; [done|]. by destruct (own ch "kitName").
Qed.

(** The callback on an item that has an identifier value: the prefix is
    put in front of it. *)
Lemma kitItem_prefixed prefix ki ii item v :
  kit_value item = Some v →
  ∃ item',
    kitItem prefix ki ii item
    = (item',
       [ Console LLog
           ("Modifying kit ID: " +:+ v +:+ " (Kit " +:+ pretty (ki + 1)%nat
            +:+ ", Item " +:+ pretty (ii + 1)%nat +:+ ")");
         Console LLog ("Updated kit ID: " +:+ default "" prefix +:+ v) ],
       None)
    ∧ kit_value item' = Some (default "" prefix +:+ v).
Proof.
  unfold kit_value, kitItem.
  destruct item as [s|a t ch|k|]; try done. simpl.
  destruct (own ch "kitName") as [kn|] eqn:Hkn; [|done].
  destruct (own ch "id") as [ids|] eqn:Hid; [|done].
  unfold kit_id, Xml.elem0.
  destruct ids as [|[s|[at_|] t' ch'|k|] rest]; try done. simpl.
  intros ->. eexists. split; [reflexivity|].
  simpl. rewrite own_put_other, Hkn by done. rewrite own_put_same. simpl.
  by rewrite own_put_same.
Qed.

Lemma items_in_with_child kit items :
  is_Some (match Xml.prop kit "Item" with inl o => o | inr _ => None end) →
  items_in (Xml.with_child kit "Item" items) = items.
Proof.
  unfold items_in. destruct kit as [s|a t ch|k|]; simpl; try by intros [? ?].
  intros _. by rewrite own_put_same.
Qed.

(** One [Kits] element whose loop ended normally: each of its items has
    been through the callback. *)
Lemma kitsElement_normal prefix ki kit kit' evs :
  kitsElement prefix ki kit = (kit', evs, None) →
  items_in kit' = (λ item, (kitItem prefix 0 0 item).1.1) <$> items_in kit.
Proof.
  unfold kitsElement, items_in at 2.
  destruct (Xml.prop kit "Item") as [[items|]|] eqn:Hp; [| |done].
  - destruct (Xml.forEach_from _ 0 items) as [[items' e1] err] eqn:Hf.
    intros [= <- _ ->]. rewrite items_in_with_child by (rewrite Hp; eauto).
    apply forEach_from_normal in Hf. clear Hp.
    induction Hf as [|x x' l l' (j & e' & Hx) _ IH]; [done|].
    simpl. rewrite IH. f_equal.
    destruct (kitItem_indices prefix ki j x) as [<- _]. by rewrite Hx.
  - intros [= <- _]. unfold items_in. by rewrite Hp.
Qed.

(** One [Kits] element whose loop was ended by a throw: the items before
    the one that threw have been through the callback, the others are as
    they were. *)
Lemma kitsElement_thrown prefix ki kit kit' evs e :
  kitsElement prefix ki kit = (kit', evs, Some e) →
  ∃ pre post,
    items_in kit = pre ++ post
    ∧ items_in kit' = ((λ item, (kitItem prefix 0 0 item).1.1) <$> pre) ++ post.
Proof.
  unfold kitsElement.
  destruct (Xml.prop kit "Item") as [[items|]|] eqn:Hp.
  - destruct (Xml.forEach_from _ 0 items) as [[items' e1] err] eqn:Hf.
    intros [= <- _ ->]. rewrite items_in_with_child by (rewrite Hp; eauto).
    unfold items_in. rewrite Hp.
    apply forEach_from_thrown in Hf
      as (pre & x & post & pre' & x' & evs' & -> & -> & Hall & Hx).
    apply kitItem_thrown in Hx as [-> _].
    exists pre, (x :: post). split; [done|]. f_equal.
    clear Hp. induction Hall as [|y y' l l' (j & e' & Hy) _ IH]; [done|].
    simpl. rewrite IH. f_equal.
    destruct (kitItem_indices prefix ki j y) as [<- _]. by rewrite Hy.
  - done.
  - intros [= <- _ _]. exists [], []. unfold items_in. by rewrite Hp.
Qed.

Lemma kit_items_rebuilt d a t ch kits kits' :
  Xml.root_field d "CVehicleModelInfoVarGlobal" = Some (XElem a t ch) →
  own ch "Kits" = Some kits →
  kit_items d = kits ≫= items_in
  ∧ kit_items {| rootName := rootName d;
                 root := XElem a t (put ch "Kits" kits') |}
    = kits' ≫= items_in.
Proof.
  intros Hr Hk. unfold kit_items. rewrite Hr, Hk. split; [done|].
  unfold Xml.root_field in *. simpl.
  destruct (String.eqb (rootName d) "CVehicleModelInfoVarGlobal"); [|done].
  by rewrite own_put_same.
Qed.

(** A document whose [try] block ended normally: every item the loops
    visit has been through the callback. *)
Lemma modkitsDoc_normal prefix d d' evs :
  modkitsDoc prefix d = (d', evs, None) →
  kit_items d' = (λ item, (kitItem prefix 0 0 item).1.1) <$> kit_items d.
Proof.
  unfold modkitsDoc.
  destruct (Xml.root_field d "CVehicleModelInfoVarGlobal") as [r|] eqn:Hr;
    [|intros [= <- _]; unfold kit_items; by rewrite Hr].
  destruct r as [s|a t ch|k|];
    try (intros [= <- _]; unfold kit_items; by rewrite Hr).
  destruct (own ch "Kits") as [kits|] eqn:Hk;
    [|intros [= <- _]; unfold kit_items; by rewrite Hr, Hk].
  destruct (Xml.forEach_from _ 0 kits) as [[kits' e1] err] eqn:Hf.
  intros [= <- _ ->].
  cbn [Xml.with_child].
  destruct (kit_items_rebuilt d a t ch kits kits' Hr Hk) as [-> ->].
  apply forEach_from_normal in Hf. clear Hk.
  induction Hf as [|x x' l l' (j & e' & Hx) _ IH]; [done|].
  rewrite !bind_cons, fmap_app, IH. f_equal. by eapply kitsElement_normal.
Qed.

(** A document whose [try] block was ended by a throw: the items visited
    before it keep what the callback did to them, the others are as they
    were. *)
Lemma modkitsDoc_thrown prefix d d' evs e :
  modkitsDoc prefix d = (d', evs, Some e) →
  ∃ pre post,
    kit_items d = pre ++ post
    ∧ kit_items d' = ((λ item, (kitItem prefix 0 0 item).1.1) <$> pre) ++ post.
Proof.
  unfold modkitsDoc.
  destruct (Xml.root_field d "CVehicleModelInfoVarGlobal") as [r|] eqn:Hr; [|done].
  destruct r as [s|a t ch|k|]; try done.
  destruct (own ch "Kits") as [kits|] eqn:Hk; [|done].
  destruct (Xml.forEach_from _ 0 kits) as [[kits' e1] err] eqn:Hf.
  intros [= <- _ ->].
  cbn [Xml.with_child].
  destruct (kit_items_rebuilt d a t ch kits kits' Hr Hk) as [-> ->].
  clear Hk.
  apply forEach_from_thrown in Hf
    as (kpre & x & kpost & kpre' & x' & evs' & -> & -> & Hall & Hx).
  apply kitsElement_thrown in Hx as (ipre & ipost & Hi & Hi').
  exists ((kpre ≫= items_in) ++ ipre), (ipost ++ (kpost ≫= items_in)).
  rewrite !bind_app, !bind_cons, Hi, Hi', fmap_app, <- !app_assoc.
  split; [done|]. f_equal.
  clear Hi Hi'. induction Hall as [|y y' l l' (j & e' & Hy) _ IH]; [done|].
  rewrite !bind_cons, fmap_app, IH. f_equal. by eapply kitsElement_normal.
Qed.

(** The callback on the two kinds of item the statements below tell
    apart: it throws on a malformed item and leaves it alone, and it does
    not throw on an item that has an identifier value. *)
Lemma kitItem_malformed prefix ki ii item :
  malformed item = true →
  kitItem prefix ki ii item = (item, [], Some (Xml.undefined_read "value")).
Proof.
  unfold malformed, kitItem. destruct item as [s|a t ch|k|]; try done. simpl.
  destruct (own ch "kitName"); [|done]. destruct (own ch "id") as [ids|]; [|done].
  by destruct ids as [|[s|[at_|] t' ch'|k|] rest].
Qed.

Lemma kitItem_valued prefix ki ii item :
  is_Some (kit_value item) → (kitItem prefix ki ii item).2 = None.
Proof.
  intros [v Hv]. by destruct (kitItem_prefixed prefix ki ii item v Hv) as (? & -> & _).
Qed.

Lemma kit_values_prefixed prefix (l : list xml) :
  Forall (λ item, is_Some (kit_value item)) l →
  kit_value <$> ((λ item, (kitItem prefix 0 0 item).1.1) <$> l)
  = (λ item, (λ v, default "" prefix +:+ v) <$> kit_value item) <$> l.
Proof.
  induction 1 as [|item l [v Hv] _ IH]; [done|].
  rewrite !fmap_cons, IH. f_equal.
  destruct (kitItem_prefixed prefix 0 0 item v Hv) as (item' & Hk & Hv').
  rewrite Hk. cbn [fst]. by rewrite Hv', Hv.
Qed.

(** A loop that ended normally: no element made the callback throw. *)
Lemma kitsElement_normal_items prefix ki kit kit' evs :
  kitsElement prefix ki kit = (kit', evs, None) →
  Forall (λ item, (kitItem prefix 0 0 item).2 = None) (items_in kit).
Proof.
  unfold kitsElement, items_in.
  destruct (Xml.prop kit "Item") as [[items|]|] eqn:Hp; [| |done].
  - destruct (Xml.forEach_from _ 0 items) as [[items' e1] err] eqn:Hf.
    intros [= _ _ ->]. apply forEach_from_normal in Hf. clear Hp.
    induction Hf as [|x x' l l' (j & e' & Hx) _ IH]; [constructor|].
    constructor; [|done].
    destruct (kitItem_indices prefix ki j x) as [_ <-]. by rewrite Hx.
  - intros _. constructor.
Qed.

Lemma modkitsDoc_normal_items prefix d d' evs :
  modkitsDoc prefix d = (d', evs, None) →
  Forall (λ item, (kitItem prefix 0 0 item).2 = None) (kit_items d).
Proof.
  unfold modkitsDoc.
  destruct (Xml.root_field d "CVehicleModelInfoVarGlobal") as [r|] eqn:Hr;
    [|intros _; unfold kit_items; rewrite Hr; constructor].
  destruct r as [s|a t ch|k|];
    try (intros _; unfold kit_items; rewrite Hr; constructor).
  destruct (own ch "Kits") as [l|] eqn:Hk;
    [|intros _; unfold kit_items; rewrite Hr, Hk; constructor].
  destruct (Xml.forEach_from _ 0 l) as [[l' e1] err] eqn:Hf.
  intros [= _ _ ->].
  destruct (kit_items_rebuilt d a t ch l l' Hr Hk) as [-> _].
  apply forEach_from_normal in Hf. clear Hk.
  induction Hf as [|x x' l l' (j & e' & Hx) _ IH]; [constructor|].
  rewrite bind_cons. apply Forall_app. split; [|done].
  by eapply kitsElement_normal_items.
Qed.

(** A loop that a throw ended: the element that threw is the first one on
    which the callback throws. *)
Lemma kitsElement_first_throw prefix ki kit kit' evs e :
  kitsElement prefix ki kit = (kit', evs, Some e) → kit ≠ XUndefined →
  ∃ pre bad post,
    items_in kit = pre ++ bad :: post
    ∧ Forall (λ item, (kitItem prefix 0 0 item).2 = None) pre
    ∧ (kitItem prefix 0 0 bad).2 = Some e
    ∧ items_in kit' = ((λ item, (kitItem prefix 0 0 item).1.1) <$> pre) ++ bad :: post.
Proof.
  unfold kitsElement. intros E Hkit.
  destruct (Xml.prop kit "Item") as [[items|]|] eqn:Hp.
  - destruct (Xml.forEach_from _ 0 items) as [[items' e1] err] eqn:Hf.
    injection E as <- _ ->. rewrite items_in_with_child by (rewrite Hp; eauto).
    unfold items_in. rewrite Hp.
    apply forEach_from_thrown in Hf
      as (pre & x & post & pre' & x' & evs' & -> & -> & Hall & Hx).
    exists pre, x, post. split; [done|].
    assert (Hx0 : (kitItem prefix 0 0 x).2 = Some e).
    { destruct (kitItem_indices prefix ki (0 + length pre) x) as [_ <-].
      by rewrite Hx. }
    apply kitItem_thrown in Hx as [-> _].
    split_and!; [|done|].
    + clear Hp. induction Hall as [|y y' l l' (j & e' & Hy) _ IH]; [constructor|].
      constructor; [|done].
      destruct (kitItem_indices prefix ki j y) as [_ <-]. by rewrite Hy.
    + f_equal. clear Hp.
      induction Hall as [|y y' l l' (j & e' & Hy) _ IH]; [done|].
      simpl. rewrite IH. f_equal.
      destruct (kitItem_indices prefix ki j y) as [<- _]. by rewrite Hy.
  - done.
  - by destruct kit.
Qed.

Lemma kits_of d a t ch l :
  Xml.root_field d "CVehicleModelInfoVarGlobal" = Some (XElem a t ch) →
  own ch "Kits" = Some l → kits d = l.
Proof. intros Hr Hk. unfold kits. by rewrite Hr, Hk. Qed.

Lemma modkitsDoc_first_throw prefix d d' evs e :
  modkitsDoc prefix d = (d', evs, Some e) → XUndefined ∉ kits d →
  ∃ pre bad post,
    kit_items d = pre ++ bad :: post
    ∧ Forall (λ item, (kitItem prefix 0 0 item).2 = None) pre
    ∧ (kitItem prefix 0 0 bad).2 = Some e
    ∧ kit_items d' = ((λ item, (kitItem prefix 0 0 item).1.1) <$> pre) ++ bad :: post.
Proof.
  unfold modkitsDoc.
  destruct (Xml.root_field d "CVehicleModelInfoVarGlobal") as [r|] eqn:Hr; [|done].
  destruct r as [s|a t ch|k|]; try done.
  destruct (own ch "Kits") as [l|] eqn:Hk; [|done].
  destruct (Xml.forEach_from _ 0 l) as [[l' e1] err] eqn:Hf.
  intros [= <- _ ->] Hundef. rewrite (kits_of d a t ch l Hr Hk) in Hundef.
  cbn [Xml.with_child].
  destruct (kit_items_rebuilt d a t ch l l' Hr Hk) as [-> ->].
  clear Hk.
  apply forEach_from_thrown in Hf
    as (kpre & x & kpost & kpre' & x' & evs' & -> & -> & Hall & Hx).
  apply kitsElement_first_throw in Hx as (ipre & bad & ipost & Hi & Hok & Hbad & Hi');
    [|intros ->; apply Hundef; set_solver].
  exists ((kpre ≫= items_in) ++ ipre), bad, (ipost ++ (kpost ≫= items_in)).
  rewrite !bind_app, !bind_cons, Hi, Hi', fmap_app, <- !app_assoc.
  split_and!; [done | | done |].
  - apply Forall_app. split; [|done]. clear Hi Hi' Hundef.
    induction Hall as [|y y' l l' (j & e' & Hy) _ IH]; [constructor|].
    rewrite bind_cons. apply Forall_app. split; [|done].
    by eapply kitsElement_normal_items.
  - f_equal; try done. clear Hi Hi' Hundef.
    induction Hall as [|y y' l l' (j & e' & Hy) _ IH]; [done|].
    rewrite !bind_cons, fmap_app, IH. f_equal. by eapply kitsElement_normal.
Qed.

(** There is one first element on which a callback throws. *)
Lemma first_throw_unique {A B : Type} (ok : A → option B)
    (pre pre' post post' : list A) (bad bad' : A) :
  pre ++ bad :: post = pre' ++ bad' :: post' →
  Forall (λ x, ok x = None) pre → is_Some (ok bad) →
  Forall (λ x, ok x = None) pre' → is_Some (ok bad') →
  pre = pre' ∧ bad = bad' ∧ post = post'.
Proof.
  revert pre'. induction pre as [|x pre IH]; intros [|x' pre'] Heq Hp Hb Hp' Hb';
    simpl in Heq.
  - by injection Heq as -> ->.
  - injection Heq as -> _. apply Forall_cons in Hp' as [Hx _].
    rewrite Hx in Hb. by destruct Hb.
  - injection Heq as -> _. apply Forall_cons in Hp as [Hx _].
    rewrite Hx in Hb'. by destruct Hb'.
  - injection Heq as -> Heq.
    apply Forall_cons in Hp as [_ Hp]. apply Forall_cons in Hp' as [_ Hp'].
    destruct (IH pre' Heq Hp Hb Hp' Hb') as (-> & -> & ->). done.
Qed.

(** The [try] block on a document all of whose items have an identifier
    value: it ends normally, and every item has been prefixed. *)
Lemma modkitsDoc_well_formed prefix d :
  XUndefined ∉ kits d →
  Forall (λ item, is_Some (kit_value item)) (kit_items d) →
  ∃ d' evs,
    modkitsDoc prefix d = (d', evs, None)
    ∧ kit_items d' = (λ item, (kitItem prefix 0 0 item).1.1) <$> kit_items d.
Proof.
  intros Hundef Hall.
  destruct (modkitsDoc prefix d) as [[d' evs] [e|]] eqn:E.
  - exfalso.
    destruct (modkitsDoc_first_throw _ _ _ _ _ E Hundef)
      as (pre & bad & post & Heq & _ & Hbad & _).
    rewrite Heq in Hall. apply Forall_app in Hall as [_ Hall].
    apply Forall_cons in Hall as [Hv _].
    by rewrite (kitItem_valued prefix 0 0 bad Hv) in Hbad.
  - exists d', evs. split; [done|]. by eapply modkitsDoc_normal.
Qed.

(** The [try] block on a document with a malformed item after items that
    have an identifier value: the read of the malformed item's value
    throws, the items before it are prefixed, and it and the items after
    it are as they were. *)
Lemma modkitsDoc_malformed prefix d pre bad post :
  XUndefined ∉ kits d →
  kit_items d = pre ++ bad :: post →
  Forall (λ item, is_Some (kit_value item)) pre → malformed bad = true →
  ∃ d' evs,
    modkitsDoc prefix d = (d', evs, Some (Xml.undefined_read "value"))
    ∧ kit_items d'
      = ((λ item, (kitItem prefix 0 0 item).1.1) <$> pre) ++ bad :: post.
Proof.
  intros Hundef Heq Hpre Hbad.
  assert (Hthrows : (kitItem prefix 0 0 bad).2 = Some (Xml.undefined_read "value"))
    by (by rewrite kitItem_malformed).
  destruct (modkitsDoc prefix d) as [[d' evs] [e|]] eqn:E.
  - destruct (modkitsDoc_first_throw _ _ _ _ _ E Hundef)
      as (pre' & bad' & post' & Heq' & Hok' & Hbad' & Hd').
    rewrite Heq in Heq'.
    destruct (first_throw_unique (λ item, (kitItem prefix 0 0 item).2)
                pre pre' post post' bad bad' Heq') as (<- & <- & <-).
    + eapply Forall_impl; [exact Hpre|]. intros item. apply kitItem_valued.
    + rewrite Hthrows. eauto.
    + done.
    + rewrite Hbad'. eauto.
    + exists d', evs. split; [|done]. rewrite Hthrows in Hbad'.
      by injection Hbad' as <-.
  - exfalso. apply modkitsDoc_normal_items in E. rewrite Heq in E.
    apply Forall_app in E as [_ E]. apply Forall_cons in E as [E _].
    by rewrite Hthrows in E.
Qed.

End Modkits.


(* ===================================================================== *)
(** ** Reasoning about runs *)
(* ===================================================================== *)

Section Runs.
Import Eff Run.
Implicit Types (P : event → Prop) (w : world).

Lemma emits_ret {A : Type} P (a : A) : emits P (ret a).
Proof. intros w w' r [= <- _]. exists []. by rewrite app_nil_r. Qed.

Lemma emits_throw {A : Type} P e : emits P (throw (A:=A) e).
Proof. intros w w' r [= <- _]. exists []. by rewrite app_nil_r. Qed.

Lemma emits_exit {A : Type} P status : emits P (exit (A:=A) status).
Proof. intros w w' r [= <- _]. exists []. by rewrite app_nil_r. Qed.

Lemma emits_bind {A B : Type} P (c : M A) (k : A → M B) :
  emits P c → (∀ a, emits P (k a)) → emits P (bind c k).
Proof.
  intros Hc Hk w w' r. unfold bind.
  destruct (c w) as [w1 [a|e|st]] eqn:E; destruct (Hc _ _ _ E) as (evs & Ht & HP).
  - intros Hka. destruct (Hk a _ _ _ Hka) as (evs' & Ht' & HP').
    exists (evs ++ evs'). rewrite Ht', Ht, app_assoc. split; [done|].
    by apply Forall_app.
  - intros [= <- _]. eauto.
  - intros [= <- _]. eauto.
Qed.

Lemma emits_try_catch {A : Type} P (c : M A) (h : error → M A) :
  emits P c → (∀ e, emits P (h e)) → emits P (try_catch c h).
Proof.
  intros Hc Hh w w' r. unfold try_catch.
  destruct (c w) as [w1 [a|e|st]] eqn:E; destruct (Hc _ _ _ E) as (evs & Ht & HP).
  - intros [= <- _]. eauto.
  - intros Hhe. destruct (Hh e _ _ _ Hhe) as (evs' & Ht' & HP').
    exists (evs ++ evs'). rewrite Ht', Ht, app_assoc. split; [done|].
    by apply Forall_app.
  - intros [= <- _]. eauto.
Qed.

Lemma emits_impl {A : Type} P (Q : event → Prop) (c : M A) :
  (∀ e, P e → Q e) → emits P c → emits Q c.
Proof.
  intros HPQ Hc w w' r E. destruct (Hc _ _ _ E) as (evs & Ht & HP).
  exists evs. split; [done|]. by eapply Forall_impl.
Qed.

Lemma emits_for_each {A : Type} P (body : A → M unit) (l : list A) :
  (∀ x, x ∈ l → emits P (body x)) → emits P (for_each body l).
Proof.
  induction l as [|x l IH]; intros Hb; cbn [for_each].
  - apply emits_ret.
  - apply emits_bind; [apply Hb; by left|].
    intros _. apply IH. intros y Hy. apply Hb. by right.
Qed.

Lemma no_exit_bind {A B : Type} (c : M A) (k : A → M B) :
  no_exit c → (∀ a, no_exit (k a)) → no_exit (bind c k).
Proof.
  intros Hc Hk w w' st. unfold bind.
  destruct (c w) as [w1 [a|e|st']] eqn:E; [apply Hk | done | by apply Hc in E].
Qed.

Lemma no_exit_for_each {A : Type} (body : A → M unit) (l : list A) :
  (∀ x, x ∈ l → no_exit (body x)) → no_exit (for_each body l).
Proof.
  induction l as [|x l IH]; intros Hb; cbn [for_each]; [done|].
  apply no_exit_bind; [apply Hb; by left|].
  intros _. apply IH. intros y Hy. apply Hb. by right.
Qed.

Lemma returns_no_exit {A : Type} (c : M A) : returns c → no_exit c.
Proof. intros Hc w w' st E. destruct (Hc w) as (w1 & a & E'). congruence. Qed.

Lemma returns_bind {A B : Type} (c : M A) (k : A → M B) :
  returns c → (∀ a, returns (k a)) → returns (bind c k).
Proof.
  intros Hc Hk w. unfold bind. destruct (Hc w) as (w1 & a & ->). apply Hk.
Qed.

Lemma returns_for_each {A : Type} (body : A → M unit) (l : list A) :
  (∀ x, x ∈ l → returns (body x)) → returns (for_each body l).
Proof.
  induction l as [|x l IH]; intros Hb; cbn [for_each].
  - intros w. by exists w, tt.
  - apply returns_bind; [apply Hb; by left|].
    intros _. apply IH. intros y Hy. apply Hb. by right.
Qed.

End Runs.

Section Primitives.
Import Eff Run.
Implicit Types (P : event → Prop).

Lemma emits_emit P e : P e → emits P (emit e).
Proof. intros He w w' r [= <- _]. exists [e]. split; [done|]. by constructor. Qed.

Lemma emits_console P l msg : P (Console l msg) → emits P (console l msg).
Proof. apply emits_emit. Qed.

Lemma emits_emit_all P evs : Forall P evs → emits P (emit_all evs).
Proof. intros He w w' r [= <- _]. by exists evs. Qed.

Lemma emits_existsSync P path : emits P (existsSync path).
Proof. intros w w' r [= <- _]. exists []. by rewrite app_nil_r. Qed.

Lemma emits_readFileSync P path : emits P (readFileSync path).
Proof.
  intros w w' r. unfold readFileSync.
  destruct (files w !! path); intros [= <- _]; exists []; by rewrite app_nil_r.
Qed.

Lemma emits_writeFileSync P path content :
  P (Write path content) → emits P (writeFileSync path content).
Proof.
  intros He w w' r [= <- _]. exists [Write path content].
  split; [done|]. by constructor.
Qed.

Lemma emits_renameSync P old new : P (Rename old new) → emits P (renameSync old new).
Proof.
  intros He w w' r. unfold renameSync.
  destruct (files w !! old); intros [= <- _].
  - exists [Rename old new]. split; [done|]. by constructor.
  - exists []. by rewrite app_nil_r.
Qed.

Lemma returns_console l msg : returns (console l msg).
Proof. intros w. by eexists _, tt. Qed.

Lemma returns_emit_all evs : returns (emit_all evs).
Proof. intros w. by eexists _, tt. Qed.

Lemma returns_writeFileSync path content : returns (writeFileSync path content).
Proof. intros w. by eexists _, tt. Qed.

Lemma no_exit_throw {A : Type} e : no_exit (throw (A:=A) e).
Proof. by intros w w' st. Qed.

Lemma no_exit_ret {A : Type} (a : A) : no_exit (ret a).
Proof. by intros w w' st. Qed.

Lemma no_exit_readFileSync path : no_exit (readFileSync path).
Proof. intros w w' st. unfold readFileSync. by destruct (files w !! path). Qed.

Lemma no_exit_existsSync path : no_exit (existsSync path).
Proof. by intros w w' st. Qed.

(** A console line that begins with [p] is not the completion line when
    the completion line does not begin with [p]. *)
Lemma not_completion l p x :
  starts_with p "Processing completed successfully." = false →
  Console l (p +:+ x) ≠ completion.
Proof.
  intros H [= _ Heq]. rewrite <- Heq, starts_with_app in H. done.
Qed.

End Primitives.


(* ===================================================================== *)
(** ** The steps of a run *)
(* ===================================================================== *)

Section Steps.
Import Eff Run Shared.
Context `{Libraries}.

(** [loadYaml], case by case. *)
Lemma loadYaml_run (filePath : string) (w : world) :
  loadYaml filePath w =
    match files w !! filePath with
    | None =>
        ({| files := files w;
            trace := (trace w ++ [Console LLog ("Loading YAML file: " +:+ filePath)])
              ++ [Console LError
                    ("Failed to load YAML: "
                     +:+ "ENOENT: no such file or directory, open '"
                     +:+ filePath +:+ "'")] |},
         Exit 1)
    | Some content =>
        match yaml_load content with
        | inl buildData =>
            ({| files := files w;
                trace := (trace w ++ [Console LLog ("Loading YAML file: " +:+ filePath)])
                  ++ [Console LLog "YAML file loaded successfully."] |},
             Ret buildData)
        | inr e =>
            ({| files := files w;
                trace := ((trace w ++ [Console LLog ("Loading YAML file: " +:+ filePath)])
                  ++ [Console LLog "YAML file loaded successfully."])
                  ++ [Console LError ("Failed to load YAML: " +:+ err_message e)] |},
             Exit 1)
        end
    end.
Proof.
  unfold loadYaml, try_catch, bind, console, emit, readFileSync, throw, exit, ret.
  simpl. destruct (files w !! filePath) as [content|]; [|done].
  by destruct (yaml_load content).
Qed.

Lemma loadYaml_emits filePath : emits (λ e, load_event e = true) (loadYaml filePath).
Proof.
  intros w w' r. rewrite loadYaml_run.
  destruct (files w !! filePath) as [content|].
  - destruct (yaml_load content) as [b|e]; intros [= <- _]; simpl.
    + eexists [_; _]. rewrite <- app_assoc. split; [done|].
      repeat constructor; by vm_compute.
    + eexists [_; _; _]. rewrite <- !app_assoc. split; [done|].
      repeat constructor; by vm_compute.
  - intros [= <- _]; simpl.
    eexists [_; _]. rewrite <- app_assoc. split; [done|].
    repeat constructor; by vm_compute.
Qed.

Lemma generate_returns vehicleEntries : returns (generate vehicleEntries).
Proof. intros w. by eexists _, _. Qed.

Lemma generate_emits vehicleEntries :
  emits (λ e, generate_event e = true) (generate vehicleEntries).
Proof.
  unfold generate.
  repeat (apply emits_bind; [|intros _]); try apply emits_ret;
    apply emits_console; by vm_compute.
Qed.

Lemma renameVehicleFiles_returns folder (spawnCodes : obj string) :
  returns (FileRenamer.renameVehicleFiles folder spawnCodes).
Proof.
  intros w. destruct (renameVehicleFiles_run folder spawnCodes w) as (w' & E & _).
  eauto.
Qed.

Lemma renameVehicleFiles_emits folder (spawnCodes : obj string) :
  emits (λ e, rename_event e = true)
    (FileRenamer.renameVehicleFiles folder spawnCodes).
Proof.
  unfold FileRenamer.renameVehicleFiles.
  apply emits_bind; [apply emits_console; by vm_compute|]. intros _.
  apply emits_for_each. intros [v c] _. apply emits_for_each. intros ext _.
  unfold FileRenamer.renameOne.
  apply emits_bind; [apply emits_existsSync|]. intros [|].
  - apply emits_bind; [by apply emits_renameSync|]. intros _.
    apply emits_console. by vm_compute.
  - apply emits_console. by vm_compute.
Qed.


(** What the document callbacks print. *)
Lemma forEach_from_events {A : Type} (f : nat → A → outcome A) (P : event → Prop) :
  (∀ i x, Forall P (f i x).1.2) → ∀ l i, Forall P (Xml.forEach_from f i l).1.2.
Proof.
  intros Hf. induction l as [|x l IH]; intros i; simpl; [constructor|].
  specialize (Hf i x). destruct (f i x) as [[x' evs] [e|]]; [done|].
  specialize (IH (S i)). destruct (Xml.forEach_from f (S i) l) as [[r' evs'] err].
  simpl in *. by apply Forall_app.
Qed.

Lemma on_items_events rootN listN cb d (P : event → Prop) :
  (∀ x, Forall P (cb x).1.2) → Forall P (Xml.on_items rootN listN cb d).1.2.
Proof.
  intros Hcb. unfold Xml.on_items.
  destruct (Xml.root_field d rootN) as [r|]; [|constructor].
  destruct (Xml.prop r listN) as [[lists|]|]; try constructor.
  destruct (Xml.prop (Xml.elem0 lists) "Item") as [[items|]|]; try constructor.
  pose proof (forEach_from_events (λ _, cb) P (λ _, Hcb) items 0) as Hev.
  unfold Xml.forEach. by destruct (Xml.forEach_from (λ _, cb) 0 items) as [[? ?] ?].
Qed.

Lemma upd_events st f : (Xml.upd st f).1.2 = st.1.2.
Proof.
  destruct st as [[item evs] [e|]]; [done|]. simpl. by destruct (f item).
Qed.

Lemma say_events st msg (P : event → Prop) :
  Forall P st.1.2 → P (Console LLog msg) → Forall P (Xml.say st msg).1.2.
Proof.
  destruct st as [[item evs] [e|]]; simpl; [done|].
  intros. apply Forall_app. split; [done|]. by constructor.
Qed.

Lemma rewriteVehicleItem_events spawnCodes vehicleData buildData name item :
  Forall (λ e, meta_event e = true)
    (rewriteVehicleItem spawnCodes vehicleData buildData name item).1.2.
Proof.
  unfold rewriteVehicleItem.
  destruct (dataRef_of buildData name); [|constructor].
  apply say_events; [|by vm_compute].
  cbn [foldl]. rewrite !upd_events. constructor.
Qed.

Lemma rewriteVariationItem_events spawnCodes name item :
  Forall (λ e, meta_event e = true)
    (rewriteVariationItem spawnCodes name item).1.2.
Proof.
  unfold rewriteVariationItem.
  apply say_events; [|by vm_compute]. rewrite upd_events. constructor.
Qed.

Lemma vehiclesDoc_events spawnCodes vehicleData buildData d :
  Forall (λ e, meta_event e = true)
    (Part000.vehiclesDoc spawnCodes vehicleData buildData d).1.2.
Proof.
  apply on_items_events. intros x. unfold Part000.vehicleItem.
  destruct (Part000.originalModelName_of x); [|constructor].
  destruct (truthy _); [apply rewriteVehicleItem_events | constructor].
Qed.

Lemma variationsDoc_events spawnCodes d :
  Forall (λ e, meta_event e = true) (Part000.variationsDoc spawnCodes d).1.2.
Proof.
  apply on_items_events. intros x. unfold Part000.variationItem.
  destruct (Part000.originalModelName_of x); [|constructor].
  destruct (truthy _); [apply rewriteVariationItem_events | constructor].
Qed.

(** A round of [updateMetaFiles]: the exception of the rewrite goes
    through, and the file is written only when there is none. *)
Lemma rewriteFile_run rewrite (f : metaFile) (w : world) :
  Part000.rewriteFile rewrite f w =
    match rewrite (contents f) with
    | (d, evs, Some e) =>
        ({| files := files w; trace := trace w ++ evs |}, Throw e)
    | (d, evs, None) =>
        ({| files := <[path f := Part000.convertToCRLF (buildObject d)]> (files w);
            trace := (trace w ++ evs)
              ++ [Write (path f) (Part000.convertToCRLF (buildObject d))] |},
         Ret tt)
    end.
Proof.
  unfold Part000.rewriteFile.
  by destruct (rewrite (contents f)) as [[d evs] [e|]].
Qed.

Lemma rewriteFile_no_exit rewrite f : no_exit (Part000.rewriteFile rewrite f).
Proof.
  intros w w' st. rewrite rewriteFile_run.
  by destruct (rewrite (contents f)) as [[d evs] [e|]].
Qed.

Lemma rewriteFile_emits rewrite f :
  (∀ d, Forall (λ e, meta_event e = true) (rewrite d).1.2) →
  emits (λ e, meta_event e = true) (Part000.rewriteFile rewrite f).
Proof.
  intros Hev w w' r. rewrite rewriteFile_run. specialize (Hev (contents f)).
  destruct (rewrite (contents f)) as [[d evs] [e|]]; intros [= <- _]; simpl in *.
  - eauto.
  - exists (evs ++ [Write (path f) (Part000.convertToCRLF (buildObject d))]).
    rewrite app_assoc. split; [done|]. apply Forall_app. split; [done|].
    by constructor.
Qed.

Lemma updateMetaFiles_no_exit vehiclesArray carvarArray spawnCodes vehicleData buildData :
  no_exit (Part000.updateMetaFiles vehiclesArray carvarArray spawnCodes
             vehicleData buildData).
Proof.
  unfold Part000.updateMetaFiles. apply no_exit_bind; [|intros _];
    apply no_exit_for_each; intros; apply rewriteFile_no_exit.
Qed.

Lemma updateMetaFiles_emits vehiclesArray carvarArray spawnCodes vehicleData buildData :
  emits (λ e, meta_event e = true)
    (Part000.updateMetaFiles vehiclesArray carvarArray spawnCodes
       vehicleData buildData).
Proof.
  unfold Part000.updateMetaFiles. apply emits_bind; [|intros _];
    apply emits_for_each; intros; apply rewriteFile_emits; intros.
  - apply vehiclesDoc_events.
  - apply variationsDoc_events.
Qed.














End Steps.


Section MoreSteps.
Import Eff Run Shared.
Context `{Libraries}.

(** The lines [updateUlcFile] prints for the entries of the mapping. *)
Lemma replaced_lines_run (spawnCodes : obj string) (w : world) :
  for_each (λ e : string * string,
              console LLog ("Replaced " +:+ e.1 +:+ " with " +:+ e.2))
    spawnCodes w
  = ({| files := files w;
        trace := trace w
          ++ ((λ e : string * string,
                 Console LLog ("Replaced " +:+ e.1 +:+ " with " +:+ e.2))
                <$> spawnCodes) |}, Ret tt).
Proof.
  revert w. induction spawnCodes as [|e sc IH]; intros w.
  - simpl. unfold ret. rewrite app_nil_r. by destruct w.
  - cbn [for_each]. unfold bind at 1, console, emit. rewrite IH. simpl.
    by rewrite <- app_assoc.
Qed.

(** [updateUlcFile] of the later revision, case by case: a missing script
    is a warning and nothing else; a script that is there is replaced by
    its rewritten text. *)
Lemma updateUlcFile_run (ulcFilePath : string) (spawnCodes : obj string) (w : world) :
  Part000.updateUlcFile ulcFilePath spawnCodes w =
    match files w !! ulcFilePath with
    | None =>
        ({| files := files w;
            trace := (trace w ++ [Console LLog "Updating ULC script..."])
              ++ [Console LWarn ("ULC file not found: " +:+ ulcFilePath)] |},
         Ret tt)
    | Some ulcContent =>
        ({| files := <[ulcFilePath := Part000.rewriteUlc ulcContent spawnCodes]>
                       (files w);
            trace := (((trace w ++ [Console LLog "Updating ULC script..."])
              ++ ((λ e : string * string,
                     Console LLog ("Replaced " +:+ e.1 +:+ " with " +:+ e.2))
                    <$> spawnCodes))
              ++ [Write ulcFilePath (Part000.rewriteUlc ulcContent spawnCodes)])
              ++ [Console LLog "ULC script updated successfully."] |},
         Ret tt)
    end.
Proof.
  unfold Part000.updateUlcFile, bind at 1, console at 1, emit.
  unfold bind at 1, existsSync. simpl.
  destruct (files w !! ulcFilePath) as [c|] eqn:E.
  - rewrite bool_decide_true by eauto.
    unfold bind at 1, readFileSync. simpl. rewrite E.
    unfold bind at 1. rewrite replaced_lines_run. done.
  - rewrite bool_decide_false by (by intros [? ?]). done.
Qed.

Lemma updateUlcFile_returns ulcFilePath (spawnCodes : obj string) :
  returns (Part000.updateUlcFile ulcFilePath spawnCodes).
Proof.
  intros w. rewrite updateUlcFile_run. destruct (files w !! ulcFilePath); eauto.
Qed.

Lemma updateUlcFile_emits ulcFilePath (spawnCodes : obj string) :
  emits (λ e, ulc_event e = true) (Part000.updateUlcFile ulcFilePath spawnCodes).
Proof.
  intros w w' r. rewrite updateUlcFile_run.
  destruct (files w !! ulcFilePath) as [c|]; intros [= <- _]; simpl.
  - eexists. rewrite <- !app_assoc. split; [done|].
    apply Forall_cons. split; [by vm_compute|].
    apply Forall_app. split.
    + apply Forall_fmap, Forall_forall. intros e _. by vm_compute.
    + repeat constructor; by vm_compute.
  - eexists. rewrite <- !app_assoc. split; [done|].
    repeat constructor; by vm_compute.
Qed.

(** What the modification-kit callbacks print. *)
Lemma kitItem_events prefix ki ii item :
  Forall (λ e, modkit_event e = true) (Part000.kitItem prefix ki ii item).1.2.
Proof.
  unfold Part000.kitItem.
  destruct (Xml.prop item "kitName") as [[?|]|];
    destruct (Xml.prop item "id") as [[ids|]|]; try constructor.
  destruct (Part000.kit_id ids) as [[? ?]|]; [|constructor].
  repeat constructor; by vm_compute.
Qed.

Lemma modkitsDoc_events prefix d :
  Forall (λ e, modkit_event e = true) (Part000.modkitsDoc prefix d).1.2.
Proof.
  unfold Part000.modkitsDoc.
  destruct (Xml.root_field d "CVehicleModelInfoVarGlobal") as [[s|a t ch|k|]|];
    try constructor.
  destruct (own ch "Kits") as [kits|]; [|constructor].
  assert (Hkit : ∀ ki kit, Forall (λ e, modkit_event e = true)
                               (Part000.kitsElement prefix ki kit).1.2);
    [|pose proof (forEach_from_events (Part000.kitsElement prefix)
                    (λ e, modkit_event e = true) Hkit kits 0) as Hev;
      by destruct (Xml.forEach_from (Part000.kitsElement prefix) 0 kits)
        as [[? ?] ?]].
  intros ki kit. unfold Part000.kitsElement.
  destruct (Xml.prop kit "Item") as [[items|]|]; try constructor.
  pose proof (forEach_from_events (Part000.kitItem prefix ki)
                (λ e, modkit_event e = true)
                (kitItem_events prefix ki) items 0) as Hev'.
  by destruct (Xml.forEach_from (Part000.kitItem prefix ki) 0 items) as [[? ?] ?].
Qed.

(** One round of [fixModkits]: whatever the [try] block did, the document
    it left is written and the round ends normally. *)
Lemma fixModkitsFile_run prefix (f : metaFile) (w : world) :
  Part000.fixModkitsFile prefix f w =
    match Part000.modkitsDoc prefix (contents f) with
    | (d, evs, err) =>
        ({| files := <[path f := Part000.convertToCRLF (buildObject d)]> (files w);
            trace := trace w
              ++ [Console LLog ("Processing file: " +:+ path f)]
              ++ evs
              ++ match err with
                 | Some e =>
                     [ Console LLog ("Error processing file: " +:+ path f);
                       Console LError (err_to_string e) ]
                 | None => []
                 end
              ++ [ Console LLog ("Writing updated file: " +:+ path f);
                   Write (path f) (Part000.convertToCRLF (buildObject d));
                   Console LLog ("Successfully wrote updated file: " +:+ path f) ] |},
         Ret tt)
    end.
Proof.
  unfold Part000.fixModkitsFile.
  destruct (Part000.modkitsDoc prefix (contents f)) as [[d evs] [e|]];
    unfold bind, console, emit, emit_all, writeFileSync, ret; simpl;
    rewrite <- ?app_assoc; simpl; by rewrite <- ?app_assoc.
Qed.

Lemma fixModkitsFile_returns prefix f : returns (Part000.fixModkitsFile prefix f).
Proof.
  intros w. rewrite fixModkitsFile_run.
  destruct (Part000.modkitsDoc prefix (contents f)) as [[d evs] err]. eauto.
Qed.

Lemma fixModkits_returns carcolArray prefix :
  returns (Part000.fixModkits carcolArray prefix).
Proof. apply returns_for_each. intros; apply fixModkitsFile_returns. Qed.

Lemma fixModkitsFile_emits prefix f :
  emits (λ e, modkit_event e = true) (Part000.fixModkitsFile prefix f).
Proof.
  intros w w' r. rewrite fixModkitsFile_run.
  pose proof (modkitsDoc_events prefix (contents f)) as Hev.
  destruct (Part000.modkitsDoc prefix (contents f)) as [[d evs] err].
  intros [= <- _]. simpl in *. eexists. split; [done|].
  apply Forall_cons. split; [by vm_compute|].
  apply Forall_app. split; [done|]. apply Forall_app. split.
  - destruct err; repeat constructor; by vm_compute.
  - repeat constructor; by vm_compute.
Qed.

Lemma fixModkits_emits carcolArray prefix :
  emits (λ e, modkit_event e = true) (Part000.fixModkits carcolArray prefix).
Proof. apply emits_for_each. intros; apply fixModkitsFile_emits. Qed.

End MoreSteps.


(* ===================================================================== *)
(** ** A whole run of the later revision *)
(* ===================================================================== *)

Section Main.
Import Eff Run Shared.
Context `{Libraries}.

Lemma finishes_last (P : event → Prop) (c : M unit) :
  emits P c → no_exit c →
  finishes P (bind c (λ _, console LLog "Processing completed successfully.")).
Proof.
  intros Hc Hne w w' r. unfold bind.
  destruct (c w) as [w1 [[]|e|st]] eqn:E.
  - intros [= <- <-]. destruct (Hc _ _ _ E) as (evs & Ht & HP).
    exists evs. simpl. by rewrite Ht.
  - intros [= <- <-]. by apply (Hc _ _ _ E).
  - by apply Hne in E.
Qed.

Lemma finishes_bind {A : Type} (P : event → Prop) (c : M A) (k : A → M unit) :
  emits P c → no_exit c → (∀ a, finishes P (k a)) → finishes P (bind c k).
Proof.
  intros Hc Hne Hk w w' r. unfold bind.
  destruct (c w) as [w1 [a|e|st]] eqn:E.
  - destruct (Hc _ _ _ E) as (evs & Ht & HP).
    intros E'. specialize (Hk a _ _ _ E').
    destruct r as [[]|e|st].
    + destruct Hk as (evs' & Ht' & HP'). exists (evs ++ evs').
      rewrite Ht', Ht, app_assoc. split; [done|]. by apply Forall_app.
    + destruct Hk as (evs' & Ht' & HP'). exists (evs ++ evs').
      rewrite Ht', Ht, app_assoc. split; [done|]. by apply Forall_app.
    + done.
  - intros [= <- <-]. by apply (Hc _ _ _ E).
  - by apply Hne in E.
Qed.

Lemma main_event_of (e : event) :
  load_event e = true ∨ generate_event e = true ∨ rename_event e = true
  ∨ meta_event e = true ∨ ulc_event e = true ∨ modkit_event e = true →
  main_event e = true.
Proof.
  unfold main_event. intros [->|[->|[->|[->|[->| ->]]]]];
    by rewrite ?orb_true_r.
Qed.

(** The steps the menu choice selects: they never exit, and they add only
    their own events. *)
Lemma selected_steps (s : Part000.session) (metaData : Part000.metaData)
    (buildData : BuildData.t) (spawnCodes : obj string) (c : M unit) :
  c = (if String.eqb (Part000.updateChoice s) "Update everything" then
         bind (FileRenamer.renameVehicleFiles (Part000.streamFolder s) spawnCodes)
           (λ _, bind (Part000.updateMetaFiles (Part000.vehicles metaData)
                         (Part000.carvariations metaData) spawnCodes
                         (BuildData.data buildData) (BuildData.vehicles buildData))
           (λ _, bind (Part000.updateUlcFile (Part000.ulcFilePath s) spawnCodes)
           (λ _, Part000.fixModkits (Part000.carcols metaData)
                   (Some (Part000.selectedPrefix s)))))
       else if String.eqb (Part000.updateChoice s) "Update only spawn codes" then
         FileRenamer.renameVehicleFiles (Part000.streamFolder s) spawnCodes
       else if String.eqb (Part000.updateChoice s) "Update only meta files" then
         Part000.updateMetaFiles (Part000.vehicles metaData)
           (Part000.carvariations metaData) spawnCodes
           (BuildData.data buildData) (BuildData.vehicles buildData)
       else if String.eqb (Part000.updateChoice s) "Update only ULC" then
         Part000.updateUlcFile (Part000.ulcFilePath s) spawnCodes
       else if String.eqb (Part000.updateChoice s) "Update only modkits" then
         Part000.fixModkits (Part000.carcols metaData)
           (Some (Part000.selectedPrefix s))
       else console LLog "Invalid choice!") →
  emits (λ e, main_event e = true) c ∧ no_exit c.
Proof.
  intros ->.
  assert (Hr : emits (λ e, main_event e = true)
                 (FileRenamer.renameVehicleFiles (Part000.streamFolder s) spawnCodes))
    by (eapply emits_impl; [|apply renameVehicleFiles_emits];
        intros e He; apply main_event_of; auto 10).
  assert (Hm : emits (λ e, main_event e = true)
                 (Part000.updateMetaFiles (Part000.vehicles metaData)
                    (Part000.carvariations metaData) spawnCodes
                    (BuildData.data buildData) (BuildData.vehicles buildData)))
    by (eapply emits_impl; [|apply updateMetaFiles_emits];
        intros e He; apply main_event_of; auto 10).
  assert (Hu : emits (λ e, main_event e = true)
                 (Part000.updateUlcFile (Part000.ulcFilePath s) spawnCodes))
    by (eapply emits_impl; [|apply updateUlcFile_emits];
        intros e He; apply main_event_of; auto 10).
  assert (Hk : emits (λ e, main_event e = true)
                 (Part000.fixModkits (Part000.carcols metaData)
                    (Some (Part000.selectedPrefix s))))
    by (eapply emits_impl; [|apply fixModkits_emits];
        intros e He; apply main_event_of; auto 10).
  assert (Nr := returns_no_exit _
                  (renameVehicleFiles_returns (Part000.streamFolder s) spawnCodes)).
  assert (Nm := updateMetaFiles_no_exit (Part000.vehicles metaData)
                  (Part000.carvariations metaData) spawnCodes
                  (BuildData.data buildData) (BuildData.vehicles buildData)).
  assert (Nu := returns_no_exit _
                  (updateUlcFile_returns (Part000.ulcFilePath s) spawnCodes)).
  assert (Nk := returns_no_exit _
                  (fixModkits_returns (Part000.carcols metaData)
                     (Some (Part000.selectedPrefix s)))).
  repeat case_match;
    (split;
     [ first [ assumption
             | repeat (apply emits_bind; [assumption|intros _]); assumption
             | apply emits_console; by vm_compute ]
     | first [ assumption
             | repeat (apply no_exit_bind; [assumption|intros _]); assumption
             | apply returns_no_exit, returns_console ] ]).
Qed.

(** What follows the loading of the manifest in [main]. *)
Lemma after_load (s : Part000.session) (buildData : BuildData.t) :
  finishes (λ e, main_event e = true)
    (bind (match Part000.findMetaFiles s with
           | inl m => ret m
           | inr e => throw e
           end)
       (λ metaData,
          bind (generate (BuildData.vehicles buildData))
            (λ spawnCodes,
               bind
                 (if String.eqb (Part000.updateChoice s) "Update everything" then
                    bind (FileRenamer.renameVehicleFiles (Part000.streamFolder s) spawnCodes)
                      (λ _, bind (Part000.updateMetaFiles (Part000.vehicles metaData)
                                    (Part000.carvariations metaData) spawnCodes
                                    (BuildData.data buildData) (BuildData.vehicles buildData))
                      (λ _, bind (Part000.updateUlcFile (Part000.ulcFilePath s) spawnCodes)
                      (λ _, Part000.fixModkits (Part000.carcols metaData)
                              (Some (Part000.selectedPrefix s)))))
                  else if String.eqb (Part000.updateChoice s) "Update only spawn codes" then
                    FileRenamer.renameVehicleFiles (Part000.streamFolder s) spawnCodes
                  else if String.eqb (Part000.updateChoice s) "Update only meta files" then
                    Part000.updateMetaFiles (Part000.vehicles metaData)
                      (Part000.carvariations metaData) spawnCodes
                      (BuildData.data buildData) (BuildData.vehicles buildData)
                  else if String.eqb (Part000.updateChoice s) "Update only ULC" then
                    Part000.updateUlcFile (Part000.ulcFilePath s) spawnCodes
                  else if String.eqb (Part000.updateChoice s) "Update only modkits" then
                    Part000.fixModkits (Part000.carcols metaData)
                      (Some (Part000.selectedPrefix s))
                  else console LLog "Invalid choice!")
                 (λ _, console LLog "Processing completed successfully.")))).
Proof.
  apply finishes_bind.
  - destruct (Part000.findMetaFiles s); [apply emits_ret | apply emits_throw].
  - destruct (Part000.findMetaFiles s); [apply no_exit_ret | apply no_exit_throw].
  - intros metaData. apply finishes_bind.
    + eapply emits_impl; [|apply generate_emits].
      intros e He; apply main_event_of; auto 10.
    + apply returns_no_exit, generate_returns.
    + intros spawnCodes.
      destruct (selected_steps s metaData buildData spawnCodes _ eq_refl).
      by apply finishes_last.
Qed.

Lemma main_event_not_completion (evs : list event) :
  Forall (λ e, main_event e = true) evs → completion ∉ evs.
Proof.
  intros Hall Hin. by apply (proj1 (Forall_forall _ _) Hall) in Hin.
Qed.

End Main.


(* ===================================================================== *)
(** ** Modification kits, structural mismatches and the end of a run *)
(* ===================================================================== *)

Section KitFixup.
Import Eff Part000.
Context `{Libraries}.

(** The callbacks of [fixModkits] print with [console.log] only. *)
Lemma modkitsDoc_logs prefix d :
  Forall (λ e, ∃ m, e = Console LLog m) (modkitsDoc prefix d).1.2.
Proof.
  assert (Hitem : ∀ ki ii item,
            Forall (λ e, ∃ m, e = Console LLog m) (kitItem prefix ki ii item).1.2).
  { intros ki ii item. unfold kitItem.
    destruct (Xml.prop item "kitName") as [[?|]|];
      destruct (Xml.prop item "id") as [[ids|]|]; try constructor.
    destruct (kit_id ids) as [[? ?]|]; [|constructor].
    repeat constructor; eauto. }
  assert (Hkit : ∀ ki kit,
            Forall (λ e, ∃ m, e = Console LLog m) (kitsElement prefix ki kit).1.2).
  { intros ki kit. unfold kitsElement.
    destruct (Xml.prop kit "Item") as [[items|]|]; try constructor.
    pose proof (forEach_from_events (kitItem prefix ki) _ (Hitem ki) items 0) as Hev.
    by destruct (Xml.forEach_from (kitItem prefix ki) 0 items) as [[? ?] ?]. }
  unfold modkitsDoc.
  destruct (Xml.root_field d "CVehicleModelInfoVarGlobal") as [[s|a t ch|k|]|];
    try constructor.
  destruct (own ch "Kits") as [l|]; [|constructor].
  pose proof (forEach_from_events (kitsElement prefix) _ Hkit l 0) as Hev.
  by destruct (Xml.forEach_from (kitsElement prefix) 0 l) as [[? ?] ?].
Qed.

(** [fixModkits] on an array of documents: it ends normally; every file of
    the array is written with the document its [try] block left; a caught
    exception is printed with the file it belongs to; no other file is
    touched; and when the paths are distinct every file holds at the end
    what was written to it. *)
Lemma fixModkits_effects (carcolArray : list metaFile) (prefix : option string) :
  ∀ w, ∃ w' evs,
    fixModkits carcolArray prefix w = (w', Ret tt)
    ∧ trace w' = trace w ++ evs
    ∧ (∀ p, p ∉ path <$> carcolArray → files w' !! p = files w !! p)
    ∧ (NoDup (path <$> carcolArray) →
       ∀ f, f ∈ carcolArray →
         files w' !! path f
         = Some (convertToCRLF (buildObject (modkitsDoc prefix (contents f)).1.1)))
    ∧ ((∀ f, f ∈ carcolArray → (modkitsDoc prefix (contents f)).2 = None) →
       ∀ m, Console LError m ∉ evs)
    ∧ ∀ f, f ∈ carcolArray →
        Write (path f)
          (convertToCRLF (buildObject (modkitsDoc prefix (contents f)).1.1)) ∈ evs
        ∧ (∃ before after,
             evs = before
               ++ [Console LLog ("Processing file: " +:+ path f)]
               ++ (modkitsDoc prefix (contents f)).1.2
               ++ match (modkitsDoc prefix (contents f)).2 with
                  | Some e =>
                      [ Console LLog ("Error processing file: " +:+ path f);
                        Console LError (err_to_string e) ]
                  | None => []
                  end
               ++ [ Console LLog ("Writing updated file: " +:+ path f);
                    Write (path f)
                      (convertToCRLF
                         (buildObject (modkitsDoc prefix (contents f)).1.1));
                    Console LLog ("Successfully wrote updated file: " +:+ path f) ]
               ++ after)
        ∧ ∀ e, (modkitsDoc prefix (contents f)).2 = Some e →
               Console LLog ("Error processing file: " +:+ path f) ∈ evs
               ∧ Console LError (err_to_string e) ∈ evs.
Proof.
  unfold fixModkits.
  induction carcolArray as [|f l IH]; intros w.
  - exists w, []. rewrite app_nil_r. split_and!; try done.
    + intros _ f Hf. by apply elem_of_nil in Hf.
    + intros _ m Hm. by apply elem_of_nil in Hm.
    + intros f Hf. by apply elem_of_nil in Hf.
  - cbn [for_each]. unfold bind. rewrite fixModkitsFile_run.
    destruct (modkitsDoc prefix (contents f)) as [[d evs] err] eqn:E.
    match goal with |- context [for_each _ l ?w1] =>
      destruct (IH w1) as (w' & evs' & -> & Ht & Hframe & Hfiles & Hquiet & Hall) end.
    cbn [trace files] in Ht, Hframe.
    eexists w', _. split; [done|]. split; [by rewrite Ht, <- app_assoc|].
    split_and!.
    + intros p Hp. rewrite fmap_cons in Hp.
      apply not_elem_of_cons in Hp as [Hp1 Hp2].
      rewrite Hframe by done. by rewrite lookup_insert_ne.
    + intros Hnd g Hg. rewrite fmap_cons in Hnd.
      apply NoDup_cons in Hnd as [Hf Hnd].
      apply elem_of_cons in Hg as [->|Hg]; [|by apply Hfiles].
      rewrite Hframe by done. rewrite E. by rewrite lookup_insert_eq.
    + intros Hnone m Hm.
      pose proof (Hnone f ltac:(left)) as Hf. rewrite E in Hf. cbn [snd] in Hf.
      subst err. pose proof (modkitsDoc_logs prefix (contents f)) as Hp.
      rewrite E in Hp. cbn [fst snd] in Hp.
      rewrite !elem_of_app in Hm. destruct Hm as [[Hm|[Hm|[Hm|Hm]]]|Hm].
      * by apply list_elem_of_singleton in Hm.
      * rewrite Forall_forall in Hp. by destruct (Hp _ Hm).
      * by apply elem_of_nil in Hm.
      * repeat (apply elem_of_cons in Hm as [Hm|Hm]; [done|]).
        by apply elem_of_nil in Hm.
      * apply (Hquiet (λ g Hg, Hnone g ltac:(by right)) m Hm).
    + intros g [->|Hg]%elem_of_cons.
      * rewrite E. cbn [fst snd]. split_and!.
        -- rewrite !elem_of_app. left. do 3 right. right. left.
        -- exists [], evs'. by rewrite app_nil_l, <- !app_assoc.
        -- intros e ->. rewrite !elem_of_app.
           split; left; do 2 right; left; [left | right; left].
      * destruct (Hall g Hg) as (Hw & (before & after & Hs) & He). clear Hall.
        split_and!.
        -- apply elem_of_app. by right.
        -- rewrite Hs. rewrite (app_assoc _ before).
           by eexists _, after.
        -- intros e He'. destruct (He e He').
           split; apply elem_of_app; by right.
Qed.

(** The elements of [Kits] after the [try] block. *)
Lemma modkitsDoc_kits prefix d d' evs err :
  modkitsDoc prefix d = (d', evs, err) → XUndefined ∉ kits d → XUndefined ∉ kits d'.
Proof.
  unfold modkitsDoc.
  destruct (Xml.root_field d "CVehicleModelInfoVarGlobal") as [r|] eqn:Hr;
    [|by intros [= <- _ _]].
  destruct r as [s|a t ch|k|]; try by intros [= <- _ _].
  destruct (own ch "Kits") as [l|] eqn:Hk; [|by intros [= <- _ _]].
  destruct (Xml.forEach_from _ 0 l) as [[l' e1] err'] eqn:Hf.
  intros [= <- _ _]. rewrite (kits_of d a t ch l Hr Hk). cbn [Xml.with_child].
  assert (Hd' : kits {| rootName := rootName d;
                        root := XElem a t (put ch "Kits" l') |} = l').
  { unfold kits, Xml.root_field in *. cbn [rootName root].
    destruct (String.eqb (rootName d) "CVehicleModelInfoVarGlobal"); [|done].
    by rewrite own_put_same. }
  rewrite Hd'. clear Hd' Hk Hr. revert l' e1 err' Hf. generalize 0.
  induction l as [|x l IH]; intros i l' e1 err' Hf; simpl in Hf.
  - by injection Hf as <- _ _.
  - intros Hx. apply not_elem_of_cons in Hx as [Hx Hl].
    assert (Hkit : (kitsElement prefix i x).1.1 ≠ XUndefined).
    { unfold kitsElement. destruct x as [s|a' t' ch'|k|]; try done. simpl.
      destruct (own ch' "Item") as [items|]; [|done].
      by destruct (Xml.forEach_from _ 0 items) as [[? ?] ?]. }
    destruct (kitsElement prefix i x) as [[x' e2] [e|]].
    + injection Hf as <- _ _. apply not_elem_of_cons. split; [|done].
      by intros <-.
    + destruct (Xml.forEach_from _ (S i) l) as [[r' e3] err''] eqn:Hr.
      injection Hf as <- _ _. apply not_elem_of_cons. split; [by intros <-|].
      by eapply IH.
Qed.

End KitFixup.

(** C5 (as stated, refuted).  A [carcols.meta] with three kit items, the
    second of which carries its identifier as text instead of the [value]
    attribute.  The fixup with prefix [3] prefixes the first item, fails
    on the second, and never reaches the third: the file it writes has
    the identifiers [342], [9] and [7], so the kit item [spoiler] with
    identifier [7] has not received the prefix. *)
Lemma fixModkits_stops_at_malformed_item :
  let f := {| path := "/mod/build/meta/carcols.meta";
              contents := Sample.carcols
                [ Sample.kit "bumper" "42"; Sample.malformed_kit "roof" "9";
                  Sample.kit "spoiler" "7" ] |} in
  Part000.kit_value (Sample.kit "spoiler" "7") = Some "7"
  ∧ @Part000.fixModkits Sample.printer [f] (Some "3") Sample.world
    = ({| files :=
            <[path f :=
                Part000.convertToCRLF
                  (@buildObject Sample.printer
                     (Sample.carcols
                        [ Sample.kit "bumper" "342"; Sample.malformed_kit "roof" "9";
                          Sample.kit "spoiler" "7" ]))]> (files Sample.world);
          trace :=
            [ Console LLog "Processing file: /mod/build/meta/carcols.meta";
              Console LLog "Modifying kit ID: 42 (Kit 1, Item 1)";
              Console LLog "Updated kit ID: 342";
              Console LLog "Error processing file: /mod/build/meta/carcols.meta";
              Console LError
                "TypeError: Cannot read properties of undefined (reading 'value')";
              Console LLog "Writing updated file: /mod/build/meta/carcols.meta";
              Write "/mod/build/meta/carcols.meta"
                (Part000.convertToCRLF
                   (@buildObject Sample.printer
                      (Sample.carcols
                         [ Sample.kit "bumper" "342"; Sample.malformed_kit "roof" "9";
                           Sample.kit "spoiler" "7" ])));
              Console LLog
                "Successfully wrote updated file: /mod/build/meta/carcols.meta" ] |},
       Ret tt)
  ∧ @buildObject Sample.printer
      (Sample.carcols
         [ Sample.kit "bumper" "342"; Sample.malformed_kit "roof" "9";
           Sample.kit "spoiler" "7" ])
    = "<CVehicleModelInfoVarGlobal><Kits>"
      +:+ "<Item><kitName>bumper</kitName><id value='342'></id></Item>"
      +:+ "<Item><kitName>roof</kitName><id>9</id></Item>"
      +:+ "<Item><kitName>spoiler</kitName><id value='7'></id></Item>"
      +:+ "</Kits></CVehicleModelInfoVarGlobal>".
Proof. split_and!; vm_compute; reflexivity. Qed.

(** C5 (amended).  On documents that [fixModkits] can walk to the end
    (no hole in [Kits], and every kit item has a [kitName] and an [id]
    whose first element carries the [value] attribute), the fixup ends
    normally, catches no exception and writes every file of the array;
    the document written to a file is the one the [try] block left, and
    the identifier values of its kit items are, in order, the prefix
    followed by the value the item had, by string concatenation.  No
    spawn code mapping is an argument of the function.  The written
    document can be walked to the end again, so a second application puts
    the prefix in front once more: [42] becomes [342], and [342] becomes
    [3342]. *)
Theorem fixModkits_prefixes `{Libraries} (prefix : option string)
    (carcolArray : list metaFile) (w : world) :
  Forall (λ f, (XUndefined ∉ Part000.kits (contents f))
               ∧ Forall (λ item, is_Some (Part000.kit_value item))
                   (Part000.kit_items (contents f))) carcolArray →
  ∃ w' evs,
    Part000.fixModkits carcolArray prefix w = (w', Ret tt)
    ∧ trace w' = trace w ++ evs
    ∧ (∀ m, Console LError m ∉ evs)
    ∧ ∀ f, f ∈ carcolArray →
        let d' := (Part000.modkitsDoc prefix (contents f)).1.1 in
        Write (path f) (Part000.convertToCRLF (buildObject d')) ∈ evs
        ∧ (NoDup (path <$> carcolArray) →
           files w' !! path f = Some (Part000.convertToCRLF (buildObject d')))
        ∧ Part000.kit_value <$> Part000.kit_items d'
          = (λ item, (λ v, default "" prefix +:+ v) <$> Part000.kit_value item)
              <$> Part000.kit_items (contents f)
        ∧ (XUndefined ∉ Part000.kits d')
        ∧ Forall (λ item, is_Some (Part000.kit_value item)) (Part000.kit_items d').
Proof.
  intros Hall. rewrite Forall_forall in Hall.
  destruct (fixModkits_effects carcolArray prefix w)
    as (w' & evs & Hrun & Ht & _ & Hfiles & Hquiet & Hevs).
  assert (Hdoc : ∀ f, f ∈ carcolArray →
            ∃ d' e1, Part000.modkitsDoc prefix (contents f) = (d', e1, None)
              ∧ Part000.kit_items d'
                = (λ item, (Part000.kitItem prefix 0 0 item).1.1)
                    <$> Part000.kit_items (contents f)).
  { intros f Hf. destruct (Hall f Hf) as [Hu Hv].
    by apply modkitsDoc_well_formed. }
  exists w', evs. split_and!; [done | done | |].
  - apply Hquiet. intros f Hf. by destruct (Hdoc f Hf) as (d' & e1 & -> & _).
  - intros f Hf. destruct (Hall f Hf) as [Hu Hv].
    destruct (Hevs f Hf) as (Hw & _ & _).
    pose proof (λ Hnd, Hfiles Hnd f Hf) as Hfile. clear Hfiles.
    destruct (Hdoc f Hf) as (d' & e1 & E & Hitems).
    rewrite E in *. cbn [fst] in *. cbn zeta.
    assert (Hvals : Part000.kit_value <$> Part000.kit_items d'
                    = (λ item, (λ v, default "" prefix +:+ v)
                                 <$> Part000.kit_value item)
                        <$> Part000.kit_items (contents f))
      by (rewrite Hitems; by apply kit_values_prefixed).
    split_and!; [done | done | done | |].
    + by eapply modkitsDoc_kits.
    + apply Forall_forall. intros item Hitem.
      apply (list_elem_of_fmap_2 Part000.kit_value) in Hitem.
      rewrite Hvals in Hitem.
      apply list_elem_of_fmap in Hitem as (item0 & -> & Hitem0).
      rewrite Forall_forall in Hv. destruct (Hv item0 Hitem0) as [v ->].
      by eexists.
Qed.

Lemma fixModkits_prefixes_witness :
  let f := {| path := "/mod/build/meta/carcols.meta";
              contents := Sample.carcols [Sample.kit "bumper" "42"] |} in
  let g := {| path := "/mod/build/meta/fixed/carcols.meta";
              contents := Sample.carcols [Sample.kit "bumper" "342"] |} in
  Forall (λ f, (XUndefined ∉ Part000.kits (contents f))
               ∧ Forall (λ item, is_Some (Part000.kit_value item))
                   (Part000.kit_items (contents f))) [f; g]
  ∧ (∃ w' evs,
      @Part000.fixModkits Sample.printer [f; g] (Some "3") Sample.world = (w', Ret tt)
      ∧ trace w' = trace Sample.world ++ evs
      ∧ (∀ m, Console LError m ∉ evs)
      ∧ ∀ f0, f0 ∈ [f; g] →
          let d' := (Part000.modkitsDoc (Some "3") (contents f0)).1.1 in
          Write (path f0) (Part000.convertToCRLF (@buildObject Sample.printer d')) ∈ evs
          ∧ (NoDup (path <$> [f; g]) →
             files w' !! path f0
             = Some (Part000.convertToCRLF (@buildObject Sample.printer d')))
          ∧ Part000.kit_value <$> Part000.kit_items d'
            = (λ item, (λ v, default "" (Some "3") +:+ v) <$> Part000.kit_value item)
                <$> Part000.kit_items (contents f0)
          ∧ (XUndefined ∉ Part000.kits d')
          ∧ Forall (λ item, is_Some (Part000.kit_value item)) (Part000.kit_items d'))
  ∧ (λ item, (λ v, default "" (Some "3") +:+ v) <$> Part000.kit_value item)
      <$> Part000.kit_items (contents f) = [Some "342"]
  ∧ (λ item, (λ v, default "" (Some "3") +:+ v) <$> Part000.kit_value item)
      <$> Part000.kit_items (contents g) = [Some "3342"]
  ∧ (Part000.modkitsDoc (Some "3") (contents f)).1.1 = contents g
  ∧ files (@Part000.fixModkits Sample.printer [f; g] (Some "3") Sample.world).1
      !! path f
    = Some ("<CVehicleModelInfoVarGlobal><Kits>"
            +:+ "<Item><kitName>bumper</kitName><id value='342'></id></Item>"
            +:+ "</Kits></CVehicleModelInfoVarGlobal>")
  ∧ files (@Part000.fixModkits Sample.printer [f; g] (Some "3") Sample.world).1
      !! path g
    = Some ("<CVehicleModelInfoVarGlobal><Kits>"
            +:+ "<Item><kitName>bumper</kitName><id value='3342'></id></Item>"
            +:+ "</Kits></CVehicleModelInfoVarGlobal>").
Proof.
  intros f g.
  assert (Hwf : Forall (λ f, (XUndefined ∉ Part000.kits (contents f))
               ∧ Forall (λ item, is_Some (Part000.kit_value item))
                   (Part000.kit_items (contents f))) [f; g]).
  { repeat constructor; try (by eexists); vm_compute; set_solver. }
  split; [exact Hwf|].
  split; [exact (@fixModkits_prefixes Sample.printer (Some "3") [f; g] Sample.world Hwf)|].
  split_and!; vm_compute; reflexivity.
Defined.

(** C10.  A document of the array whose kit items are, in the order the
    loops visit them, items with an identifier value, then an item whose
    [id] element has no attributes, then any items: [fixModkits] ends
    normally; the read of the attribute-less item throws, and the
    exception is caught and printed under the file's name; after that
    the document is serialized and written to its file.  The document
    written is the one the [try] block left: the items before the failing
    one carry the prefix, the failing item and the items after it are as
    they were. *)
Theorem fixModkits_partial_write `{Libraries} (prefix : option string)
    (carcolArray : list metaFile) (f : metaFile) (w : world)
    (pre post : list xml) (bad : xml) :
  f ∈ carcolArray →
  XUndefined ∉ Part000.kits (contents f) →
  Part000.kit_items (contents f) = pre ++ bad :: post →
  Forall (λ item, is_Some (Part000.kit_value item)) pre →
  Part000.malformed bad = true →
  ∃ w' evs before printed after,
    let d' := (Part000.modkitsDoc prefix (contents f)).1.1 in
    Part000.fixModkits carcolArray prefix w = (w', Ret tt)
    ∧ trace w' = trace w ++ evs
    ∧ evs = before
        ++ [Console LLog ("Processing file: " +:+ path f)]
        ++ printed
        ++ [ Console LLog ("Error processing file: " +:+ path f);
             Console LError (err_to_string (Xml.undefined_read "value")) ]
        ++ [ Console LLog ("Writing updated file: " +:+ path f);
             Write (path f) (Part000.convertToCRLF (buildObject d'));
             Console LLog ("Successfully wrote updated file: " +:+ path f) ]
        ++ after
    ∧ (NoDup (path <$> carcolArray) →
       files w' !! path f = Some (Part000.convertToCRLF (buildObject d')))
    ∧ Part000.kit_items d'
      = ((λ item, (Part000.kitItem prefix 0 0 item).1.1) <$> pre) ++ bad :: post
    ∧ Part000.kit_value <$> Part000.kit_items d'
      = ((λ item, (λ v, default "" prefix +:+ v) <$> Part000.kit_value item) <$> pre)
        ++ (Part000.kit_value <$> bad :: post).
Proof.
  intros Hf Hundef Hitems Hpre Hbad.
  destruct (fixModkits_effects carcolArray prefix w)
    as (w' & evs & Hrun & Ht & _ & Hfiles & _ & Hevs).
  destruct (Hevs f Hf) as (_ & (before & after & Hs) & _).
  destruct (modkitsDoc_malformed prefix (contents f) pre bad post
              Hundef Hitems Hpre Hbad) as (d' & printed & E & Hd').
  rewrite E in Hs. cbn [fst snd] in Hs.
  exists w', evs, before, printed, after. rewrite E. cbn [fst]. cbn zeta.
  split_and!; [done | done | done | | done |].
  - intros Hnd. rewrite (Hfiles Hnd f Hf). by rewrite E.
  - by rewrite Hd', fmap_app, kit_values_prefixed.
Qed.

Lemma fixModkits_partial_write_witness :
  let f := {| path := "/mod/build/meta/carcols.meta";
              contents := Sample.carcols
                [ Sample.kit "bumper" "42"; Sample.malformed_kit "roof" "9";
                  Sample.kit "spoiler" "7" ] |} in
  let g := {| path := "/mod/build/meta/extra/carcols.meta";
              contents := Sample.carcols [Sample.kit "hood" "5"] |} in
  let pre := [Sample.kit "bumper" "42"] in
  let bad := Sample.malformed_kit "roof" "9" in
  let post := [Sample.kit "spoiler" "7"] in
  (f ∈ [f; g]
   ∧ (XUndefined ∉ Part000.kits (contents f))
   ∧ Part000.kit_items (contents f) = pre ++ bad :: post
   ∧ Forall (λ item, is_Some (Part000.kit_value item)) pre
   ∧ Part000.malformed bad = true)
  ∧ (∃ w' evs before printed after,
      let d' := (Part000.modkitsDoc (Some "3") (contents f)).1.1 in
      @Part000.fixModkits Sample.printer [f; g] (Some "3") Sample.world = (w', Ret tt)
      ∧ trace w' = trace Sample.world ++ evs
      ∧ evs = before
          ++ [Console LLog ("Processing file: " +:+ path f)]
          ++ printed
          ++ [ Console LLog ("Error processing file: " +:+ path f);
               Console LError (err_to_string (Xml.undefined_read "value")) ]
          ++ [ Console LLog ("Writing updated file: " +:+ path f);
               Write (path f) (Part000.convertToCRLF (@buildObject Sample.printer d'));
               Console LLog ("Successfully wrote updated file: " +:+ path f) ]
          ++ after
      ∧ (NoDup (path <$> [f; g]) →
         files w' !! path f
         = Some (Part000.convertToCRLF (@buildObject Sample.printer d')))
      ∧ Part000.kit_items d'
        = ((λ item, (Part000.kitItem (Some "3") 0 0 item).1.1) <$> pre) ++ bad :: post
      ∧ Part000.kit_value <$> Part000.kit_items d'
        = ((λ item, (λ v, default "" (Some "3") +:+ v) <$> Part000.kit_value item)
             <$> pre)
          ++ (Part000.kit_value <$> bad :: post))
  ∧ ((λ item, (λ v, default "" (Some "3") +:+ v) <$> Part000.kit_value item) <$> pre)
      ++ (Part000.kit_value <$> bad :: post)
    = [Some "342"; None; Some "7"]
  ∧ files (@Part000.fixModkits Sample.printer [f; g] (Some "3") Sample.world).1
      !! path f
    = Some ("<CVehicleModelInfoVarGlobal><Kits>"
            +:+ "<Item><kitName>bumper</kitName><id value='342'></id></Item>"
            +:+ "<Item><kitName>roof</kitName><id>9</id></Item>"
            +:+ "<Item><kitName>spoiler</kitName><id value='7'></id></Item>"
            +:+ "</Kits></CVehicleModelInfoVarGlobal>")
  ∧ files (@Part000.fixModkits Sample.printer [f; g] (Some "3") Sample.world).1
      !! path g
    = Some ("<CVehicleModelInfoVarGlobal><Kits>"
            +:+ "<Item><kitName>hood</kitName><id value='35'></id></Item>"
            +:+ "</Kits></CVehicleModelInfoVarGlobal>").
Proof.
  intros f g pre bad post.
  assert (H1 : f ∈ [f; g]) by left.
  assert (H2 : XUndefined ∉ Part000.kits (contents f)) by (vm_compute; set_solver).
  assert (H3 : Part000.kit_items (contents f) = pre ++ bad :: post)
    by (vm_compute; reflexivity).
  assert (H4 : Forall (λ item, is_Some (Part000.kit_value item)) pre)
    by (repeat constructor; by eexists).
  assert (H5 : Part000.malformed bad = true) by (vm_compute; reflexivity).
  split; [by split_and!|].
  split; [exact (@fixModkits_partial_write Sample.printer (Some "3") [f; g] f
                   Sample.world pre post bad H1 H2 H3 H4 H5)|].
  split_and!; vm_compute; reflexivity.
Defined.


Section EndOfRun.
Import Eff Run Shared.
Context `{Libraries}.

(** [main] once the manifest is loaded. *)
Lemma main_loaded (s : Part000.session) (w : world) (content : string)
    (buildData : BuildData.t) :
  files w !! Part000.buildYamlPath s = Some content →
  yaml_load content = inl buildData →
  ∀ w' r, Part000.main s w = (w', r) →
    match r with
    | Ret _ =>
        ∃ evs, trace w' = (trace w ++ evs) ++ [completion]
               ∧ Forall (λ e, main_event e = true) evs
    | Throw _ =>
        ∃ evs, trace w' = trace w ++ evs ∧ Forall (λ e, main_event e = true) evs
    | Exit _ => False
    end.
Proof.
  intros Hf Hy w' r. unfold Part000.main, bind at 1.
  rewrite loadYaml_run, Hf, Hy. intros E.
  pose proof (after_load s buildData _ _ _ E) as Hfin. simpl in Hfin.
  clear E.
  assert (Hload : Forall (λ e, main_event e = true)
            [ Console LLog ("Loading YAML file: " +:+ Part000.buildYamlPath s);
              Console LLog "YAML file loaded successfully." ])
    by (repeat (apply Forall_cons; split; [by vm_compute|]); constructor).
  destruct r as [[]|e|st]; [| |done].
  - destruct Hfin as (evs & Ht & HP).
    exists ([ Console LLog ("Loading YAML file: " +:+ Part000.buildYamlPath s);
              Console LLog "YAML file loaded successfully." ] ++ evs).
    split; [|by apply Forall_app].
    rewrite Ht. cbn [app]. by rewrite <- !app_assoc.
  - destruct Hfin as (evs & Ht & HP).
    exists ([ Console LLog ("Loading YAML file: " +:+ Part000.buildYamlPath s);
              Console LLog "YAML file loaded successfully." ] ++ evs).
    split; [|by apply Forall_app].
    rewrite Ht. cbn [app]. by rewrite <- !app_assoc.
Qed.

(** [main] when the manifest cannot be loaded. *)
Lemma main_load_failure (s : Part000.session) (w : world) :
  files w !! Part000.buildYamlPath s = None
  ∨ (∃ content e, files w !! Part000.buildYamlPath s = Some content
                  ∧ yaml_load content = inr e) →
  ∃ w', Part000.main s w = (w', Exit 1)
        ∧ loadYaml (Part000.buildYamlPath s) w = (w', Exit 1)
        ∧ files w' = files w
        ∧ ∃ msg, last (trace w')
                 = Some (Console LError ("Failed to load YAML: " +:+ msg)).
Proof.
  intros Hfail. unfold Part000.main, bind at 1. rewrite loadYaml_run.
  destruct Hfail as [-> | (content & e & -> & ->)].
  - eexists. split; [done|]. split; [done|]. split; [done|].
    eexists. cbn [trace]. by rewrite last_snoc.
  - eexists. split; [done|]. split; [done|]. split; [done|].
    eexists. cbn [trace]. by rewrite last_snoc.
Qed.

End EndOfRun.

(** C7 (as stated, refuted).  The manifest loads, the mode is
    [Update only meta files], and the [vehicles.meta] that was found has
    no [InitDatas] element: [main] ends by the exception of the rewrite,
    which no step catches, the top-level handler prints it, and the
    process ends with exit status 0. *)
Lemma run_uncaught_failure_exit_status :
  let found :=
    {| Part000.vehicles :=
         [{| path := "/mod/build/meta/vehicles.meta";
             contents := Sample.broken_vehicles |}];
       Part000.carvariations := [];
       Part000.carcols := [] |} in
  let s := Sample.session "Update only meta files" found in
  (@Part000.main Sample.libraries s Sample.world).2
    = Throw (TypeError "Cannot read properties of undefined (reading '0')")
  ∧ (@Part000.run Sample.libraries s Sample.world).2 = 0
  ∧ last (trace (@Part000.run Sample.libraries s Sample.world).1)
    = Some (Console LError
              "Error: Cannot read properties of undefined (reading '0')").
Proof. split_and!; vm_compute; reflexivity. Qed.

(** C7 (amended).  A run ends in one of three ways.  If the manifest
    cannot be read or parsed, the process exits at once with status 1: the
    run is the run of [loadYaml], whose last line reports the failure.  If
    an exception escapes [main], the top-level handler prints it and the
    process ends with status 0, and the completion line is not printed.
    Otherwise the process ends with status 0 and the completion line is
    the last line printed. *)
Theorem run_exit_status `{Libraries} (s : Part000.session) (w : world) :
  match Part000.main s w with
  | (w', Exit status) =>
      status = 1 ∧ Part000.run s w = (w', 1)
      ∧ Shared.loadYaml (Part000.buildYamlPath s) w = (w', Exit 1)
      ∧ ∃ msg, last (trace w')
               = Some (Console LError ("Failed to load YAML: " +:+ msg))
  | (w', Throw err) =>
      Part000.run s w
      = ({| files := files w';
            trace := trace w' ++ [Console LError ("Error: " +:+ err_message err)] |},
         0)
      ∧ ∃ evs, trace w' = trace w ++ evs ∧ Run.completion ∉ evs
  | (w', Ret _) =>
      Part000.run s w = (w', 0)
      ∧ ∃ evs, trace w' = (trace w ++ evs) ++ [Run.completion]
               ∧ Run.completion ∉ evs
  end
  ∧ (files w !! Part000.buildYamlPath s = None
     ∨ (∃ content e, files w !! Part000.buildYamlPath s = Some content
                     ∧ yaml_load content = inr e) →
     (Part000.run s w).2 = 1 ∧ files (Part000.run s w).1 = files w).
Proof.
  split.
  - destruct (files w !! Part000.buildYamlPath s) as [content|] eqn:Hf;
      [destruct (yaml_load content) as [buildData|e] eqn:Hy|].
    + pose proof (main_loaded s w content buildData Hf Hy) as Hmain.
      unfold Part000.run.
      destruct (Part000.main s w) as [w' [[]|err|st]] eqn:E;
        specialize (Hmain _ _ eq_refl); [| |done].
      * destruct Hmain as (evs & Ht & HP). split; [done|].
        exists evs. split; [done|]. by apply main_event_not_completion.
      * destruct Hmain as (evs & Ht & HP). split; [done|].
        exists evs. split; [done|]. by apply main_event_not_completion.
    + destruct (main_load_failure s w) as (w' & Hm & Hl & _ & Hlast);
        [right; eauto|].
      unfold Part000.run. rewrite Hm. done.
    + destruct (main_load_failure s w) as (w' & Hm & Hl & _ & Hlast);
        [by left|].
      unfold Part000.run. rewrite Hm. done.
  - intros Hfail.
    destruct (main_load_failure s w Hfail) as (w' & Hm & Hl & Hfiles & _).
    unfold Part000.run. rewrite Hm. done.
Qed.

Lemma run_exit_status_witness :
  let s := Sample.session "Update everything"
             {| Part000.vehicles := []; Part000.carvariations := [];
                Part000.carcols := [] |} in
  let w := {| files := ∅; trace := [] |} in
  (@Part000.run Sample.libraries s w).2 = 1
  ∧ files (@Part000.run Sample.libraries s w).1 = files w.
Proof.
  intros s w. apply (proj2 (@run_exit_status Sample.libraries s w)).
  left. vm_compute. reflexivity.
Defined.


Section Mismatch.
Import Eff Run Shared.
Context `{Libraries}.

Lemma generate_run (vehicleEntries : obj vehicleEntry) (w : world) :
  generate vehicleEntries w
  = ({| files := files w;
        trace := (trace w ++ [Console LLog "Auto-incrementing spawn codes..."])
          ++ [Console LLog "Spawn codes generated successfully."] |},
     Ret (CodeGenerator.autoIncrementSpawnCodes vehicleEntries)).
Proof. reflexivity. Qed.




End Mismatch.




(* ===================================================================== *)
(** * Further properties of the code *)
(* ===================================================================== *)

(** ** The code generator *)

Lemma autoIncrementSpawnCodes_plain_witness :
  let m : obj vehicleEntry :=
    [ ("carA", {| code := "XYZ#"; data := "sedan" |});
      ("oldcar", {| code := "ABC"; data := "coupe" |});
      ("carB", {| code := "XYZ#"; data := "sedan" |}) ] in
  autoIncrementSpawnCodes m = expected_codes [] m
  ∧ keys (autoIncrementSpawnCodes m) = keys m
  ∧ ∀ b, group_codes b m (autoIncrementSpawnCodes m) =
           (λ i, b +:+ pretty (N.of_nat i)) <$> seq 1 (occurrences b (bases m)).
Proof.
  intros m. apply (autoIncrementSpawnCodes_plain m).
  - apply (bool_decide_unpack _). vm_compute. exact I.
  - unfold plain_keys. apply (bool_decide_unpack _). vm_compute. exact I.
Defined.

Lemma stripPlaceholder_marker (s : string) : stripPlaceholder (s +:+ "#") = s.
Proof.
  induction s as [|c s IH]; [done|].
  rewrite app_cons. destruct s as [|c' s].
  - reflexivity.
  - rewrite app_cons in *.
    change (String c (stripPlaceholder (String c' (s +:+ "#"))) = String c (String c' s)).
    by rewrite IH.
Qed.

Lemma stripPlaceholder_none (s : string) :
  (∀ t, s ≠ t +:+ "#") → stripPlaceholder s = s.
Proof.
  induction s as [|c s IH]; [done|]. intros Hno.
  destruct s as [|c' s].
  - cbn [stripPlaceholder]. destruct (Ascii.eqb_spec c "#") as [->|]; [|done].
    by destruct (Hno "").
  - change (String c (stripPlaceholder (String c' s)) = String c (String c' s)).
    rewrite IH; [done|]. intros t Ht. apply (Hno (String c t)).
    by rewrite app_cons, <- Ht.
Qed.

(** X2.  The base group key: a code that ends in the marker [#] loses exactly
    that one character, any other code is its own base key; so the codes
    [ABC] and [ABC#] count in the same group. *)
Theorem baseKey_marker (s d : string) :
  baseKey {| code := s +:+ "#"; data := d |} = s
  ∧ ((∀ t, s ≠ t +:+ "#") → baseKey {| code := s; data := d |} = s).
Proof.
  split; [apply stripPlaceholder_marker | apply stripPlaceholder_none].
Qed.

Lemma baseKey_marker_witness :
  baseKey {| code := "ABC#" +:+ "#"; data := "sedan" |} = "ABC#"
  ∧ baseKey {| code := "ABC"; data := "sedan" |} = "ABC".
Proof.
  split.
  - apply (proj1 (baseKey_marker "ABC#" "sedan")).
  - apply (proj2 (baseKey_marker "ABC" "sedan")).
    intros t Ht. destruct t as [|a [|b [|c [|? ?]]]]; vm_compute in Ht; discriminate.
Defined.

(** ** The script rewriter *)

Lemma rewriteUlc_unquoted_unchanged_witness :
  Part000.rewriteUlc "local cars = { oldcar, mycarA }"
    [("oldcar", "ABC1"); ("carA", "XYZ1")]
  = "local cars = { oldcar, mycarA }".
Proof.
  apply rewriteUlc_unquoted_unchanged.
  apply (bool_decide_unpack _). vm_compute. exact I.
Defined.

Lemma contains_char_quoted (x : string) :
  contains_char "$" x = false → contains_char "$" (quoted x) = false.
Proof.
  intros Hx. unfold quoted. cbn [contains_char].
  replace (Ascii.eqb "$" dquote) with false by (vm_compute; reflexivity).
  simpl. induction x as [|c x IH]; [by vm_compute|].
  cbn [contains_char] in *. rewrite app_cons. cbn [contains_char].
  apply orb_false_elim in Hx as [-> Hx]. simpl. by apply IH.
Qed.

Lemma starts_with_quoted_other (k : string) (c : ascii) (s : string) :
  Ascii.eqb dquote c = false → starts_with (quoted k) (String c s) = false.
Proof. intros Hc. unfold quoted. cbn [starts_with]. by rewrite Hc. Qed.

Lemma includes_unquoted (k s : string) :
  contains_char dquote s = false → includes (quoted k) s = false.
Proof.
  induction s as [|c s IH]; [done|]. cbn [contains_char].
  intros [Hc Hs]%orb_false_elim. cbn [includes].
  by rewrite starts_with_quoted_other, IH.
Qed.

Lemma indexOf_after_unquoted (k pre post : string) :
  contains_char dquote pre = false →
  indexOf (quoted k) (pre +:+ quoted k +:+ post) = Some (String.length pre).
Proof.
  induction pre as [|c pre IH]; intros Hpre.
  - rewrite app_empty_l. pose proof (starts_with_app (quoted k) post) as Hs.
    unfold quoted in *. rewrite app_cons in *. cbn [indexOf]. by rewrite Hs.
  - cbn [contains_char] in Hpre. apply orb_false_elim in Hpre as [Hc Hpre].
    rewrite app_cons. cbn [indexOf].
    rewrite starts_with_quoted_other by done. by rewrite IH.
Qed.

Lemma take_length_app (a b : string) : take (String.length a) (a +:+ b) = a.
Proof. induction a as [|c a IH]; [by destruct b|]. rewrite app_cons. simpl. by rewrite IH. Qed.

Lemma drop_length_app (a b c : string) :
  drop (String.length a + String.length b) (a +:+ b +:+ c) = c.
Proof.
  induction a as [|x a IH]; [rewrite app_empty_l; apply drop_app|].
  rewrite app_cons. simpl. apply IH.
Qed.

(** One substitution on a script with a single quoted occurrence. *)
Lemma replaceAll_quoted_once (k v pre post : string) :
  contains_char dquote pre = false → contains_char dquote post = false →
  contains_char "$" v = false →
  replaceAll (pre +:+ quoted k +:+ post) (quoted k) (quoted v)
  = pre +:+ quoted v +:+ post.
Proof.
  intros Hpre Hpost Hv.
  rewrite (replaceAll_first (quoted k) (quoted v) (contains_char_quoted v Hv)
             (quoted_nonempty k) _ _ (indexOf_after_unquoted k pre post Hpre)).
  rewrite take_length_app, drop_length_app.
  rewrite replaceAll_absent; [done | apply quoted_nonempty |].
  by apply includes_unquoted.
Qed.

(** X16.  The substitutions are applied one after the other, each to the
    text the earlier ones produced: when the new code of one entry is the
    original identifier of a later entry, a quoted occurrence of the first
    identifier ends up as the later entry's code. *)
Theorem rewriteUlc_cascade (k v v' pre post : string) :
  contains_char dquote pre = false → contains_char dquote post = false →
  contains_char "$" v = false → contains_char "$" v' = false →
  Part000.rewriteUlc (pre +:+ quoted k +:+ post) [(k, v); (v, v')]
  = pre +:+ quoted v' +:+ post.
Proof.
  intros Hpre Hpost Hv Hv'. unfold Part000.rewriteUlc. cbn [fold_left fst snd].
  rewrite replaceAll_quoted_once by done.
  by rewrite replaceAll_quoted_once by done.
Qed.

Lemma rewriteUlc_cascade_witness :
  Part000.rewriteUlc ("spawn(" +:+ quoted "a" +:+ ")") [("a", "b1"); ("b1", "c1")]
  = "spawn(" +:+ quoted "c1" +:+ ")".
Proof.
  apply rewriteUlc_cascade; vm_compute; reflexivity.
Defined.


(** A doubled dollar sign in the replacement text is a pattern of
    [replaceAll] and stands for a single one. *)
Lemma getSubstitution_dollar (matched before after a b : string) :
  contains_char "$" a = false → contains_char "$" b = false →
  getSubstitution matched before after (a +:+ "$$" +:+ b) = a +:+ "$" +:+ b.
Proof.
  intros Ha Hb. induction a as [|c a IH].
  - rewrite !app_empty_l. change ("$$" +:+ b) with (String "$" (String "$" b)).
    change ("$" +:+ b) with (String "$" b).
    cbn [getSubstitution]. rewrite !Ascii.eqb_refl.
    by rewrite getSubstitution_plain.
  - rewrite !app_cons. cbn [contains_char] in Ha.
    apply orb_false_elim in Ha as [Hc Ha]. rewrite Ascii.eqb_sym in Hc.
    cbn [getSubstitution]. rewrite Hc. f_equal. exact (IH Ha).
Qed.

Lemma getSubstitution_quoted_dollar (matched before after a b : string) :
  contains_char "$" a = false → contains_char "$" b = false →
  getSubstitution matched before after (quoted (a +:+ "$$" +:+ b))
  = quoted (a +:+ "$" +:+ b).
Proof.
  intros Ha Hb. unfold quoted.
  change (String dquote ((a +:+ "$$" +:+ b) +:+ String dquote ""))
    with (String dquote "" +:+ ((a +:+ "$$" +:+ b) +:+ String dquote "")).
  rewrite !str_app_assoc.
  rewrite <- (str_app_assoc (String dquote "") a).
  rewrite getSubstitution_dollar.
  - by rewrite !str_app_assoc.
  - rewrite app_cons, app_empty_l. cbn [contains_char]. by rewrite Ha.
  - clear Ha. induction b as [|c b IH]; [by vm_compute|].
    rewrite app_cons. cbn [contains_char] in *.
    apply orb_false_elim in Hb as [-> Hb]. by apply IH.
Qed.

(** One substitution on a script with a single quoted occurrence, the
    replacement text being read as a pattern. *)
Lemma replaceAll_go_quoted_once (k repl pre post : string) :
  contains_char dquote pre = false → contains_char dquote post = false →
  ∀ seen, ∃ before,
    replaceAll_go (quoted k) repl seen 0 (pre +:+ quoted k +:+ post)
    = pre +:+ getSubstitution (quoted k) before post repl +:+ post.
Proof.
  intros Hpre Hpost. induction pre as [|c pre IH]; intros seen.
  - exists (String.rev seen). rewrite !app_empty_l.
    pose proof (starts_with_app (quoted k) post) as Hs.
    pose proof (drop_app (quoted k) post) as Hd.
    destruct (quoted k +:+ post) as [|c r] eqn:E;
      [unfold quoted in E; rewrite app_cons in E; discriminate|].
    cbn [replaceAll_go]. rewrite Hs, Hd.
    assert (Hr : ∃ p, quoted k = String c p ∧ r = p +:+ post).
    { unfold quoted in *. rewrite app_cons in E. injection E as <- <-. eauto. }
    destruct Hr as (p & Hq & ->). rewrite Hq. f_equal.
    destruct (replaceAll_go_skip (String c p) repl (String.length p)
                (p +:+ post) (String c seen) ltac:(done)) as [seen' ->].
    rewrite drop_app. apply replaceAll_go_absent; [done|].
    rewrite <- Hq. by apply includes_unquoted.
  - cbn [contains_char] in Hpre. apply orb_false_elim in Hpre as [Hc Hpre].
    rewrite !app_cons. cbn [replaceAll_go].
    rewrite starts_with_quoted_other by done.
    destruct (IH Hpre (String c seen)) as [before ->]. eauto.
Qed.

(** X17.  The new code is read as a replacement pattern: a doubled dollar
    sign in it comes out as a single one in the script. *)
Theorem rewriteUlc_doubled_dollar (k a b pre post : string) :
  contains_char dquote pre = false → contains_char dquote post = false →
  contains_char "$" a = false → contains_char "$" b = false →
  Part000.rewriteUlc (pre +:+ quoted k +:+ post) [(k, a +:+ "$$" +:+ b)]
  = pre +:+ quoted (a +:+ "$" +:+ b) +:+ post.
Proof.
  intros Hpre Hpost Ha Hb. unfold Part000.rewriteUlc. cbn [fold_left fst snd].
  unfold replaceAll.
  destruct (replaceAll_go_quoted_once k (quoted (a +:+ "$$" +:+ b)) pre post
              Hpre Hpost "") as [before ->].
  by rewrite getSubstitution_quoted_dollar.
Qed.

Lemma rewriteUlc_doubled_dollar_witness :
  Part000.rewriteUlc ("spawn(" +:+ quoted "oldcar" +:+ ")")
    [("oldcar", "CA" +:+ "$$" +:+ "H1")]
  = "spawn(" +:+ quoted ("CA" +:+ "$" +:+ "H1") +:+ ")".
Proof.
  apply rewriteUlc_doubled_dollar; vm_compute; reflexivity.
Defined.

(* ===================================================================== *)
(** ** The metadata rewriter *)
(* ===================================================================== *)

Lemma vehicleItem_case_insensitive_witness :
  ∃ item',
    Part000.vehicleItem [("oldcar", "ABC1")]
      (BuildData.data Sample.buildData) (BuildData.vehicles Sample.buildData)
      (Sample.vehicle "OldCar")
    = (item',
       [Console LLog ("Updated vehicles.meta for " +:+ toLowerCase "OldCar")],
       None)
    ∧ Xml.first_of item' "modelName" = Some (XText "ABC1")
    ∧ Xml.first_of item' "txdName" = Some (XText "ABC1")
    ∧ Xml.first_of item' "gameName" = Some (XText "ABC1")
    ∧ Xml.first_of item' "handlingId" = Some (XText "SEDAN")
    ∧ Xml.first_of item' "audioNameHash" = Some (XText "SEDAN_AUDIO").
Proof.
  apply (vehicleItem_case_insensitive [("oldcar", "ABC1")]
           (BuildData.data Sample.buildData) (BuildData.vehicles Sample.buildData)
           None None _ "OldCar" [] "ABC1"
           {| code := "ABC#"; data := "sedan" |}
           {| handling := "SEDAN"; audio := "SEDAN_AUDIO" |});
    try (vm_compute; eauto; done); done.
Defined.


Section MetaFiles.
Import Eff Shared.
Context `{Libraries}.
Implicit Types (spawnCodes : obj string) (vehicleData : obj template)
  (buildData : obj vehicleEntry) (item : xml) (d : document).

Lemma lower_char_idem (c : ascii) : lower_char (lower_char c) = lower_char c.
Proof. destruct c as [[] [] [] [] [] [] [] []]; vm_compute; reflexivity. Qed.

Lemma toLowerCase_idem (s : string) : toLowerCase (toLowerCase s) = toLowerCase s.
Proof.
  induction s as [|c s IH]; [done|]. cbn [toLowerCase].
  by rewrite lower_char_idem, IH.
Qed.

Lemma originalModelName_lower item name :
  Part000.originalModelName_of item = inl name → toLowerCase name = name.
Proof.
  unfold Part000.originalModelName_of.
  destruct (Xml.prop item "modelName") as [[arr|]|]; try done.
  destruct (Xml.elem0 arr); try done.
  intros [= <-]. apply toLowerCase_idem.
Qed.

Lemma own_filter {V : Type} (P : string → Prop) `{∀ k, Decision (P k)}
    (o : obj V) (k : string) :
  P k → own (filter (λ e, P e.1) o) k = own o k.
Proof.
  intros Hk. unfold obj in *. induction o as [|[k' v] o IH]; [done|].
  destruct (decide (P k')) as [Hp|Hp].
  - rewrite filter_cons_True by done. simpl. by rewrite IH.
  - rewrite filter_cons_False by done. simpl.
    destruct (String.eqb_spec k' k) as [->|]; [done|]. apply IH.
Qed.

(** X11.  The later revision looks an item's identifier up in lower case,
    so an entry of the mapping whose key is not all lower case has no
    part in what [updateMetaFiles] does to an item: both callbacks give
    the same result on the mapping and on the mapping without those
    entries. *)
Theorem updateMetaFiles_upper_case_keys spawnCodes vehicleData buildData item :
  let lower := filter (λ e, toLowerCase e.1 = e.1) spawnCodes in
  Part000.vehicleItem spawnCodes vehicleData buildData item
  = Part000.vehicleItem lower vehicleData buildData item
  ∧ Part000.variationItem spawnCodes item = Part000.variationItem lower item.
Proof.
  intros lower. unfold Part000.vehicleItem, Part000.variationItem.
  destruct (Part000.originalModelName_of item) as [name|e] eqn:Hn; [|done].
  apply originalModelName_lower in Hn.
  assert (Hget : get lower name = get spawnCodes name).
  { unfold get, lower. f_equal.
    exact (own_filter (λ k, toLowerCase k = k) spawnCodes name Hn). }
  unfold rewriteVehicleItem, rewriteVariationItem. by rewrite Hget.
Qed.






End MetaFiles.



(* ===================================================================== *)
(** ** From the manifest to the documents *)
(* ===================================================================== *)

Lemma pretty_N_go_nonempty (x : N) : ∀ s, s ≠ "" → pretty_N_go x s ≠ "".
Proof.
  induction (N.lt_wf_0 x) as [x _ IH]; intros s Hs.
  destruct (decide (x = 0)%N) as [->|Hx]; [by rewrite pretty_N_go_0|].
  rewrite pretty_N_go_step by lia.
  apply IH; [apply N.div_lt; lia | done].
Qed.

Lemma code_nonempty (b : string) (n : nat) : b +:+ pretty (N.of_nat (S n)) ≠ "".
Proof.
  assert (Hp : pretty (N.of_nat (S n)) ≠ "").
  { unfold pretty, pretty_N. case_decide; [done|].
    rewrite pretty_N_go_step by lia. by apply pretty_N_go_nonempty. }
  destruct b; [by rewrite app_empty_l | by rewrite app_cons].
Qed.

Lemma expected_codes_own (m : obj vehicleEntry) (k : string) (e : vehicleEntry) :
  ∀ earlier, own m k = Some e →
    ∃ n, own (expected_codes earlier m) k
         = Some (baseKey e +:+ pretty (N.of_nat (S n))).
Proof.
  induction m as [|[k' e'] m IH]; intros earlier; simpl; [done|].
  destruct (String.eqb k' k); [|apply IH].
  intros [= ->]. eauto.
Qed.

(** X13.  The generator and the metadata rewriter of the later revision
    together: on a manifest with ordinary keys, an item of
    [carvariations.meta] whose identifier is ASCII text that, lower-cased,
    is a key of the manifest gets that entry's base group key followed by
    a positive number as its new identifier. *)
Theorem generated_code_reaches_item (m : obj vehicleEntry) a t ch s rest e :
  is_ascii s = true →
  NoDup (keys m) → plain_keys m →
  own ch "modelName" = Some (XText s :: rest) →
  own m (toLowerCase s) = Some e →
  ∃ n,
    Part000.variationItem (autoIncrementSpawnCodes m) (XElem a t ch)
    = (XElem a t
         (put ch "modelName"
            (XText (baseKey e +:+ pretty (N.of_nat (S n))) :: rest)),
       [Console LLog ("Updated carvariations.meta for " +:+ toLowerCase s)],
       None).
Proof.
  intros _ Hnd Hplain Hm He.
  rewrite autoIncrement_expected by done.
  destruct (expected_codes_own m _ e [] He) as [n Hn].
  exists n. apply variationItem_case_insensitive; [done | done |].
  apply code_nonempty.
Qed.

Lemma generated_code_reaches_item_witness :
  ∃ n,
    Part000.variationItem
      (autoIncrementSpawnCodes
         [ ("carb", {| code := "XYZ#"; data := "sedan" |});
           ("oldcar", {| code := "XYZ"; data := "sedan" |}) ])
      (XElem None None [("modelName", [XText "OldCar"])])
    = (XElem None None
         (put [("modelName", [XText "OldCar"])] "modelName"
            (XText (baseKey {| code := "XYZ"; data := "sedan" |}
                    +:+ pretty (N.of_nat (S n))) :: [])),
       [Console LLog ("Updated carvariations.meta for " +:+ toLowerCase "OldCar")],
       None).
Proof.
  apply (generated_code_reaches_item
           [ ("carb", {| code := "XYZ#"; data := "sedan" |});
             ("oldcar", {| code := "XYZ"; data := "sedan" |}) ]
           None None [("modelName", [XText "OldCar"])] "OldCar" []
           {| code := "XYZ"; data := "sedan" |}).
  - vm_compute. reflexivity.
  - apply (bool_decide_unpack _). vm_compute. exact I.
  - repeat (apply Forall_cons; split); try apply Forall_nil_2;
      try (vm_compute; reflexivity); done.
  - reflexivity.
  - vm_compute. reflexivity.
Defined.

(* ===================================================================== *)
(** ** Names the generator cannot map *)
(* ===================================================================== *)

Lemma keys_put (o : obj string) (k v : string) :
  ∀ x, x ∈ keys (put o k v) → x = k ∨ x ∈ keys o.
Proof.
  unfold keys. induction o as [|[k' v'] o IH]; intros x; simpl.
  - intros ?%list_elem_of_singleton. by left.
  - destruct (String.eqb_spec k' k) as [->|Hne]; simpl.
    + intros [->|Hx]%elem_of_cons; [by left | right; by right].
    + intros [->|Hx]%elem_of_cons; [right; by left|].
      destruct (IH x Hx) as [->|Hin]; [by left | right; by right].
Qed.

Lemma keys_set_proto (o : obj string) (k v : string) :
  "__proto__" ∉ keys o → "__proto__" ∉ keys (set o k v).
Proof.
  intros Ho. unfold set.
  destruct (String.eqb_spec k "__proto__") as [->|Hne].
  - apply own_None_keys in Ho. by rewrite Ho, <- own_None_keys.
  - intros [Heq|Hin]%keys_put; [congruence | done].
Qed.

(** X3.  Whatever the manifest, the generated mapping has no entry for
    the identifier [__proto__]: the assignment [spawnCodes["__proto__"]]
    of a string stores nothing, so a vehicle of that name is left out of
    every later step. *)
Theorem autoIncrementSpawnCodes_proto_vehicle (m : obj vehicleEntry) :
  own (autoIncrementSpawnCodes m) "__proto__" = None.
Proof.
  apply own_None_keys. unfold autoIncrementSpawnCodes.
  assert (Hgen : ∀ st, "__proto__" ∉ keys st.2 →
            "__proto__" ∉ keys (fold_left step m st).2).
  { induction m as [|e m IH]; intros st Hst; [done|].
    simpl. apply IH. unfold step. cbn [snd]. by apply keys_set_proto. }
  apply Hgen. apply not_elem_of_nil.
Qed.


(* ===================================================================== *)
(** ** What the steps leave alone *)
(* ===================================================================== *)

Section Frames.
Import Eff FileRenamer Run Shared.
Context `{Libraries}.
Implicit Types (w : world) (folder : string).

Lemma renameOne_loop_frame folder vehicle spawnCode exts (p : string) : ∀ w,
  (∀ ext, ext ∈ exts →
     p ≠ path_join folder (vehicle +:+ ext)
     ∧ p ≠ path_join folder (spawnCode +:+ ext)) →
  files (for_each (renameOne folder vehicle spawnCode) exts w).1 !! p
  = files w !! p.
Proof.
  induction exts as [|ext exts IH]; intros w Hp; [done|].
  cbn [for_each]. unfold bind at 1. rewrite renameOne_run. cbv zeta.
  destruct (Hp ext ltac:(by left)) as [Ho Hn].
  destruct (files w !! path_join folder (vehicle +:+ ext)) as [c|] eqn:E.
  - rewrite IH by (intros e He; apply Hp; by right). simpl.
    rewrite lookup_insert_ne by done. by rewrite lookup_delete_ne.
  - by rewrite IH by (intros e He; apply Hp; by right).
Qed.

Lemma renameEntries_frame folder (spawnCodes : obj string) (p : string) : ∀ w,
  p ∉ old_names folder spawnCodes → p ∉ new_names folder spawnCodes →
  files (for_each (λ e : string * string,
                     for_each (renameOne folder e.1 e.2) patterns)
           spawnCodes w).1 !! p
  = files w !! p.
Proof.
  induction spawnCodes as [|[v c] sc IH]; intros w Ho Hn; [done|].
  change (p ∉ ((λ ext, path_join folder (v +:+ ext)) <$> patterns)
              ++ old_names folder sc) in Ho.
  change (p ∉ ((λ ext, path_join folder (c +:+ ext)) <$> patterns)
              ++ new_names folder sc) in Hn.
  apply not_elem_of_app in Ho as [Ho1 Ho2].
  apply not_elem_of_app in Hn as [Hn1 Hn2].
  cbn [for_each]. unfold bind at 1. cbn [fst snd].
  destruct (renameOne_loop folder v c patterns w) as (w1 & Hrun & _).
  pose proof (renameOne_loop_frame folder v c patterns p w) as Hf.
  rewrite Hrun in *. cbn [fst] in Hf. rewrite IH by done. apply Hf.
  intros ext Hext. split; intros ->.
  - apply Ho1, list_elem_of_fmap. eauto.
  - apply Hn1, list_elem_of_fmap. eauto.
Qed.

Lemma written_app (t1 t2 : list event) : written (t1 ++ t2) = written t1 ++ written t2.
Proof. unfold written. apply omap_app. Qed.

Lemma written_rename_events (evs : list event) :
  Forall (λ e, rename_event e = true) evs → written evs = [].
Proof.
  induction 1 as [|e evs He _ IH]; [done|].
  destruct e as [l m|o n|p c]; [exact IH | exact IH | done].
Qed.

(** X4.  The renamer touches only the files it is about.  When the
    stream folder is a resolved path, the original identifiers and the
    new codes are plain names (no path separator in them) and none of the
    old and new file names is a directory, a path that is neither an
    original identifier nor a new code followed by one of the four
    suffixes holds afterwards what it held before, and the renamer writes
    no file. *)
Theorem renameVehicleFiles_frame folder (spawnCodes : obj string) w (p : string) :
  resolved folder = true →
  plain_names spawnCodes →
  Forall (no_directory w)
    (old_names folder spawnCodes ++ new_names folder spawnCodes) →
  p ∉ old_names folder spawnCodes → p ∉ new_names folder spawnCodes →
  let w' := (renameVehicleFiles folder spawnCodes w).1 in
  files w' !! p = files w !! p ∧ written (trace w') = written (trace w).
Proof.
  intros _ _ _ Ho Hn w'. split.
  - subst w'. unfold renameVehicleFiles, bind at 1, console, emit.
    by rewrite renameEntries_frame.
  - subst w'.
    destruct (renameVehicleFiles folder spawnCodes w) as [w1 r] eqn:E.
    destruct (renameVehicleFiles_emits folder spawnCodes w w1 r E)
      as (evs & Ht & Hev).
    cbn [fst]. rewrite Ht, written_app, (written_rename_events _ Hev).
    by rewrite app_nil_r.
Qed.

(** X5.  [loadYaml] never throws: either the manifest is read and parsed
    and it returns the parsed value, or it prints the failure and ends the
    process with status 1; it changes no file.  When the file was read but
    did not parse, the line that announces a successful load has been
    printed before the failure. *)
Theorem loadYaml_outcomes (filePath : string) w :
  ∃ w', files w' = files w
    ∧ ((∃ content buildData,
          files w !! filePath = Some content
          ∧ yaml_load content = inl buildData
          ∧ loadYaml filePath w = (w', Ret buildData))
       ∨ (loadYaml filePath w = (w', Exit 1)
          ∧ (∃ msg, last (trace w')
                    = Some (Console LError ("Failed to load YAML: " +:+ msg)))
          ∧ (files w !! filePath = None
             ∨ ∃ content e,
                 files w !! filePath = Some content
                 ∧ yaml_load content = inr e
                 ∧ Console LLog "YAML file loaded successfully." ∈ trace w'))).
Proof.
  rewrite loadYaml_run.
  destruct (files w !! filePath) as [content|] eqn:Hf.
  - destruct (yaml_load content) as [b|e] eqn:Hy.
    + eexists. split; [|left; by eexists _, _]. done.
    + eexists. split; [|right; split_and!; [done| |]]; [done| |].
      * eexists. cbn [trace]. by rewrite last_snoc.
      * right. exists content, e. split_and!; [done|done|].
        cbn [trace]. set_solver.
  - eexists. split; [|right; split_and!; [done| |by left]]; [done|].
    eexists. cbn [trace]. by rewrite last_snoc.
Qed.

(** X18.  [updateUlcFile] of the later revision always returns, changes no
    file but the script, does not create the script when it is missing,
    and renames nothing. *)
Theorem updateUlcFile_frame (ulcFilePath : string) (spawnCodes : obj string) w :
  ∃ w', Part000.updateUlcFile ulcFilePath spawnCodes w = (w', Ret tt)
    ∧ (∀ p, p ≠ ulcFilePath → files w' !! p = files w !! p)
    ∧ (files w !! ulcFilePath = None → files w' = files w)
    ∧ renames (trace w') = renames (trace w).
Proof.
  rewrite updateUlcFile_run.
  destruct (files w !! ulcFilePath) as [c|] eqn:Hf.
  - eexists. split; [done|]. cbn [files trace]. split_and!.
    + intros p Hp. by rewrite lookup_insert_ne.
    + done.
    + rewrite !renames_app. cbn.
      assert (Hr : renames ((λ e : string * string,
                    Console LLog ("Replaced " +:+ e.1 +:+ " with " +:+ e.2))
                   <$> spawnCodes) = []).
      { clear. by induction spawnCodes. }
      rewrite Hr. by rewrite !app_nil_r.
  - eexists. split; [done|]. cbn [files trace]. split_and!; [done | done |].
    rewrite !renames_app. cbn. by rewrite !app_nil_r.
Qed.

End Frames.

Lemma renameVehicleFiles_frame_witness :
  let spawnCodes : obj string := [("oldcar", "ABC1")] in
  let w := {| files := {[ "/build/stream/oldcar.yft" := "model";
                          "/build/stream/notes.txt" := "keep" ]};
              trace := [] |} in
  let w' := (FileRenamer.renameVehicleFiles "/build/stream" spawnCodes w).1 in
  files w' !! "/build/stream/notes.txt" = files w !! "/build/stream/notes.txt"
  ∧ Run.written (trace w') = Run.written (trace w).
Proof.
  intros spawnCodes w.
  apply (renameVehicleFiles_frame "/build/stream" spawnCodes w
           "/build/stream/notes.txt").
  - vm_compute. reflexivity.
  - apply (bool_decide_unpack _). vm_compute. exact I.
  - apply (bool_decide_unpack _). vm_compute. exact I.
  - apply (bool_decide_unpack _). vm_compute. exact I.
  - apply (bool_decide_unpack _). vm_compute. exact I.
Defined.

Lemma updateUlcFile_frame_witness :
  ∃ w', Part000.updateUlcFile "/mod/build/ulc.lua" [("oldcar", "ABC1")] Sample.world
        = (w', Ret tt)
    ∧ files w' !! "/mod/build.yaml" = files Sample.world !! "/mod/build.yaml"
    ∧ files w' = files Sample.world
    ∧ FileRenamer.renames (trace w') = FileRenamer.renames (trace Sample.world).
Proof.
  destruct (updateUlcFile_frame "/mod/build/ulc.lua" [("oldcar", "ABC1")] Sample.world)
    as (w' & E & Hp & Hm & Hr).
  exists w'. split_and!; [exact E | | | exact Hr].
  - apply Hp. done.
  - apply Hm. vm_compute. reflexivity.
Defined.


(* ===================================================================== *)
(** ** Line ends *)
(* ===================================================================== *)

Section LineEnds.
Import Part000.

(** The first pass of [convertToCRLF], character by character. *)
Lemma line_feeds_cons (c : ascii) (s : string) :
  replaceAll (String c s) (String "010" "") (String "013" (String "010" ""))
  = (if Ascii.eqb c "010" then String "013" (String "010" "") else String c "")
    +:+ replaceAll s (String "010" "") (String "013" (String "010" "")).
Proof.
  unfold replaceAll. cbn [replaceAll_go starts_with].
  rewrite andb_true_r, (Ascii.eqb_sym "010" c).
  destruct (Ascii.eqb c "010") eqn:Hc.
  - rewrite getSubstitution_plain by (by vm_compute).
    cbn [String.length]. f_equal. by apply replaceAll_go_seen.
  - rewrite app_cons, app_empty_l. f_equal. by apply replaceAll_go_seen.
Qed.

Lemma line_feeds_crlf (s : string) : ∀ b,
  crlf_only b (replaceAll s (String "010" "") (String "013" (String "010" "")))
  = true.
Proof.
  induction s as [|c s IH]; intros b; [done|].
  rewrite line_feeds_cons. destruct (Ascii.eqb c "010") eqn:Hc.
  - rewrite !app_cons, app_empty_l. cbn [crlf_only].
    change (Ascii.eqb "013" "010") with false.
    change (Ascii.eqb "013" "013") with true.
    change (Ascii.eqb "010" "010") with true.
    change (Ascii.eqb "010" "013") with false.
    by rewrite IH.
  - rewrite app_cons, app_empty_l. cbn [crlf_only]. by rewrite Hc, IH.
Qed.

Lemma crlf_only_weaken (s : string) (b : bool) :
  crlf_only false s = true → crlf_only b s = true.
Proof.
  destruct s as [|c s]; [done|]. cbn [crlf_only].
  destruct (Ascii.eqb c "010"); [done|]. by destruct b.
Qed.

Lemma starts_with_split (p s : string) :
  starts_with p s = true → s = p +:+ drop (String.length p) s.
Proof.
  revert s. induction p as [|a p IH]; intros s; [done|].
  destruct s as [|c s]; [done|]. cbn [starts_with].
  intros [Hc Hp]%andb_prop. apply Ascii.eqb_eq in Hc as ->.
  rewrite app_cons. cbn [String.length drop]. f_equal. by apply IH.
Qed.

(** The second pass keeps line ends as they are: what it takes out has no
    line feed and no carriage return in it. *)
Lemma entities_crlf (s : string) : ∀ k seen b,
  (k = 0 → crlf_only b s = true) →
  (k ≠ 0 → crlf_only false (drop k s) = true) →
  crlf_only b (replaceAll_go "&#xD;" "" seen k s) = true.
Proof.
  induction s as [|c s IH]; intros k seen b H0 Hk.
  - destruct k; done.
  - destruct k as [|k].
    + specialize (H0 eq_refl). clear Hk. cbn [replaceAll_go].
      destruct (starts_with "&#xD;" (String c s)) eqn:Hsw.
      * change (getSubstitution "&#xD;" (String.rev seen)
                  (drop (String.length "&#xD;") (String c s)) "") with "".
        rewrite app_empty_l.
        apply starts_with_split in Hsw. rewrite Hsw in H0.
        apply IH; [done|]. intros _.
        change (String.length "#xD;") with 4.
        injection Hsw as -> Hs. rewrite Hs in H0 |- *.
        cbn [String.length drop] in H0 |- *.
        change ("&#xD;" +:+ drop 4 s)
          with (String "&" (String "#" (String "x" (String "D" (String ";"
                  (drop 4 s)))))) in H0.
        change ("#xD;" +:+ drop 4 s)
          with (String "#" (String "x" (String "D" (String ";" (drop 4 s))))).
        cbn [drop]. cbn [crlf_only] in H0.
        change (Ascii.eqb "&" "010") with false in H0.
        change (Ascii.eqb "#" "010") with false in H0.
        change (Ascii.eqb "x" "010") with false in H0.
        change (Ascii.eqb "D" "010") with false in H0.
        change (Ascii.eqb ";" "010") with false in H0.
        change (Ascii.eqb ";" "013") with false in H0.
        cbn [andb] in H0. exact H0.
      * cbn [crlf_only] in H0 |- *.
        apply andb_prop in H0 as [-> Hr]. rewrite andb_true_l.
        by apply IH.
    + cbn [replaceAll_go]. specialize (Hk ltac:(done)). cbn [drop] in Hk.
      apply IH.
      * intros ->. by apply crlf_only_weaken.
      * intros _. by destruct k.
Qed.

(** X8.  [convertToCRLF] does what it is for, whatever the text: in its
    result every line feed comes directly after a carriage return. *)
Theorem convertToCRLF_line_ends (content : string) :
  crlf_only false (convertToCRLF content) = true.
Proof.
  unfold convertToCRLF, replaceAll at 1.
  apply entities_crlf; [|done]. intros _. apply line_feeds_crlf.
Qed.

Lemma ampersand_free_entity (s : string) :
  contains_char "&" s = false → includes "&#xD;" s = false.
Proof.
  induction s as [|c s IH]; [done|]. cbn [contains_char includes starts_with].
  intros [-> Hs]%orb_false_elim. by rewrite IH.
Qed.

Lemma ampersand_free_line_feeds (s : string) :
  contains_char "&" s = false →
  contains_char "&"
    (replaceAll s (String "010" "") (String "013" (String "010" ""))) = false.
Proof.
  induction s as [|c s IH]; [done|]. cbn [contains_char].
  intros [Hc Hs]%orb_false_elim. rewrite line_feeds_cons.
  destruct (Ascii.eqb c "010").
  - rewrite !app_cons, app_empty_l. cbn [contains_char].
    change (Ascii.eqb "&" "013") with false.
    change (Ascii.eqb "&" "010") with false. by rewrite IH.
  - rewrite app_cons, app_empty_l. cbn [contains_char]. by rewrite Hc, IH.
Qed.

Lemma convertToCRLF_ampersand_free (s : string) :
  contains_char "&" s = false →
  convertToCRLF s
  = replaceAll s (String "010" "") (String "013" (String "010" "")).
Proof.
  intros Hs. unfold convertToCRLF.
  apply replaceAll_absent; [done|].
  by apply ampersand_free_entity, ampersand_free_line_feeds.
Qed.

(** X9.  On text without an ampersand [convertToCRLF] works character by
    character: a line feed becomes a carriage return and a line feed, and
    every other character stays, a carriage return included.  Text that
    already has the two-character line end therefore comes out with two
    carriage returns before each line feed. *)
Theorem convertToCRLF_char (c : ascii) (s : string) :
  contains_char "&" (String c s) = false →
  convertToCRLF (String c s)
  = (if Ascii.eqb c "010" then String "013" (String "010" "") else String c "")
    +:+ convertToCRLF s.
Proof.
  intros Hcs. rewrite convertToCRLF_ampersand_free by done.
  cbn [contains_char] in Hcs. apply orb_false_elim in Hcs as [_ Hs].
  rewrite (convertToCRLF_ampersand_free s) by done. apply line_feeds_cons.
Qed.

Lemma convertToCRLF_char_witness :
  convertToCRLF (String "013" (String "010" "b"))
  = (if Ascii.eqb "013" "010" then String "013" (String "010" "")
     else String "013" "")
    +:+ convertToCRLF (String "010" "b")
  ∧ convertToCRLF (String "010" "b")
    = (if Ascii.eqb "010" "010" then String "013" (String "010" "")
       else String "010" "")
      +:+ convertToCRLF "b".
Proof.
  split; apply convertToCRLF_char; vm_compute; reflexivity.
Defined.

End LineEnds.


(* ===================================================================== *)
(** ** Runs of the earlier revision *)
(* ===================================================================== *)

Section EarlierRevision.
Import Eff Run Shared.
Context `{Libraries}.

(** X23.  The earlier revision, mode [Update only meta files], with a
    [vehicles.meta] that does not parse: the parser's exception is caught
    by nothing but the top-level handler, so the run prints the error and
    ends with exit status 0; no file is changed, and
    [carvariations.meta] is not looked at. *)
Theorem build_mjs_parse_failure (s : BuildMjs.session) (w : world)
    (manifest content : string) (buildData : BuildData.t) (e : error) :
  BuildMjs.updateChoice s = "Update only meta files" →
  files w !! path_join (BuildMjs.cwd s) "build.yaml" = Some manifest →
  yaml_load manifest = inl buildData →
  files w !! path_join (path_join (BuildMjs.cwd s) "build/meta") "vehicles.meta"
    = Some content →
  parseString content = inr e →
  BuildMjs.run s w
  = ({| files := files w;
        trace := trace w
          ++ [ Console LLog ("Loading YAML file: "
                             +:+ path_join (BuildMjs.cwd s) "build.yaml");
               Console LLog "YAML file loaded successfully.";
               Console LLog "Auto-incrementing spawn codes...";
               Console LLog "Spawn codes generated successfully.";
               Console LLog "Updating metadata files...";
               Console LError ("Error: " +:+ err_message e) ] |},
     0).
Proof.
  intros Hc Hf Hy Hv Hp.
  unfold BuildMjs.run, BuildMjs.main, bind at 1.
  rewrite loadYaml_run, Hf, Hy. cbv zeta.
  unfold bind at 1. rewrite generate_run. rewrite Hc.
  change (String.eqb "Update only meta files" "Update everything") with false.
  change (String.eqb "Update only meta files" "Update only spawn codes") with false.
  change (String.eqb "Update only meta files" "Update only meta files") with true.
  cbv iota. unfold bind at 1.
  unfold BuildMjs.updateMetaFiles, bind at 1, console at 1, emit.
  cbn [for_each]. unfold bind at 1.
  unfold BuildMjs.updateMetaFile at 1, bind at 1, existsSync. cbn [files].
  rewrite bool_decide_true by (rewrite Hv; eauto).
  unfold bind at 1, readFileSync. cbn [files]. rewrite Hv, Hp.
  unfold throw, console, emit. cbn [fst files trace].
  by rewrite <- !app_assoc.
Qed.

End EarlierRevision.

Lemma build_mjs_parse_failure_witness :
  let s := {| BuildMjs.cwd := "/mod"; BuildMjs.updateChoice := "Update only meta files" |} in
  let w := {| files := {[ "/mod/build.yaml" := "manifest";
                          "/mod/build/meta/vehicles.meta" := "<CVehicleModelInfo" ]};
              trace := [] |} in
  @BuildMjs.run Sample.libraries s w
  = ({| files := files w;
        trace := trace w
          ++ [ Console LLog ("Loading YAML file: "
                             +:+ path_join (BuildMjs.cwd s) "build.yaml");
               Console LLog "YAML file loaded successfully.";
               Console LLog "Auto-incrementing spawn codes...";
               Console LLog "Spawn codes generated successfully.";
               Console LLog "Updating metadata files...";
               Console LError
                 ("Error: "
                  +:+ err_message {| err_name := "Error";
                                     err_message := "not well-formed" |}) ] |},
     0).
Proof.
  intros s w.
  apply (@build_mjs_parse_failure Sample.libraries s w "manifest"
           "<CVehicleModelInfo" Sample.buildData
           {| err_name := "Error"; err_message := "not well-formed" |});
    vm_compute; reflexivity.
Defined.


(* ===================================================================== *)
(** ** What each mode of the later revision touches *)
(* ===================================================================== *)

Section Modes.
Import Eff Run Shared.
Context `{Libraries}.

Lemma only_console (paths : list string) l m : only paths (Console l m).
Proof. done. Qed.

Lemma only_load (paths : list string) e : load_event e = true → only paths e.
Proof. by destruct e. Qed.

Lemma only_generate (paths : list string) e : generate_event e = true → only paths e.
Proof. by destruct e. Qed.

(** The callbacks that walk a document only print. *)
Lemma vehiclesDoc_prints spawnCodes vehicleData buildData d (paths : list string) :
  Forall (only paths) (Part000.vehiclesDoc spawnCodes vehicleData buildData d).1.2.
Proof.
  apply on_items_events. intros x. unfold Part000.vehicleItem.
  destruct (Part000.originalModelName_of x); [|constructor].
  destruct (truthy _); [|constructor].
  unfold rewriteVehicleItem.
  destruct (dataRef_of buildData s); [|constructor].
  apply say_events; [|done]. cbn [foldl]. rewrite !upd_events. constructor.
Qed.

Lemma variationsDoc_prints spawnCodes d (paths : list string) :
  Forall (only paths) (Part000.variationsDoc spawnCodes d).1.2.
Proof.
  apply on_items_events. intros x. unfold Part000.variationItem.
  destruct (Part000.originalModelName_of x); [|constructor].
  destruct (truthy _); [|constructor].
  unfold rewriteVariationItem.
  apply say_events; [|done]. rewrite upd_events. constructor.
Qed.

Lemma modkitsDoc_prints prefix d (paths : list string) :
  Forall (only paths) (Part000.modkitsDoc prefix d).1.2.
Proof.
  unfold Part000.modkitsDoc.
  destruct (Xml.root_field d "CVehicleModelInfoVarGlobal") as [[s|a t ch|k|]|];
    try constructor.
  destruct (own ch "Kits") as [kits|]; [|constructor].
  assert (Hitem : ∀ ki ii item,
            Forall (only paths) (Part000.kitItem prefix ki ii item).1.2).
  { intros ki ii item. unfold Part000.kitItem.
    destruct (Xml.prop item "kitName") as [[?|]|];
      destruct (Xml.prop item "id") as [[ids|]|]; try constructor.
    destruct (Part000.kit_id ids) as [[? ?]|]; [|constructor].
    repeat constructor; done. }
  assert (Hkit : ∀ ki kit,
            Forall (only paths) (Part000.kitsElement prefix ki kit).1.2).
  { intros ki kit. unfold Part000.kitsElement.
    destruct (Xml.prop kit "Item") as [[items|]|]; try constructor.
    pose proof (forEach_from_events (Part000.kitItem prefix ki) (only paths)
                  (Hitem ki) items 0) as Hev.
    by destruct (Xml.forEach_from (Part000.kitItem prefix ki) 0 items)
      as [[? ?] ?]. }
  pose proof (forEach_from_events (Part000.kitsElement prefix) (only paths)
                Hkit kits 0) as Hev.
  by destruct (Xml.forEach_from (Part000.kitsElement prefix) 0 kits) as [[? ?] ?].
Qed.

Lemma rewriteFile_only rewrite (f : metaFile) (paths : list string) :
  path f ∈ paths →
  Forall (only paths) (rewrite (contents f)).1.2 →
  emits (only paths) (Part000.rewriteFile rewrite f).
Proof.
  intros Hf Hev w w' r. rewrite rewriteFile_run.
  destruct (rewrite (contents f)) as [[d evs] [e|]]; intros [= <- _];
    cbn [trace fst snd] in *.
  - eauto.
  - exists (evs ++ [Write (path f) (Part000.convertToCRLF (buildObject d))]).
    rewrite app_assoc. split; [done|]. apply Forall_app. split; [done|].
    constructor; [|constructor]. split; [done|]. by intros p c [= <- _].
Qed.

Lemma updateMetaFiles_only vehiclesArray carvarArray spawnCodes vehicleData buildData :
  emits (only (path <$> (vehiclesArray ++ carvarArray)))
    (Part000.updateMetaFiles vehiclesArray carvarArray spawnCodes
       vehicleData buildData).
Proof.
  unfold Part000.updateMetaFiles. apply emits_bind; [|intros _];
    apply emits_for_each; intros f Hf; apply rewriteFile_only.
  - apply list_elem_of_fmap. exists f. split; [done|]. apply elem_of_app. by left.
  - apply vehiclesDoc_prints.
  - apply list_elem_of_fmap. exists f. split; [done|]. apply elem_of_app. by right.
  - apply variationsDoc_prints.
Qed.

Lemma fixModkits_only carcolArray prefix :
  emits (only (path <$> carcolArray)) (Part000.fixModkits carcolArray prefix).
Proof.
  apply emits_for_each. intros f Hf w w' r. rewrite fixModkitsFile_run.
  pose proof (modkitsDoc_prints prefix (contents f) (path <$> carcolArray)) as Hev.
  destruct (Part000.modkitsDoc prefix (contents f)) as [[d evs] err].
  intros [= <- _]. cbn [trace fst snd] in *. eexists. split; [done|].
  apply Forall_cons. split; [done|].
  apply Forall_app. split; [done|]. apply Forall_app. split.
  - destruct err; repeat constructor; done.
  - constructor; [done|]. constructor; [|by repeat constructor].
    split; [done|]. intros p c [= <- _].
    apply list_elem_of_fmap. by exists f.
Qed.

Lemma updateUlcFile_only ulcFilePath (spawnCodes : obj string) :
  emits (only [ulcFilePath]) (Part000.updateUlcFile ulcFilePath spawnCodes).
Proof.
  intros w w' r. rewrite updateUlcFile_run.
  destruct (files w !! ulcFilePath) as [c|]; intros [= <- _]; cbn [trace].
  - eexists. rewrite <- !app_assoc. split; [done|].
    apply Forall_cons. split; [done|].
    apply Forall_app. split.
    + apply Forall_fmap, Forall_forall. by intros e _.
    + constructor; [|by repeat constructor].
      split; [done|]. intros p c' [= <- _]. by left.
  - eexists. rewrite <- !app_assoc. split; [done|]. by repeat constructor.
Qed.

Ltac pick_mode Hc :=
  rewrite Hc;
  repeat match goal with
         | |- context [String.eqb ?a ?b] =>
             let v := eval vm_compute in (String.eqb a b) in
             change (String.eqb a b) with v
         end;
  cbv iota.

(** X21.  The single-step modes of the later revision do their step and
    nothing else: [Update only spawn codes] writes no file;
    [Update only meta files] renames nothing and writes only the
    [vehicles.meta] and [carvariations.meta] files that were found;
    [Update only ULC] renames nothing and writes only the script;
    [Update only modkits] renames nothing and writes only the
    [carcols.meta] files that were found. *)
Theorem single_step_modes (s : Part000.session) (found : Part000.metaData) :
  Part000.findMetaFiles s = inl found →
  (Part000.updateChoice s = "Update only spawn codes" →
   emits (λ e, is_write e = false) (Part000.main s))
  ∧ (Part000.updateChoice s = "Update only meta files" →
     emits (only (path <$> (Part000.vehicles found ++ Part000.carvariations found)))
       (Part000.main s))
  ∧ (Part000.updateChoice s = "Update only ULC" →
     emits (only [Part000.ulcFilePath s]) (Part000.main s))
  ∧ (Part000.updateChoice s = "Update only modkits" →
     emits (only (path <$> Part000.carcols found)) (Part000.main s)).
Proof.
  intros Hfind.
  assert (Hmain : ∀ P : event → Prop,
            (∀ l m, P (Console l m)) →
            (∀ buildData spawnCodes,
               emits P
                 (if String.eqb (Part000.updateChoice s) "Update everything" then
                    bind (FileRenamer.renameVehicleFiles (Part000.streamFolder s) spawnCodes)
                      (λ _, bind (Part000.updateMetaFiles (Part000.vehicles found)
                                    (Part000.carvariations found) spawnCodes
                                    (BuildData.data buildData) (BuildData.vehicles buildData))
                      (λ _, bind (Part000.updateUlcFile (Part000.ulcFilePath s) spawnCodes)
                      (λ _, Part000.fixModkits (Part000.carcols found)
                              (Some (Part000.selectedPrefix s)))))
                  else if String.eqb (Part000.updateChoice s) "Update only spawn codes" then
                    FileRenamer.renameVehicleFiles (Part000.streamFolder s) spawnCodes
                  else if String.eqb (Part000.updateChoice s) "Update only meta files" then
                    Part000.updateMetaFiles (Part000.vehicles found)
                      (Part000.carvariations found) spawnCodes
                      (BuildData.data buildData) (BuildData.vehicles buildData)
                  else if String.eqb (Part000.updateChoice s) "Update only ULC" then
                    Part000.updateUlcFile (Part000.ulcFilePath s) spawnCodes
                  else if String.eqb (Part000.updateChoice s) "Update only modkits" then
                    Part000.fixModkits (Part000.carcols found)
                      (Some (Part000.selectedPrefix s))
                  else console LLog "Invalid choice!")) →
            emits P (Part000.main s)).
  { intros P Hcon Hstep. unfold Part000.main.
    apply emits_bind.
    { eapply emits_impl; [|apply loadYaml_emits].
      intros [l m|o n|p c] He; [apply Hcon | done | done]. }
    intros buildData. rewrite Hfind.
    change (emits P
              (bind (generate (BuildData.vehicles buildData))
                 (λ spawnCodes,
                    bind
                      (if String.eqb (Part000.updateChoice s) "Update everything" then
                         bind (FileRenamer.renameVehicleFiles (Part000.streamFolder s) spawnCodes)
                           (λ _, bind (Part000.updateMetaFiles (Part000.vehicles found)
                                         (Part000.carvariations found) spawnCodes
                                         (BuildData.data buildData) (BuildData.vehicles buildData))
                           (λ _, bind (Part000.updateUlcFile (Part000.ulcFilePath s) spawnCodes)
                           (λ _, Part000.fixModkits (Part000.carcols found)
                                   (Some (Part000.selectedPrefix s)))))
                       else if String.eqb (Part000.updateChoice s) "Update only spawn codes" then
                         FileRenamer.renameVehicleFiles (Part000.streamFolder s) spawnCodes
                       else if String.eqb (Part000.updateChoice s) "Update only meta files" then
                         Part000.updateMetaFiles (Part000.vehicles found)
                           (Part000.carvariations found) spawnCodes
                           (BuildData.data buildData) (BuildData.vehicles buildData)
                       else if String.eqb (Part000.updateChoice s) "Update only ULC" then
                         Part000.updateUlcFile (Part000.ulcFilePath s) spawnCodes
                       else if String.eqb (Part000.updateChoice s) "Update only modkits" then
                         Part000.fixModkits (Part000.carcols found)
                           (Some (Part000.selectedPrefix s))
                       else console LLog "Invalid choice!")
                      (λ _, console LLog "Processing completed successfully.")))).
    apply emits_bind.
    { eapply emits_impl; [|apply generate_emits].
      intros [l m'|o n|p c] He; [apply Hcon | done | done]. }
    intros spawnCodes.
    apply emits_bind; [apply Hstep | intros _; by apply emits_console]. }
  split_and!; intros Hc; apply Hmain; try done; intros buildData spawnCodes;
    pick_mode Hc.
  - eapply emits_impl; [|apply renameVehicleFiles_emits].
    by intros [l m|o n|p c] He.
  - apply updateMetaFiles_only.
  - apply updateUlcFile_only.
  - apply fixModkits_only.
Qed.

End Modes.

Lemma single_step_modes_witness :
  let found := {| Part000.vehicles := []; Part000.carvariations := [];
                  Part000.carcols :=
                    [ {| path := "/mod/build/meta/carcols.meta";
                         contents := Sample.carcols [Sample.kit "bumper" "42"] |} ] |} in
  Run.emits
    (Run.only [Part000.ulcFilePath (Sample.session "Update only ULC" found)])
    (@Part000.main Sample.libraries (Sample.session "Update only ULC" found))
  ∧ Run.emits (Run.only (path <$> Part000.carcols found))
      (@Part000.main Sample.libraries (Sample.session "Update only modkits" found)).
Proof.
  intros found. split.
  - apply (@single_step_modes Sample.libraries
             (Sample.session "Update only ULC" found) found eq_refl).
    reflexivity.
  - apply (@single_step_modes Sample.libraries
             (Sample.session "Update only modkits" found) found eq_refl).
    reflexivity.
Defined.


(* ===================================================================== *)
(** ** The search for metadata files *)
(* ===================================================================== *)

Section Search.
Import MetaFinder.
Context `{Libraries}.

Lemma dirent_nested_ind (P : dirent → Prop) :
  (∀ name content, P (File name content)) →
  (∀ name entries, Forall P entries → P (Dir name entries)) →
  ∀ d, P d.
Proof.
  intros HF HD. fix IH 1. intros [name content|name entries]; [apply HF|].
  apply HD. revert entries. fix IHes 1.
  intros [|e es]; constructor; [apply IH | apply IHes].
Qed.

Lemma merge_nothing_l (c : collected) : merge nothing c = c.
Proof. by destruct c. Qed.

Lemma merge_assoc (a b c : collected) :
  merge (merge a b) c = merge a (merge b c).
Proof. unfold merge. simpl. by rewrite <- !app_assoc. Qed.

(** The loop adds to what was collected before. *)
Lemma loop_acc (f : dirent → collected * list event) (es : list dirent) :
  ∀ acc, loop f acc es
         = (merge acc.1 (loop f (nothing, []) es).1,
            acc.2 ++ (loop f (nothing, []) es).2).
Proof.
  induction es as [|e es IH]; intros [c evs].
  - simpl. rewrite app_nil_r. by destruct c; unfold merge; simpl; rewrite !app_nil_r.
  - cbn [loop fst snd]. destruct (f e) as [c1 evs1] eqn:E.
    rewrite IH. rewrite (IH (merge nothing c1, [] ++ evs1)).
    cbn [fst snd]. rewrite merge_nothing_l, merge_assoc, app_nil_l, app_assoc.
    done.
Qed.

Lemma loop_cons (f : dirent → collected * list event) e (es : list dirent) :
  loop f (nothing, []) (e :: es)
  = (merge (f e).1 (loop f (nothing, []) es).1,
     (f e).2 ++ (loop f (nothing, []) es).2).
Proof.
  cbn [loop]. destruct (f e) as [c1 evs1]. rewrite loop_acc.
  cbn [fst snd]. by rewrite merge_nothing_l.
Qed.

(** The names the search looks for. *)
Lemma visit_file folder name xmlData :
  let f := (path_join folder name, name, xmlData) in
  visit folder (File name xmlData)
  = ({| vehicles := entry_of <$> filter (λ x, x.1.2 = "vehicles.meta") [f];
        carvariations := entry_of <$> filter (λ x, x.1.2 = "carvariations.meta") [f];
        carcols := entry_of <$> filter (λ x, x.1.2 = "carcols.meta") [f] |},
     if bool_decide (name ∈ ["vehicles.meta"; "carvariations.meta"; "carcols.meta"])
     then (parseXmlFile (path_join folder name) xmlData).2 else []).
Proof.
  intros f. subst f. cbn [visit].
  destruct (parseXmlFile (path_join folder name) xmlData) as [data evs] eqn:E.
  assert (He : entry_of (path_join folder name, name, xmlData)
               = {| path := path_join folder name; contents := data |})
    by (unfold entry_of; cbn [fst snd]; by rewrite E).
  destruct (String.eqb_spec name "vehicles.meta") as [->|H1];
    [|destruct (String.eqb_spec name "carvariations.meta") as [->|H2];
      [|destruct (String.eqb_spec name "carcols.meta") as [->|H3]]];
    repeat first [ rewrite filter_cons_True by done
                 | rewrite filter_cons_False by done ];
    rewrite ?filter_nil; cbn [fmap list_fmap]; rewrite ?He.
  - by rewrite bool_decide_true by set_solver.
  - by rewrite bool_decide_true by set_solver.
  - by rewrite bool_decide_true by set_solver.
  - rewrite bool_decide_false; [done|].
    rewrite !elem_of_cons, elem_of_nil. tauto.
Qed.

(** What the search collects below one entry, in terms of the files
    below it. *)
Lemma visit_files (d : dirent) : ∀ folder,
  let files := files_under folder d in
  visit folder d
  = ({| vehicles := entry_of <$> filter (λ x, x.1.2 = "vehicles.meta") files;
        carvariations := entry_of <$> filter (λ x, x.1.2 = "carvariations.meta") files;
        carcols := entry_of <$> filter (λ x, x.1.2 = "carcols.meta") files |},
     files ≫= (λ x,
       if bool_decide (x.1.2 ∈ ["vehicles.meta"; "carvariations.meta"; "carcols.meta"])
       then (parseXmlFile x.1.1 x.2).2 else [])).
Proof.
  induction d as [name content|name entries IH] using dirent_nested_ind;
    intros folder.
  - cbv zeta. rewrite visit_file. cbn [files_under]. cbv zeta.
    f_equal. cbn. by rewrite app_nil_r.
  - cbn [visit files_under]. cbv zeta.
    induction entries as [|e es IHes]; [done|].
    apply Forall_cons in IH as [He Hes].
    rewrite loop_cons, (IHes Hes), (He (path_join folder name)).
    cbv zeta. cbn [fst snd merge vehicles carvariations carcols].
    rewrite bind_cons, !filter_app, !fmap_app, bind_app. done.
Qed.

Lemma findMetaFiles_files folder (entries : list dirent) :
  let files := entries ≫= files_under folder in
  findMetaFiles folder entries
  = ({| vehicles := entry_of <$> filter (λ x, x.1.2 = "vehicles.meta") files;
        carvariations := entry_of <$> filter (λ x, x.1.2 = "carvariations.meta") files;
        carcols := entry_of <$> filter (λ x, x.1.2 = "carcols.meta") files |},
     files ≫= (λ x,
       if bool_decide (x.1.2 ∈ ["vehicles.meta"; "carvariations.meta"; "carcols.meta"])
       then (parseXmlFile x.1.1 x.2).2 else [])).
Proof.
  cbv zeta. unfold findMetaFiles.
  induction entries as [|e es IH]; [done|].
  rewrite loop_cons, IH, visit_files. cbv zeta.
  cbn [fst snd merge vehicles carvariations carcols].
  rewrite bind_cons, !filter_app, !fmap_app, bind_app. done.
Qed.

(** X6.  [findMetaFiles] collects, at any depth below the folder and in
    the order the search meets them, exactly the files whose name is
    [vehicles.meta], [carvariations.meta] or [carcols.meta], each in the
    array of its name with its path and what the parser made of it; a file
    of any other name is left out. *)
Theorem findMetaFiles_collects folder (entries : list dirent) :
  let files := entries ≫= files_under folder in
  let found := (findMetaFiles folder entries).1 in
  vehicles found = entry_of <$> filter (λ x, x.1.2 = "vehicles.meta") files
  ∧ carvariations found
    = entry_of <$> filter (λ x, x.1.2 = "carvariations.meta") files
  ∧ carcols found = entry_of <$> filter (λ x, x.1.2 = "carcols.meta") files.
Proof. cbv zeta. by rewrite findMetaFiles_files. Qed.

Lemma parseXmlFile_report (filePath xmlData : string) :
  (parseXmlFile filePath xmlData).2
  = match parseString xmlData with
    | inl _ => []
    | inr _ => [Console LError ("Error parsing XML in file " +:+ filePath +:+ ":")]
    end.
Proof. unfold parseXmlFile. by destruct (parseString xmlData). Qed.

Lemma parseXmlFile_contents (filePath xmlData : string) :
  (parseXmlFile filePath xmlData).1
  = match parseString xmlData with
    | inl result => result
    | inr _ => None
    end.
Proof. unfold parseXmlFile. by destruct (parseString xmlData). Qed.

(** X7.  Neither a blank file nor a file that does not parse stops the
    search.  Every file of one of the three names is collected, with what
    the parser resolved to as its contents: a document, or [null] for a
    blank text and for a text the parser failed on.  The lines the search
    prints are, in the order of the search, one report for every such
    file the parser failed on, and nothing for the others. *)
Theorem findMetaFiles_reports folder (entries : list dirent) :
  let metas :=
    filter (λ x, x.1.2 ∈ ["vehicles.meta"; "carvariations.meta"; "carcols.meta"])
      (entries ≫= files_under folder) in
  let found := (findMetaFiles folder entries).1 in
  (findMetaFiles folder entries).2
  = metas ≫= (λ x,
      match parseString x.2 with
      | inl _ => []
      | inr _ => [Console LError ("Error parsing XML in file " +:+ x.1.1 +:+ ":")]
      end)
  ∧ ∀ x, x ∈ metas →
      ∃ f, f ∈ vehicles found ++ carvariations found ++ carcols found
           ∧ path f = x.1.1
           ∧ contents f = match parseString x.2 with
                          | inl result => result
                          | inr _ => None
                          end.
Proof.
  cbv zeta. rewrite findMetaFiles_files. cbv zeta.
  cbn [fst snd vehicles carvariations carcols]. split.
  - induction (entries ≫= files_under folder) as [|x l IH]; [done|].
    rewrite bind_cons, IH, parseXmlFile_report.
    destruct (decide (x.1.2 ∈ ["vehicles.meta"; "carvariations.meta"; "carcols.meta"])).
    + rewrite bool_decide_true, filter_cons_True by done. by rewrite bind_cons.
    + by rewrite bool_decide_false, filter_cons_False by done.
  - intros x [Hn Hx]%list_elem_of_filter.
    exists (entry_of x). split; [|split; [done | apply parseXmlFile_contents]].
    rewrite !elem_of_app, !list_elem_of_fmap.
    repeat setoid_rewrite list_elem_of_filter.
    rewrite !elem_of_cons, elem_of_nil in Hn.
    destruct Hn as [Hn|[Hn|[Hn|[]]]]; [left | right; left | right; right];
      by exists x.
Qed.

(** X25.  When the parser makes a document of every file of one of the
    three names, the search prints nothing and every collected file has
    parsed contents: the three arrays are then arrays of parsed documents,
    as [updateMetaFiles] and [fixModkits] take them. *)
Theorem findMetaFiles_all_parsed folder (entries : list dirent) :
  (∀ x, x ∈ entries ≫= files_under folder →
        x.1.2 ∈ ["vehicles.meta"; "carvariations.meta"; "carcols.meta"] →
        ∃ d, parseString x.2 = inl (Some d)) →
  let found := (findMetaFiles folder entries).1 in
  (findMetaFiles folder entries).2 = []
  ∧ is_Some (parsed (vehicles found))
  ∧ is_Some (parsed (carvariations found))
  ∧ is_Some (parsed (carcols found)).
Proof.
  intros Hall. rewrite findMetaFiles_files. cbv zeta.
  cbn [fst snd vehicles carvariations carcols].
  assert (Hone : ∀ n, n ∈ ["vehicles.meta"; "carvariations.meta"; "carcols.meta"] →
            is_Some (parsed (entry_of <$>
                       filter (λ x, x.1.2 = n) (entries ≫= files_under folder)))).
  { intros n Hn. unfold parsed. apply mapM_is_Some.
    apply Forall_fmap, Forall_forall. intros x [Hx Hin]%list_elem_of_filter.
    destruct (Hall x Hin) as [d Hd]; [by rewrite Hx|].
    unfold entry_of. cbn [path contents compose].
    by rewrite parseXmlFile_contents, Hd. }
  split; [|split_and!; apply Hone; set_solver]. clear Hone.
  induction (entries ≫= files_under folder) as [|x l IH]; [done|].
  rewrite bind_cons, IH by (intros y Hy; apply Hall; by right).
  rewrite app_nil_r. case_bool_decide as Hn; [|done].
  destruct (Hall x) as [d Hd]; [by left | done |].
  by rewrite parseXmlFile_report, Hd.
Qed.

End Search.

Lemma findMetaFiles_collects_witness :
  let entries :=
    [ File "readme.txt" "notes";
      Dir "police" [ File "vehicles.meta" "<a/>"; File "Carcols.meta" "<b/>" ];
      File "carcols.meta" "<c/>" ] in
  (MetaFinder.path <$>
     MetaFinder.vehicles
       (@MetaFinder.findMetaFiles Sample.libraries "/mod/build/meta" entries).1)
  = ["/mod/build/meta/police/vehicles.meta"]
  ∧ (MetaFinder.path <$>
       MetaFinder.carcols
         (@MetaFinder.findMetaFiles Sample.libraries "/mod/build/meta" entries).1)
    = ["/mod/build/meta/carcols.meta"].
Proof.
  intros entries.
  destruct (@findMetaFiles_collects Sample.libraries "/mod/build/meta" entries)
    as (Hv & _ & Hc).
  cbv zeta in Hv, Hc. rewrite Hv, Hc. split; vm_compute; reflexivity.
Defined.

Lemma findMetaFiles_all_parsed_witness :
  let parser : Libraries :=
    {| yaml_load := @yaml_load Sample.libraries;
       parseString := λ _, inl (Some (Sample.carcols []));
       buildObject := @buildObject Sample.libraries |} in
  let entries := [ Dir "police" [ File "carcols.meta" "<CVehicleModelInfoVarGlobal/>" ] ] in
  let found := (@MetaFinder.findMetaFiles parser "/mod/build/meta" entries).1 in
  (@MetaFinder.findMetaFiles parser "/mod/build/meta" entries).2 = []
  ∧ is_Some (MetaFinder.parsed (MetaFinder.vehicles found))
  ∧ is_Some (MetaFinder.parsed (MetaFinder.carvariations found))
  ∧ is_Some (MetaFinder.parsed (MetaFinder.carcols found)).
Proof.
  intros parser entries.
  apply (@findMetaFiles_all_parsed parser "/mod/build/meta" entries).
  intros x _ _. by exists (Sample.carcols []).
Defined.


(* ===================================================================== *)
(** ** Kit items the fixup does not expect, and a missing metadata folder *)
(* ===================================================================== *)

Lemma kitItem_skipped_witness :
  Part000.kitItem (Some "3") 0 0
    (XElem None None [("id", [XElem (Some [("value", "42")]) None []])])
  = (XElem None None [("id", [XElem (Some [("value", "42")]) None []])], [], None).
Proof. apply kitItem_skipped. left. reflexivity. Defined.

(** X20.  A kit item whose first [id] element has attributes but none
    named [value] is not skipped and does not fail: the missing value
    reads as the text [undefined], so the identifier becomes the prefix
    followed by [undefined], and that is what the two lines print. *)
Theorem kitItem_missing_value (prefix : option string) (ki ii : nat)
    a t ch kitName attrs t' ch' rest :
  own ch "kitName" = Some kitName →
  own ch "id" = Some (XElem (Some attrs) t' ch' :: rest) →
  own attrs "value" = None →
  ∃ item',
    Part000.kitItem prefix ki ii (XElem a t ch)
    = (item',
       [ Console LLog
           ("Modifying kit ID: " +:+ "undefined" +:+ " (Kit "
            +:+ pretty (ki + 1)%nat +:+ ", Item " +:+ pretty (ii + 1)%nat +:+ ")");
         Console LLog ("Updated kit ID: " +:+ default "" prefix +:+ "undefined") ],
       None)
    ∧ Part000.kit_value item' = Some (default "" prefix +:+ "undefined").
Proof.
  intros Hk Hid Hv. unfold Part000.kitItem, Part000.kit_value.
  cbn [Xml.prop]. rewrite Hk, Hid.
  unfold Part000.kit_id, Xml.elem0. simpl. rewrite Hv. simpl.
  eexists. split; [reflexivity|].
  simpl. rewrite own_put_other, Hk by done. rewrite own_put_same. simpl.
  by rewrite own_put_same.
Qed.

Lemma kitItem_missing_value_witness :
  ∃ item',
    Part000.kitItem (Some "3") 0 1
      (XElem None None
         [("kitName", [XText "roof"]); ("id", [XElem (Some [("index", "9")]) None []])])
    = (item',
       [ Console LLog
           ("Modifying kit ID: " +:+ "undefined" +:+ " (Kit "
            +:+ pretty (0 + 1)%nat +:+ ", Item " +:+ pretty (1 + 1)%nat +:+ ")");
         Console LLog ("Updated kit ID: " +:+ default "" (Some "3") +:+ "undefined") ],
       None)
    ∧ Part000.kit_value item' = Some (default "" (Some "3") +:+ "undefined").
Proof.
  apply (kitItem_missing_value (Some "3") 0 1 None None
           [("kitName", [XText "roof"]); ("id", [XElem (Some [("index", "9")]) None []])]
           [XText "roof"] [("index", "9")] None [] []);
    reflexivity.
Defined.

Section MissingFolder.
Import Eff Run Shared.
Context `{Libraries}.

(** X22.  When the search for metadata files fails (the metadata folder
    is missing), a run of the later revision stops right after the
    manifest is loaded, in every mode, also in those that use no metadata
    file: nothing is renamed or written, the error is printed by the
    top-level handler, and the exit status is 0. *)
Theorem run_missing_meta_folder (s : Part000.session) (w : world)
    (manifest : string) (buildData : BuildData.t) (e : error) :
  files w !! Part000.buildYamlPath s = Some manifest →
  yaml_load manifest = inl buildData →
  Part000.findMetaFiles s = inr e →
  Part000.run s w
  = ({| files := files w;
        trace := trace w
          ++ [ Console LLog ("Loading YAML file: " +:+ Part000.buildYamlPath s);
               Console LLog "YAML file loaded successfully.";
               Console LError ("Error: " +:+ err_message e) ] |},
     0).
Proof.
  intros Hf Hy Hfind.
  unfold Part000.run, Part000.main, bind at 1.
  rewrite loadYaml_run, Hf, Hy, Hfind.
  unfold bind at 1, throw, console, emit. cbn [fst files trace].
  by rewrite <- !app_assoc.
Qed.

End MissingFolder.

Lemma run_missing_meta_folder_witness :
  let s := {| Part000.cwd := "/mod";
              Part000.updateChoice := "Update only ULC";
              Part000.selectedPrefix := "3";
              Part000.findMetaFiles :=
                inr {| err_name := "Error";
                       err_message := "ENOENT: no such file or directory, scandir" |} |} in
  @Part000.run Sample.libraries s Sample.world
  = ({| files := files Sample.world;
        trace := trace Sample.world
          ++ [ Console LLog ("Loading YAML file: " +:+ Part000.buildYamlPath s);
               Console LLog "YAML file loaded successfully.";
               Console LError
                 ("Error: "
                  +:+ err_message
                        {| err_name := "Error";
                           err_message := "ENOENT: no such file or directory, scandir" |}) ] |},
     0).
Proof.
  intros s.
  apply (@run_missing_meta_folder Sample.libraries s Sample.world "manifest"
           Sample.buildData); vm_compute; reflexivity.
Defined.


(* ===================================================================== *)
(** ** The two revisions side by side *)
(* ===================================================================== *)

Section Revisions.
Import Eff Run Shared.
Context `{Libraries}.

(** X14.  On an item whose identifier is ASCII text written in lower case
    the metadata callbacks of the two revisions do the same: the
    lower-casing of the later revision is the only difference between
    them. *)
Theorem revisions_agree_lower_case (spawnCodes : obj string)
    (vehicleData : obj template) (buildData : obj vehicleEntry)
    a t ch (s : string) (rest : list xml) :
  own ch "modelName" = Some (XText s :: rest) →
  is_ascii s = true → toLowerCase s = s →
  BuildMjs.vehicleItem spawnCodes vehicleData buildData (XElem a t ch)
  = Part000.vehicleItem spawnCodes vehicleData buildData (XElem a t ch)
  ∧ BuildMjs.variationItem spawnCodes (XElem a t ch)
    = Part000.variationItem spawnCodes (XElem a t ch).
Proof.
  intros Hm _ Hs.
  unfold BuildMjs.vehicleItem, BuildMjs.variationItem, Part000.vehicleItem,
    Part000.variationItem, Part000.originalModelName_of.
  cbn [Xml.prop]. rewrite Hm.
  change (Xml.elem0 (XText s :: rest)) with (XText s).
  cbn [Xml.key_of]. cbv zeta. by rewrite Hs.
Qed.

(** X24.  In the earlier revision a metadata file that is missing is
    passed over with a warning: when neither file is there,
    [updateMetaFiles] prints its three lines, returns, and changes no
    file. *)
Theorem build_mjs_missing_metadata (metaFolder : string) (spawnCodes : obj string)
    (vehicleData : obj template) (buildData : obj vehicleEntry) (w : world) :
  files w !! path_join metaFolder "vehicles.meta" = None →
  files w !! path_join metaFolder "carvariations.meta" = None →
  BuildMjs.updateMetaFiles metaFolder spawnCodes vehicleData buildData w
  = ({| files := files w;
        trace := trace w
          ++ [ Console LLog "Updating metadata files...";
               Console LWarn "Metadata file not found: vehicles.meta";
               Console LWarn "Metadata file not found: carvariations.meta" ] |},
     Ret tt).
Proof.
  intros Hv Hc.
  unfold BuildMjs.updateMetaFiles, bind at 1, console at 1, emit.
  cbn [for_each]. unfold bind at 1.
  unfold BuildMjs.updateMetaFile at 1, bind at 1, existsSync. cbn [files].
  rewrite bool_decide_false by (rewrite Hv; by intros [? ?]).
  unfold console at 1, emit. cbn [files trace]. unfold bind at 1.
  unfold BuildMjs.updateMetaFile at 1, bind at 1, existsSync. cbn [files].
  rewrite bool_decide_false by (rewrite Hc; by intros [? ?]).
  unfold console at 1, emit, ret. cbn [files trace].
  by rewrite <- !app_assoc.
Qed.

End Revisions.

Lemma revisions_agree_lower_case_witness :
  BuildMjs.vehicleItem [("oldcar", "ABC1")]
    (BuildData.data Sample.buildData) (BuildData.vehicles Sample.buildData)
    (Sample.vehicle "oldcar")
  = Part000.vehicleItem [("oldcar", "ABC1")]
      (BuildData.data Sample.buildData) (BuildData.vehicles Sample.buildData)
      (Sample.vehicle "oldcar")
  ∧ BuildMjs.variationItem [("oldcar", "ABC1")] (Sample.vehicle "oldcar")
    = Part000.variationItem [("oldcar", "ABC1")] (Sample.vehicle "oldcar").
Proof.
  apply (revisions_agree_lower_case [("oldcar", "ABC1")]
           (BuildData.data Sample.buildData) (BuildData.vehicles Sample.buildData)
           None None _ "oldcar" []); vm_compute; reflexivity.
Defined.

Lemma build_mjs_missing_metadata_witness :
  @BuildMjs.updateMetaFiles Sample.libraries "/mod/build/meta" [("oldcar", "ABC1")]
    (BuildData.data Sample.buildData) (BuildData.vehicles Sample.buildData)
    Sample.world
  = ({| files := files Sample.world;
        trace := trace Sample.world
          ++ [ Console LLog "Updating metadata files...";
               Console LWarn "Metadata file not found: vehicles.meta";
               Console LWarn "Metadata file not found: carvariations.meta" ] |},
     Ret tt).
Proof.
  apply (@build_mjs_missing_metadata Sample.libraries); vm_compute; reflexivity.
Defined.


(* ===================================================================== *)
(** ** Where the renamed files end up *)
(* ===================================================================== *)

Section Moves.
Import Eff FileRenamer.
Implicit Types (w : world) (folder : string) (fs : gmap string string).

(** The attempts of the renamer as moves on the files: a move whose source
    is missing does nothing. *)
Lemma renameOne_loop_files folder vehicle spawnCode exts : ∀ w,
  files (for_each (renameOne folder vehicle spawnCode) exts w).1
  = foldl (λ fs (m : string * string),
             match fs !! m.1 with
             | Some c => <[m.2 := c]> (delete m.1 fs)
             | None => fs
             end)
      (files w)
      ((λ ext, (path_join folder (vehicle +:+ ext),
                path_join folder (spawnCode +:+ ext))) <$> exts).
Proof.
  induction exts as [|ext exts IH]; intros w; [done|].
  cbn [for_each]. unfold bind at 1. rewrite renameOne_run. cbv zeta.
  rewrite fmap_cons. cbn [foldl fst snd].
  destruct (files w !! path_join folder (vehicle +:+ ext)) as [c|];
    by rewrite IH.
Qed.

Lemma renameEntries_files folder (spawnCodes : obj string) : ∀ w,
  files (for_each (λ e : string * string,
                     for_each (renameOne folder e.1 e.2) patterns)
           spawnCodes w).1
  = foldl (λ fs (m : string * string),
             match fs !! m.1 with
             | Some c => <[m.2 := c]> (delete m.1 fs)
             | None => fs
             end)
      (files w)
      (spawnCodes ≫= λ e,
         (λ ext, (path_join folder (e.1 +:+ ext),
                  path_join folder (e.2 +:+ ext))) <$> patterns).
Proof.
  induction spawnCodes as [|[v c] sc IH]; intros w; [done|].
  cbn [for_each]. unfold bind at 1. cbn [fst snd].
  destruct (renameOne_loop folder v c patterns w) as (w1 & Hrun & _).
  pose proof (renameOne_loop_files folder v c patterns w) as Hf.
  rewrite Hrun in *. cbn [fst] in Hf.
  rewrite IH, Hf, bind_cons, foldl_app. done.
Qed.

Lemma moves_sources folder (spawnCodes : obj string) :
  (spawnCodes ≫= λ e,
     (λ ext, (path_join folder (e.1 +:+ ext),
              path_join folder (e.2 +:+ ext))) <$> patterns).*1
  = old_names folder spawnCodes.
Proof.
  unfold old_names. induction spawnCodes as [|e sc IH]; [done|].
  rewrite !bind_cons, fmap_app, IH. f_equal; by rewrite <- list_fmap_compose.
Qed.

Lemma moves_targets folder (spawnCodes : obj string) :
  (spawnCodes ≫= λ e,
     (λ ext, (path_join folder (e.1 +:+ ext),
              path_join folder (e.2 +:+ ext))) <$> patterns).*2
  = new_names folder spawnCodes.
Proof.
  unfold new_names. induction spawnCodes as [|e sc IH]; [done|].
  rewrite !bind_cons, fmap_app, IH. f_equal; by rewrite <- list_fmap_compose.
Qed.

(** Moves that neither take from nor put to a path leave it alone. *)
Lemma moves_untouched (l : list (string * string)) : ∀ fs (p : string),
  p ∉ l.*1 → p ∉ l.*2 →
  foldl (λ fs (m : string * string),
           match fs !! m.1 with
           | Some c => <[m.2 := c]> (delete m.1 fs)
           | None => fs
           end) fs l !! p
  = fs !! p.
Proof.
  induction l as [|[o n] l IH]; intros fs p Ho Hn; [done|].
  rewrite fmap_cons in Ho, Hn. apply not_elem_of_cons in Ho as [Ho1 Ho2].
  apply not_elem_of_cons in Hn as [Hn1 Hn2]. cbn [foldl fst snd] in *.
  rewrite IH by done.
  destruct (fs !! o); [|done].
  rewrite lookup_insert_ne by done. by rewrite lookup_delete_ne.
Qed.

(** With distinct sources, distinct targets, and no target that is also a
    source, every move whose source exists carries its content to its
    target, and it is still there at the end. *)
Lemma moves_arrive (l : list (string * string)) : ∀ fs (o n c : string),
  NoDup l.*1 → NoDup l.*2 → (∀ x, x ∈ l.*2 → x ∉ l.*1) →
  (o, n) ∈ l → fs !! o = Some c →
  foldl (λ fs (m : string * string),
           match fs !! m.1 with
           | Some c => <[m.2 := c]> (delete m.1 fs)
           | None => fs
           end) fs l !! n
  = Some c.
Proof.
  induction l as [|[o0 n0] l IH]; intros fs o n c Ho Hn Hdisj Hin Hfs;
    [by apply elem_of_nil in Hin|].
  rewrite !fmap_cons in *. cbn [fst snd] in *.
  apply NoDup_cons in Ho as [Ho0 Ho]. apply NoDup_cons in Hn as [Hn0 Hn].
  cbn [foldl fst snd].
  apply elem_of_cons in Hin as [[= -> ->]|Hin].
  - rewrite Hfs. rewrite moves_untouched; [by rewrite lookup_insert_eq| |done].
    intros Hx. apply (Hdisj n0); [by left | by right].
  - assert (Ho' : o ∈ l.*1) by (apply list_elem_of_fmap; by exists (o, n)).
    assert (Hne0 : o ≠ o0) by (by intros ->).
    assert (Hnn0 : o ≠ n0).
    { intros ->. apply (Hdisj n0); [by left | by right]. }
    apply (IH _ o); [done | done | | done |].
    + intros x Hx Hx'. apply (Hdisj x); by right.
    + destruct (fs !! o0); [|done].
      rewrite lookup_insert_ne by done. by rewrite lookup_delete_ne.
Qed.

(** X26.  The stream folder is a resolved path, the original identifiers
    and the new codes are plain names (no path separator in them), and
    none of the old and new file names is a directory.  When then the old
    file names are distinct, the new file names are distinct, and no new
    file name is also an old one, every file of a mapped vehicle that
    exists before the renamer runs is found afterwards under the new code
    with the same suffix, with its content. *)
Theorem renameVehicleFiles_content folder (spawnCodes : obj string) w
    (vehicle spawnCode ext content : string) :
  resolved folder = true →
  plain_names spawnCodes →
  Forall (no_directory w)
    (old_names folder spawnCodes ++ new_names folder spawnCodes) →
  NoDup (old_names folder spawnCodes) → NoDup (new_names folder spawnCodes) →
  (∀ n, n ∈ new_names folder spawnCodes → n ∉ old_names folder spawnCodes) →
  (vehicle, spawnCode) ∈ spawnCodes → ext ∈ patterns →
  files w !! path_join folder (vehicle +:+ ext) = Some content →
  files (renameVehicleFiles folder spawnCodes w).1
    !! path_join folder (spawnCode +:+ ext)
  = Some content.
Proof.
  intros _ _ _ Ho Hn Hdisj Hin Hext Hfs.
  unfold renameVehicleFiles, bind at 1, console, emit.
  rewrite renameEntries_files. cbn [files].
  apply (moves_arrive _ _ (path_join folder (vehicle +:+ ext)));
    rewrite ?moves_sources, ?moves_targets; try done.
  apply list_elem_of_bind. exists (vehicle, spawnCode). split; [|done].
  apply list_elem_of_fmap. by exists ext.
Qed.

End Moves.

Lemma renameVehicleFiles_content_witness :
  let spawnCodes : obj string := [("oldcar", "ABC1"); ("carA", "XYZ1")] in
  let w := {| files := {[ "/build/stream/oldcar.yft" := "model";
                          "/build/stream/carA_hi.yft" := "detail" ]};
              trace := [] |} in
  files (FileRenamer.renameVehicleFiles "/build/stream" spawnCodes w).1
    !! path_join "/build/stream" ("XYZ1" +:+ "_hi.yft")
  = Some "detail".
Proof.
  intros spawnCodes w.
  apply (renameVehicleFiles_content "/build/stream" spawnCodes w "carA").
  - vm_compute. reflexivity.
  - apply (bool_decide_unpack _). vm_compute. exact I.
  - apply (bool_decide_unpack _). vm_compute. exact I.
  - apply (bool_decide_unpack _). vm_compute. exact I.
  - apply (bool_decide_unpack _). vm_compute. exact I.
  - apply Forall_forall. apply (bool_decide_unpack _). vm_compute. exact I.
  - apply (bool_decide_unpack _). vm_compute. exact I.
  - apply (bool_decide_unpack _). vm_compute. exact I.
  - vm_compute. reflexivity.
Defined.
